(** * gh2csv: the record filters and the CSV exporter of [gh2csv.py]

    A shallow embedding of the decision logic of [gh2csv.py]
    ([interpolate_nums], the filters of [collect_gh_attrs], the counting
    loop of [run_arepo] and [write_to_csv]) together with the properties
    that its specification states about them, and of [run_expandvars],
    [warn_to_stdout], [collect_gh_attrs_wrapper] and the inheritance and
    the fetching part of [run_arepo] with further properties of the
    code.

    Conventions of the embedding.
    - A Python [str] is a [string]; the text algorithms work on its
      characters ([list ascii]), a character standing for a code point
      below 256.
    - A Python exception is a value [Raise e] of the type [result].
    - A [dict] with string keys is a [gmap string _]; the records fetched
      from GitHub, whose fields the filters read by fixed names, are a
      Rocq record whose fields have the types the GitHub API gives them
      ([title] and [body] are text).
    - The patterns that the program hands to the [re] module are fixed
      strings, except the user's [strings] filter entries: each fixed
      pattern is modelled by the function that decides it, the user's
      patterns by a parameter [re_search].
    - An existing destination is the list of its lines as [readlines()]
      returns them, each with its newline. What [write_to_csv] writes is
      kept as the header and the rows of values handed to [csv.writer].
      The text that the writer makes of them, and the lines that a
      reader in text mode makes of a text, are modelled apart, for
      [export]; a character is taken to be written and read back as it
      is.
    - The code that sends requests, prints and stops the program is a
      function from a state to an outcome and a state: the state holds
      [yml[arepo]], the requests sent and the lines printed. What GitHub
      answers is a parameter [respond], which is given the requests sent
      before; a response is taken to arrive and its body to be a list of
      records. [os.path.expandvars] and [datetime.today()] are
      parameters as well. *)

From Stdlib Require Import ZArith Ascii String List Lia Bool.
From Stdlib Require Import Numbers.DecimalString Numbers.DecimalNat.
From Stdlib Require Import Numbers.DecimalZ.
From stdpp Require Import gmap strings list sorting.

Local Open Scope Z_scope.

(** ** Exceptions *)

(** The exceptions that the modelled code raises. *)
Inductive exn : Type :=
| ValueError
| KeyError (key : string)
| IndexError.

(** The outcome of a computation: a value, or an exception. *)
Inductive result (A : Type) : Type :=
| Ok (a : A)
| Raise (e : exn).
Arguments Ok {A} a.
Arguments Raise {A} e.

#[global] Instance result_ret : MRet result := λ A a, Ok a.
#[global] Instance result_bind : MBind result := λ A B k r,
  match r with
  | Ok a => k a
  | Raise e => Raise e
  end.

#[global] Instance result_fmap : FMap result := λ A B f r,
  match r with
  | Ok a => Ok (f a)
  | Raise e => Raise e
  end.

(** A lookup that raises [e] where there is nothing to find. *)
Definition of_option {A : Type} (e : exn) (o : option A) : result A :=
  match o with
  | Some a => Ok a
  | None => Raise e
  end.

(** ** Text primitives of Python *)

Module Py.

(** A text and its characters. *)
Definition chars (s : string) : list ascii := list_ascii_of_string s.
Definition text (cs : list ascii) : string := string_of_list_ascii cs.

(** The newline that ends a line of [readlines()], and the separators of
    the three [re.split] calls. *)
Definition LF : ascii := ascii_of_nat 10.
Definition dash : ascii := "-"%char.
Definition comma : ascii := ","%char.
Definition semicolon : ascii := ";"%char.

Definition ascii_eqb (a b : ascii) : bool := bool_decide (a = b).

(** [\s] of [re] on a [str] pattern, and [str.isspace]: the code points
    9-13, 28-32, 133 and 160 (below 256). *)
Definition is_space (c : ascii) : bool :=
  let n := nat_of_ascii c in
  ((9 <=? n) && (n <=? 13) || (28 <=? n) && (n <=? 32)
   || (n =? 133) || (n =? 160))%nat.

(** The white space that [int()] strips: as [is_space] without 28-31. *)
Definition is_int_space (c : ascii) : bool :=
  let n := nat_of_ascii c in
  ((9 <=? n) && (n <=? 13) || (n =? 32) || (n =? 133) || (n =? 160))%nat.

(** [lstrip] and [strip] for a class [p] of characters. *)
Fixpoint drop_while (p : ascii → bool) (cs : list ascii) : list ascii :=
  match cs with
  | [] => []
  | c :: cs' => if p c then drop_while p cs' else cs
  end.

Definition strip_by (p : ascii → bool) (cs : list ascii) : list ascii :=
  rev (drop_while p (rev (drop_while p cs))).

(** [s.lstrip('-')] *)
Definition lstrip_dash (s : string) : string :=
  text (drop_while (ascii_eqb dash) (chars s)).

(** [re.search('^-', s)] *)
Definition starts_with_dash (s : string) : bool :=
  match chars s with
  | c :: _ => ascii_eqb c dash
  | [] => false
  end.

(** [cs] begins with [p]. *)
Fixpoint starts_with (p cs : list ascii) : bool :=
  match p, cs with
  | [], _ => true
  | _ :: _, [] => false
  | a :: p', c :: cs' => ascii_eqb a c && starts_with p' cs'
  end.

(** [re.search(p, s)] for a pattern [p] without special characters, such
    as ['open'], ['closed'], ['date'] and ['time']: [p] occurs in [s]. *)
Fixpoint occurs (p cs : list ascii) : bool :=
  starts_with p cs ||
  match cs with
  | [] => false
  | _ :: cs' => occurs p cs'
  end.

Definition contains (p s : string) : bool := occurs (chars p) (chars s).

(** Case folding of [(?i)] on the letters A-Z. *)
Definition lower (c : ascii) : ascii :=
  let n := nat_of_ascii c in
  if ((65 <=? n) && (n <=? 90))%nat then ascii_of_nat (n + 32) else c.

(** [re.search('(?i)all', s)] *)
Definition contains_all_ci (s : string) : bool :=
  occurs (chars "all") (map lower (chars s)).

(** [sep.join(l)] *)
Fixpoint join (sep : string) (l : list string) : string :=
  match l with
  | [] => ""
  | [s] => s
  | s :: l' => s +:+ sep +:+ join sep l'
  end.

(** [re.split(r'\s*c\s*', s)] for a character [c] that is no white
    space, as a scan from left to right. The leftmost match of the
    pattern begins at the run of white space in front of the next [c]
    and ends behind the run of white space that follows it. The scan
    therefore keeps, both reversed, the field read so far ([cur]) and the
    run of white space behind it ([ws]), which belongs to the field
    unless a separator comes next; right behind a separator ([AfterSep])
    white space is skipped. *)
Inductive split_state : Type :=
| AfterSep
| InField (cur ws : list ascii).

(** The field at the end of the text: the pending white space is part
    of it. *)
Definition field_of (st : split_state) : list ascii :=
  match st with
  | AfterSep => []
  | InField cur ws => rev (ws ++ cur)
  end.

(** The field in front of a separator: the pending white space is
    not. *)
Definition field_before_sep (st : split_state) : list ascii :=
  match st with
  | AfterSep => []
  | InField cur _ => rev cur
  end.

(** One character that is not the separator. *)
Definition push (c : ascii) (st : split_state) : split_state :=
  match st with
  | AfterSep => if is_space c then AfterSep else InField [c] []
  | InField cur ws =>
      if is_space c then InField cur (c :: ws) else InField (c :: ws ++ cur) []
  end.

Fixpoint split_go (sep : ascii) (st : split_state) (cs : list ascii)
  : list (list ascii) :=
  match cs with
  | [] => [field_of st]
  | c :: cs' =>
      if ascii_eqb c sep then field_before_sep st :: split_go sep AfterSep cs'
      else split_go sep (push c st) cs'
  end.

Definition re_split (sep : ascii) (s : string) : list string :=
  map text (split_go sep (InField [] []) (chars s)).

(** [re.search(r'\s*-\s*', s)] *)
Definition has_dash (s : string) : bool := existsb (ascii_eqb dash) (chars s).

(** [int(s)]: white space stripped, an optional sign, then decimal
    digits, where single underscores may stand between digits; anything
    else is a [ValueError]. (The interpreter's bound on the number of
    digits, 4300 unless configured otherwise, is left out.) *)
Definition digit (c : ascii) : option Z :=
  let n := nat_of_ascii c in
  if ((48 <=? n) && (n <=? 57))%nat then Some (Z.of_nat n - 48) else None.

Fixpoint int_digits (acc : Z) (cs : list ascii) : option Z :=
  match cs with
  | [] => Some acc
  | c :: cs' =>
      match digit c with
      | Some d => int_digits (10 * acc + d) cs'
      | None =>
          if ascii_eqb c "_"%char then
            match cs' with
            | c' :: cs'' =>
                match digit c' with
                | Some d => int_digits (10 * acc + d) cs''
                | None => None
                end
            | [] => None
            end
          else None
      end
  end.

Definition int_literal (cs : list ascii) : option Z :=
  match cs with
  | c :: cs' =>
      match digit c with
      | Some d => int_digits d cs'
      | None => None
      end
  | [] => None
  end.

Definition int_opt (s : string) : option Z :=
  match strip_by is_int_space (chars s) with
  | c :: cs' =>
      if ascii_eqb c "+"%char then int_literal cs'
      else if ascii_eqb c dash then Z.opp <$> int_literal cs'
      else int_literal (c :: cs')
  | [] => None
  end.

Definition int (s : string) : result Z := of_option ValueError (int_opt s).

(** [str(n)] of an integer *)
Definition str_of_int (z : Z) : string := NilZero.string_of_int (Z.to_int z).

(** [range(a, b)] *)
Definition range (a b : Z) : list Z := seqZ a (b - a).

(** [sorted(list(set(l)))] *)
Definition sorted_set (l : list Z) : list Z :=
  merge_sort Z.le (elements (list_to_set l : gset Z)).

End Py.

(** ** [interpolate_nums] *)

(** The loop body: the numbers that the token [_num] adds to
    [nums_out]. A token in which [re.search(r'\s*-\s*', _num)] finds a
    match, that is a token with a dash, is split and must unpack into
    [beg] and [end]; [int] is applied to every part before the
    unpacking. *)
Definition expand_token (tok : string) : result (list Z) :=
  if Py.has_dash tok then
    match Py.re_split Py.dash tok with
    | [b; e] =>
        beg ← Py.int b ;
        end_ ← Py.int e ;
        Ok (Py.range beg (end_ + 1))
    | parts =>
        _ ← foldr (λ p acc, _ ← Py.int p ; acc) (Ok tt) parts ;
        Raise ValueError
    end
  else
    n ← Py.int tok ;
    Ok [n].

(** [for _num in nums_inp], from the token list that is left and the
    numbers gathered so far. *)
Fixpoint interpolate_loop (nums_inp : list string) (nums_out : list Z)
  : result (list Z) :=
  match nums_inp with
  | [] => Ok nums_out
  | tok :: rest =>
      ns ← expand_token tok ;
      interpolate_loop rest (nums_out ++ ns)
  end.

(** [interpolate_nums(nums_inp)] *)
Definition interpolate_nums (nums_inp : list string) : result (list Z) :=
  nums_out ← interpolate_loop nums_inp [] ;
  Ok (Py.sorted_set nums_out).

(** ** Records and filter specifications *)

(** An element of the [labels] list of a fetched record: a dict of which
    the program reads the key [name]. *)
Record label : Type := { name : string }.

(** A record as GitHub returns it, an element of [attrs_raw]. The three
    time stamps, which the preprocessing shifts to the configured time
    zone and which no filter reads, are left out. *)
Record fetched : Type := {
  raw_number : Z;
  raw_title : string;
  raw_body : string;
  raw_state : string;
  raw_labels : list label
}.

(** The record after the preprocessing of [collect_gh_attrs], which
    updates [attr_raw] in place: [labels] then holds the joined label
    names and the new key [label_names] their list. *)
Record attr : Type := {
  number : Z;
  title : string;
  body : string;
  state : string;
  labels : string;
  label_names : list string
}.

(** A YAML scalar of the [numbers] filter: an integer or a string such as
    ['5-10'] or ['all']. *)
Inductive scalar : Type :=
| SInt (z : Z)
| SStr (s : string).

(** [str(n)] *)
Definition str (v : scalar) : string :=
  match v with
  | SInt z => Py.str_of_int z
  | SStr s => s
  end.

(** [yml_arepo['filters']]; the key [state] goes to GitHub with the
    request and is not read by [collect_gh_attrs]. *)
Record filters : Type := {
  f_numbers : option (list scalar);
  f_labels : option (list string);
  f_strings : option (list string)
}.

(** The three filters that [collect_gh_attrs] evaluates itself. *)
Inductive predicate : Type := Numbers | Labels | Strings.

#[global] Instance predicate_eq_dec : EqDecision predicate.
Proof. solve_decision. Defined.

(** Preprocessing (2/2) of [collect_gh_attrs]: the label names, and the
    [labels] entry overwritten by their joined text. *)
Definition collect_label_names (r : fetched) : attr :=
  let names := map name (raw_labels r) in
  {| number := raw_number r; title := raw_title r; body := raw_body r;
     state := raw_state r; labels := Py.join ", " names;
     label_names := names |}.

(** ** The filters of [collect_gh_attrs] *)

(** Filter 2, the body of the [if]: returns the flag. *)
Definition numbers_body (nums : list scalar) (attr_raw : attr)
    (is_appendable : bool) : result bool :=
  let filter_numbers := map str nums in
  if negb (Py.contains_all_ci (Py.join ";" filter_numbers)) then
    filter_numbers ← interpolate_nums filter_numbers;
    Ok (bool_decide (number attr_raw ∈ filter_numbers))
  else Ok is_appendable.

(** Filter 3, the [for] loop: returns the flag and the label names the
    loop has looked at. *)
Fixpoint labels_loop (filter_labels : list string) (names : list string)
    (is_appendable : bool) : bool * list string :=
  match names with
  | [] => (is_appendable, [])
  | lab_name :: rest =>
      let lab_name_inverted := "-" +:+ lab_name in
      if bool_decide (lab_name_inverted ∈ filter_labels) then (false, [lab_name])
      else
        let flag := if bool_decide (lab_name ∈ filter_labels) then true
                    else is_appendable in
        let (b, seen) := labels_loop filter_labels rest flag in
        (b, lab_name :: seen)
  end.

(** Filter 3, the body of the [if]: returns the flag. *)
Definition labels_body (filter_labels : list string) (attr_raw : attr)
    : bool :=
  let is_appendable := Py.contains_all_ci (Py.join ";" filter_labels) in
  fst (labels_loop filter_labels (label_names attr_raw) is_appendable).

Section Filters.

(** [re_search p s]: [re.search(p, s)] finds a match, for a pattern [p]
    of the user. *)
Variable re_search : string → string → bool.

(** Filter 4, the [for] loop: returns the flag and the configured
    strings the loop has looked at. *)
Fixpoint strings_loop (filter_strings : list string) (attr_raw : attr)
    (is_appendable : bool) : bool * list string :=
  match filter_strings with
  | [] => (is_appendable, [])
  | s0 :: rest =>
      let is_exclusion := Py.starts_with_dash s0 in
      let s := if is_exclusion then Py.lstrip_dash s0 else s0 in
      if re_search s (title attr_raw) || re_search s (body attr_raw) then
        if is_exclusion then (false, [s0])
        else
          let (b, seen) := strings_loop rest attr_raw true in
          (b, s0 :: seen)
      else
        let (b, seen) := strings_loop rest attr_raw is_appendable in
        (b, s0 :: seen)
  end.

(** Filter 4, the body of the [if]: returns the flag. *)
Definition strings_body (filter_strings : list string) (attr_raw : attr)
    : bool :=
  let is_appendable := Py.contains_all_ci (Py.join ";" filter_strings) in
  fst (strings_loop filter_strings attr_raw is_appendable).

(** The three [if is_appendable and '...' in yml_arepo['filters']]
    statements. Each returns the flag and whether its body has run. *)
Definition numbers_filter (fs : filters) (attr_raw : attr)
    (is_appendable : bool) : result (bool * list predicate) :=
  match is_appendable, f_numbers fs with
  | true, Some nums =>
      b ← numbers_body nums attr_raw is_appendable; Ok (b, [Numbers])
  | _, _ => Ok (is_appendable, [])
  end.

Definition labels_filter (fs : filters) (attr_raw : attr)
    (is_appendable : bool) : bool * list predicate :=
  match is_appendable, f_labels fs with
  | true, Some filter_labels => (labels_body filter_labels attr_raw, [Labels])
  | _, _ => (is_appendable, [])
  end.

Definition strings_filter (fs : filters) (attr_raw : attr)
    (is_appendable : bool) : bool * list predicate :=
  match is_appendable, f_strings fs with
  | true, Some filter_strings =>
      (strings_body filter_strings attr_raw, [Strings])
  | _, _ => (is_appendable, [])
  end.

(** The filters of one record, from [is_appendable = True] to the final
    [if is_appendable]: the flag, and the predicates whose bodies ran. *)
Definition run_filters (fs : filters) (attr_raw : attr)
    : result (bool * list predicate) :=
  let is_appendable := true in
  '(is_appendable, ran2) ← numbers_filter fs attr_raw is_appendable;
  let '(is_appendable, ran3) := labels_filter fs attr_raw is_appendable in
  let '(is_appendable, ran4) := strings_filter fs attr_raw is_appendable in
  Ok (is_appendable, ran2 ++ ran3 ++ ran4).

(** The keep or drop decision for a preprocessed record;
    [None] stands for ['filters' not in yml_arepo]. *)
Definition should_keep (cfg : option filters) (attr_raw : attr)
    : result bool :=
  match cfg with
  | None => Ok true
  | Some fs => fst <$> run_filters fs attr_raw
  end.

(** The loop over [attrs_raw]: the records kept, in order. *)
Fixpoint collect_gh_attrs (cfg : option filters) (attrs_raw : list fetched)
    : result (list attr) :=
  match attrs_raw with
  | [] => Ok []
  | fetched_attr :: rest =>
      let attr_raw := collect_label_names fetched_attr in
      keep ← should_keep cfg attr_raw;
      attrs ← collect_gh_attrs cfg rest;
      Ok (if keep : bool then attr_raw :: attrs else attrs)
  end.

End Filters.

(** ** The counting loop and the summary record of [run_arepo] *)

(** [yml[arepo]['num_iss_all']], [...'num_iss_open'] and
    [...'num_iss_closed']. *)
Record counts : Type := {
  num_iss_all : Z;
  num_iss_open : Z;
  num_iss_closed : Z
}.

(** One round of [for gh_attr in yml[arepo]['gh_attrs']]. *)
Definition count_step (c : counts) (gh_attr : attr) : counts :=
  {| num_iss_all := num_iss_all c + 1;
     num_iss_open :=
       if Py.contains "open" (state gh_attr) then num_iss_open c + 1
       else num_iss_open c;
     num_iss_closed :=
       if Py.contains "closed" (state gh_attr) then num_iss_closed c + 1
       else num_iss_closed c |}.

(** The three counters, set to 0 and then taken through the loop. *)
Definition count_issues (gh_attrs : list attr) : counts :=
  fold_left count_step gh_attrs
    {| num_iss_all := 0; num_iss_open := 0; num_iss_closed := 0 |}.

(** A value of a record that goes to the CSV file. *)
Inductive value : Type :=
| VNone
| VInt (z : Z)
| VStr (s : string).

#[global] Instance value_eq_dec : EqDecision value.
Proof. solve_decision. Defined.

(** [datetime.today()] *)
Record datetime : Type := {
  year : nat; month : nat; day : nat;
  hour : nat; minute : nat; second : nat
}.

(** The decimal notation of a natural number. *)
Definition decimal (n : nat) : string := NilZero.string_of_uint (Nat.to_uint n).

(** [%m], [%d], [%H], [%M], [%S]: two digits. *)
Definition two_digits (n : nat) : string :=
  if (n <? 10)%nat then "0" +:+ decimal n else decimal n.

(** [strftime('%Y/%m/%d')] and [strftime('%H:%M:%S')]; [%Y] is the year
    in decimal notation (four digits from the year 1000 on). *)
Definition strftime_date (t : datetime) : string :=
  decimal (year t) +:+ "/" +:+ two_digits (month t) +:+ "/" +:+ two_digits (day t).

Definition strftime_time (t : datetime) : string :=
  two_digits (hour t) +:+ ":" +:+ two_digits (minute t) +:+ ":"
  +:+ two_digits (second t).

(** The dict that replaces [yml[arepo]['gh_attrs']] in a time series run. *)
Definition summary_record (today : datetime) (c : counts) : gmap string value :=
  <["date" := VStr (strftime_date today)]>
  (<["time" := VStr (strftime_time today)]>
  (<["num_iss_all" := VInt (num_iss_all c)]>
  (<["num_iss_open" := VInt (num_iss_open c)]>
  (<["num_iss_closed" := VInt (num_iss_closed c)]> ∅)))).

(** ** [write_to_csv] *)

(** The mode in which the destination is opened: ['w'] or ['a']. *)
Inductive file_mode : Type := ModeW | ModeA.

(** [out_cols]: the keys and the header, from the entries
    ['key; header'] of [yml_arepo['io']['out_cols']]. The key is
    [spl[0]]. *)
Definition out_col_attr (out_col : string) : string :=
  match Py.re_split Py.semicolon out_col with
  | a :: _ => a
  | [] => ""
  end.

(** [spl[1] if len(spl) >= 2 else spl[0]] *)
Definition out_col_header (out_col : string) : string :=
  match Py.re_split Py.semicolon out_col with
  | _ :: h :: _ => h
  | [a] => a
  | [] => ""
  end.

(** [idx]: for each key in which [re.search('date|time', s)] finds a
    match, its position; a key met again takes the later position. *)
Fixpoint build_idx_from (i : nat) (attrs : list string) (idx : gmap string nat)
    : gmap string nat :=
  match attrs with
  | [] => idx
  | s :: rest =>
      build_idx_from (S i) rest
        (if Py.contains "date" s || Py.contains "time" s then <[s := i]> idx
         else idx)
  end.

(** [idx] after [for i, s in enumerate(out_cols['attrs'])]. *)
Definition build_idx (attrs : list string) : gmap string nat :=
  build_idx_from 0 attrs ∅.

(** [last_row_lst[idx[key]]] if [key in idx], else the initial ['']. *)
Definition last_value (idx : gmap string nat) (last_row_lst : list string)
    (key : string) : result string :=
  match idx !! key with
  | Some i => of_option IndexError (last_row_lst !! i)
  | None => Ok ""
  end.

(** The [with open(...) as out_fh] block, on the lines that [readlines()]
    returns: [last_date] and [last_time]. *)
Definition recover_last (idx : gmap string nat) (lines : list string)
    : result (string * string) :=
  last_row ← of_option IndexError (last lines);
  let last_row_lst := Py.re_split Py.comma last_row in
  last_date ← last_value idx last_row_lst "date";
  last_time ← last_value idx last_row_lst "time";
  Ok (last_date, last_time).

(** [[gh_attr[out_col] for out_col in out_cols['attrs']]] *)
Fixpoint build_row (gh_attr : gmap string value) (attrs : list string)
    : result (list value) :=
  match attrs with
  | [] => Ok []
  | out_col :: rest =>
      v ← of_option (KeyError out_col) (gh_attr !! out_col);
      vs ← build_row gh_attr rest;
      Ok (v :: vs)
  end.

(** The truth value that Python gives a value. *)
Definition truthy (v : value) : bool :=
  match v with
  | VNone => false
  | VInt z => negb (z =? 0)
  | VStr s => negb (bool_decide (s = ""))
  end.

(** [last and row[idx[key]]], then [last == row[idx[key]]]: the pair
    ([is_date], [is_same_date]), or the one for the time. With an empty
    [last] the [and] does not look at [idx], which mode ['w'] leaves
    undefined. *)
Definition tracked_flags (idx : gmap string nat) (key : string) (last : string)
    (row : list value) : result (bool * bool) :=
  if bool_decide (last = "") then Ok (false, false)
  else
    i ← of_option (KeyError key) (idx !! key);
    v ← of_option IndexError (row !! i);
    if truthy v then Ok (true, bool_decide (VStr last = v))
    else Ok (false, false).

(** The [if]/[elif] chain that ends in [continue]: is the row skipped? *)
Definition skip_decision (is_date is_same_date is_time is_same_time : bool)
    : bool :=
  if is_date && is_time then is_same_date && is_same_time
  else if is_date && negb is_time then is_same_date
  else if is_time && negb is_date then is_same_time
  else false.

(** One round of [for gh_attr in yml_arepo['gh_attrs']]: the row that is
    written, or [None] when the round ends in [continue]. *)
Definition row_outcome (attrs : list string) (idx : gmap string nat)
    (last_date last_time : string) (gh_attr : gmap string value)
    : result (option (list value)) :=
  row ← build_row gh_attr attrs;
  '(is_date, is_same_date) ← tracked_flags idx "date" last_date row;
  '(is_time, is_same_time) ← tracked_flags idx "time" last_time row;
  Ok (if skip_decision is_date is_same_date is_time is_same_time then None
      else Some row).

(** The loop: the rows written, and the exception that ended it, if any. *)
Fixpoint write_rows (attrs : list string) (idx : gmap string nat)
    (last_date last_time : string) (gh_attrs : list (gmap string value))
    : list (list value) * option exn :=
  match gh_attrs with
  | [] => ([], None)
  | gh_attr :: rest =>
      match row_outcome attrs idx last_date last_time gh_attr with
      | Raise e => ([], Some e)
      | Ok o =>
          let (rows, err) := write_rows attrs idx last_date last_time rest in
          (match o with Some row => row :: rows | None => rows end, err)
      end
  end.

(** What a call has done to the destination: the mode it was opened in,
    the header row it wrote, the rows it wrote, and the exception that
    ended the loop over the records, if any. *)
Record written : Type := {
  mode : file_mode;
  header_row : option (list string);
  rows : list (list value);
  raised : option exn
}.

(** [existing]: the lines of the destination if it exists. The result
    [Raise e] is an exception before the destination is opened for
    writing. *)
Definition write_to_csv (out_cols : list string) (is_time_series : bool)
    (existing : option (list string)) (gh_attrs : list (gmap string value))
    : result written :=
  let attrs := map out_col_attr out_cols in
  let header := map out_col_header out_cols in
  '(f_mode, idx, last_date, last_time) ←
    match is_time_series, existing with
    | true, Some lines =>
        let idx := build_idx attrs in
        '(last_date, last_time) ← recover_last idx lines;
        Ok (ModeA, idx, last_date, last_time)
    | _, _ => Ok (ModeW, ∅, "", "")
    end;
  let (rows, err) := write_rows attrs idx last_date last_time gh_attrs in
  Ok {| mode := f_mode;
        header_row := match f_mode with ModeW => Some header | ModeA => None end;
        rows := rows;
        raised := err |}.

(** ** Further text primitives *)

Module Re.

Definition backslash : ascii := ascii_of_nat 92.
Definition slash : ascii := "/"%char.
Definition quote : string := String (ascii_of_nat 34) "".

(** [re.sub(r'\\', '/', s)]: every backslash becomes a slash. *)
Definition sub_backslash (s : string) : string :=
  Py.text (map (λ c, if Py.ascii_eqb c backslash then slash else c)
             (Py.chars s)).

(** [[0-9]] *)
Definition is_digit (c : ascii) : bool :=
  match Py.digit c with Some _ => true | None => false end.

(** [s.strip('<>')] *)
Definition is_angle (c : ascii) : bool :=
  Py.ascii_eqb c "<"%char || Py.ascii_eqb c ">"%char.

Definition strip_angles (s : string) : string :=
  Py.text (Py.strip_by is_angle (Py.chars s)).

(** [(?i)page=[0-9]] matches at the head of [cs]. *)
Definition page_at (cs : list ascii) : bool :=
  Py.starts_with (Py.chars "page=") (map Py.lower cs)
  && match drop 5 cs with
     | c :: _ => is_digit c
     | [] => false
     end.

(** The match of [(?i).*page=[0-9]+] in a line: the greedy [.*] gives the
    text back up to the last place where [page=] and a digit follow. The
    result is the text up to and including that [page=], and the text
    behind it. *)
Fixpoint last_page (cs : list ascii) : option (list ascii * list ascii) :=
  match cs with
  | [] => None
  | c :: cs' =>
      match last_page cs' with
      | Some (pre, post) => Some (c :: pre, post)
      | None => if page_at cs then Some (take 5 cs, drop 5 cs) else None
      end
  end.

(** The lines of a text, the pieces between its newlines ([.] matches
    no newline, so a match stays within a line), and the text of given
    lines. *)
Fixpoint lines_of (cs : list ascii) : list (list ascii) :=
  match cs with
  | [] => [[]]
  | c :: cs' =>
      if Py.ascii_eqb c Py.LF then [] :: lines_of cs'
      else match lines_of cs' with
           | l :: ls => (c :: l) :: ls
           | [] => [[c]]
           end
  end.

Fixpoint unlines (ls : list (list ascii)) : list ascii :=
  match ls with
  | [] => []
  | [l] => l
  | l :: ls' => l ++ Py.LF :: unlines ls'
  end.

(** [re.sub('(?i)(.*page=)[0-9]+', r'\1', s)]: in every line with a
    match, the digits behind the last [page=] go. *)
Definition sub_page_base (s : string) : string :=
  Py.text (unlines (map (λ l, match last_page l with
                              | Some (pre, post) =>
                                  pre ++ Py.drop_while is_digit post
                              | None => l
                              end) (lines_of (Py.chars s)))).

(** [re.sub('(?i).*page=([0-9]+)', r'\1', s)]: in every line with a
    match, the text up to and including the last [page=] goes. *)
Definition sub_page_num (s : string) : string :=
  Py.text (unlines (map (λ l, match last_page l with
                              | Some (pre, post) => post
                              | None => l
                              end) (lines_of (Py.chars s)))).

(** [symb * num] for a text [symb]. *)
Fixpoint repeat_text (symb : string) (n : nat) : string :=
  match n with
  | O => ""
  | S n' => symb +:+ repeat_text symb n'
  end.

Definition mul (symb : string) (num : Z) : string :=
  repeat_text symb (Z.to_nat num).

End Re.

(** ** [run_expandvars] *)

Section Expandvars.

(** [os.path.expandvars], which reads the environment of the process. *)
Variable expandvars : string → string.

(** [run_expandvars(s, is_unix_path_delim)] *)
Definition run_expandvars (s : string) (is_unix_path_delim : bool) : string :=
  let s_expanded := expandvars s in
  if is_unix_path_delim then Re.sub_backslash s_expanded else s_expanded.

End Expandvars.

(** ** The inheritance of [io] in [run_arepo] *)

(** The body of [for k1 in ['io']], on the dict [yml['run']['io']] and
    the dict [yml[arepo]['io']], each [None] when the key is missing:
    the dict that [yml[arepo]['io']] is afterwards. Both branches read
    [yml['run']['io']] first. The values are of any type [V]. *)
Definition inherit_io {V : Type} (run_io arepo_io : option (gmap string V))
    : result (gmap string V) :=
  run_io ← of_option (KeyError "io") run_io;
  let arepo_io := match arepo_io with
                  | Some io => io
                  | None => run_io
                  end in
  Ok (map_fold (λ k2 v io, match io !! k2 with
                           | Some _ => io
                           | None => <[k2 := v]> io
                           end) arepo_io run_io).

(** ** Requests, standard output and a forced stop *)

(** A scalar of the YAML file: null, a truth value, an integer or a
    text. *)
Inductive yaml : Type :=
| YNull
| YBool (b : bool)
| YInt (z : Z)
| YStr (s : string).

#[global] Instance yaml_eq_dec : EqDecision yaml.
Proof. solve_decision. Defined.

(** The truth value that Python gives a scalar. *)
Definition yaml_truthy (v : yaml) : bool :=
  match v with
  | YNull => false
  | YBool b => b
  | YInt z => negb (z =? 0)
  | YStr s => negb (bool_decide (s = ""))
  end.

(** [str(v)], as [format] puts a scalar into a text. *)
Definition yaml_str (v : yaml) : string :=
  match v with
  | YNull => "None"
  | YBool true => "True"
  | YBool false => "False"
  | YInt z => Py.str_of_int z
  | YStr s => s
  end.

(** [yml[arepo]['filters']]: the key [state], and the three keys that
    [collect_gh_attrs] reads. *)
Record filter_dict : Type := {
  state_key : option yaml;
  predicates : filters
}.

(** The entries of [yml[arepo]] that [collect_gh_attrs_wrapper] and the
    fetching part of [run_arepo] read and write; a key that may be
    missing is an option. [url] and [gh_attrs] are set by [run_arepo]
    before the wrapper is called. [gh_attrs] holds the records fetched so
    far, [num_iss] the three counters [num_iss_all], [num_iss_open] and
    [num_iss_closed], which are set together. *)
Record repo_dict : Type := {
  is_repo_private : option yaml;
  token : option yaml;
  is_time_series : option yaml;
  url : string;
  repo_filters : option filter_dict;
  gh_attrs : list attr;
  num_iss : option counts
}.

(** What [requests.get] is called with: the URL, the header
    [Authorization] and the parameter [state], the two if set. *)
Record request : Type := {
  req_url : string;
  req_authorization : option string;
  req_state : option yaml
}.

(** What the program reads of a response: [r.ok], [r.headers['Link']]
    if the header is there, and [r.json()]. *)
Record response : Type := {
  ok : bool;
  link : option string;
  json : list fetched
}.

(** How a run ends before its end: [sys.exit()], or an exception that
    nothing catches. *)
Inductive halt : Type :=
| SystemExit
| Uncaught (e : exn).

Inductive outcome (A : Type) : Type :=
| Done (a : A)
| Halted (h : halt).
Arguments Done {A} a.
Arguments Halted {A} h.

(** The state that the modelled code works on: the dict [yml[arepo]],
    the requests sent and the lines printed so far. *)
Record world : Type := {
  yml_arepo : repo_dict;
  sent : list request;
  printed : list string
}.

(** A piece of program: from a state to its outcome and the state it
    leaves. *)
Definition prog (A : Type) : Type := world → outcome A * world.

#[global] Instance prog_ret : MRet prog := λ A a w, (Done a, w).
#[global] Instance prog_bind : MBind prog := λ A B k m w,
  match m w with
  | (Done a, w') => k a w'
  | (Halted h, w') => (Halted h, w')
  end.

Definition get_world : prog world := λ w, (Done w, w).

Definition set_yml_arepo (d : repo_dict) : prog unit := λ w,
  (Done tt, {| yml_arepo := d; sent := sent w; printed := printed w |}).

(** [print(line)] *)
Definition print (line : string) : prog unit := λ w,
  (Done tt, {| yml_arepo := yml_arepo w; sent := sent w;
               printed := printed w ++ [line] |}).

(** [sys.exit()] *)
Definition sys_exit {A : Type} : prog A := λ w, (Halted SystemExit, w).

(** An exception of the modelled code, or its value. *)
Definition lift {A : Type} (r : result A) : prog A := λ w,
  match r with
  | Ok a => (Done a, w)
  | Raise e => (Halted (Uncaught e), w)
  end.

(** [for line in notif: print(line)] *)
Fixpoint print_lines (notif : list string) : prog unit :=
  match notif with
  | [] => mret tt
  | line :: rest => _ ← print line; print_lines rest
  end.

(** [warn_to_stdout(notif, border_symb, border_num, is_border, is_exit)] *)
Definition warn_to_stdout (notif : list string) (border_symb : string)
    (border_num : Z) (is_border is_exit : bool) : prog unit :=
  let border := Re.mul border_symb border_num in
  _ ← (if is_border then print border else mret tt);
  _ ← print_lines notif;
  _ ← (if is_border then print border else mret tt);
  if is_exit then _ ← print "Terminating."; sys_exit else mret tt.

(** [a, b = l]: the list must have two elements. *)
Definition unpack2 {A : Type} (l : list A) : result (A * A) :=
  match l with
  | [a; b] => Ok (a, b)
  | _ => Raise ValueError
  end.

Section Wrapper.

(** [respond before rq]: the response of GitHub to the request [rq],
    sent after the requests [before]. *)
Variable respond : list request → request → response.

(** The search of [re] for a pattern of the user, as in the filters. *)
Variable re_search : string → string → bool.

(** [requests.get(url, headers=headers, params=params)] *)
Definition requests_get (rq : request) : prog response := λ w,
  (Done (respond (sent w) rq),
   {| yml_arepo := yml_arepo w; sent := sent w ++ [rq]; printed := printed w |}).

(** [yml[arepo]['gh_attrs'] += collect_gh_attrs(yml_arepo, records)] *)
Definition collect_into_gh_attrs (records : list fetched) : prog unit :=
  w ← get_world;
  let d := yml_arepo w in
  attrs ← lift (collect_gh_attrs re_search (predicates <$> repo_filters d)
                  records);
  set_yml_arepo {| is_repo_private := is_repo_private d; token := token d;
                   is_time_series := is_time_series d; url := url d;
                   repo_filters := repo_filters d;
                   gh_attrs := gh_attrs d ++ attrs;
                   num_iss := num_iss d |}.

(** [for page in r_range] *)
Fixpoint fetch_pages (page_base : string) (authorization : option string)
    (state : option yaml) (r_range : list Z) : prog unit :=
  match r_range with
  | [] => mret tt
  | page :: rest =>
      let page_url := page_base +:+ Py.str_of_int page in
      r ← requests_get {| req_url := page_url;
                          req_authorization := authorization;
                          req_state := state |};
      _ ← collect_into_gh_attrs (json r);
      fetch_pages page_base authorization state rest
  end.

(** The two notifications of the token validation and the one of a
    failed access, without their first line. *)
Definition notif_no_token : list string :=
  ["- is_repo_private == True found without the " +:+ Re.quote +:+ "token"
   +:+ Re.quote +:+ " key.";
   "- Create the " +:+ Re.quote +:+ "token" +:+ Re.quote
   +:+ " key and provide it with a valid token."].

Definition notif_empty_token : list string :=
  ["- is_repo_private == True found but the " +:+ Re.quote +:+ "token"
   +:+ Re.quote +:+ " is empty.";
   "- Provide the " +:+ Re.quote +:+ "token" +:+ Re.quote
   +:+ " key with a valid token."].

Definition notif_access_failed (arepo url : string) : list string :=
  ["repo: [" +:+ arepo +:+ "]";
   "Access to [" +:+ url +:+ "] failed.";
   "Check the following items:";
   "- owner";
   "- repo";
   "- token (if is_repo_private == True)"].

(** The token handling for a private repo: the value of
    [headers['Authorization']], if the header is set. *)
Definition token_header (arepo : string) (d : repo_dict)
    : prog (option string) :=
  private ← lift (of_option (KeyError "is_repo_private") (is_repo_private d));
  if yaml_truthy private then
    let token_err :=
      match token d with
      | None => Some notif_no_token
      | Some t => if negb (yaml_truthy t) then Some notif_empty_token else None
      end in
    _ ← match token_err with
        | Some notif =>
            warn_to_stdout (("repo: [" +:+ arepo +:+ "]") :: notif)
              "-" 59 true true
        | None => mret tt
        end;
    t ← lift (of_option (KeyError "token") (token d));
    mret (Some ("token " +:+ yaml_str t))
  else mret None.

(** [collect_gh_attrs_wrapper(yml, arepo)] *)
Definition collect_gh_attrs_wrapper (arepo : string) : prog unit :=
  w ← get_world;
  let d := yml_arepo w in
  authorization ← token_header arepo d;
  let state := fd ← repo_filters d; state_key fd in
  r0 ← requests_get {| req_url := url d; req_authorization := authorization;
                       req_state := state |};
  if negb (ok r0) then
    _ ← warn_to_stdout (notif_access_failed arepo (url d)) "-" 59 true true;
    sys_exit
  else
    match link r0 with
    | Some l =>
        '(next, last) ← lift (unpack2 (Py.re_split Py.comma l));
        '(last_url, last_rel) ← lift (unpack2 (Py.re_split Py.semicolon last));
        let last_url := Re.strip_angles last_url in
        let page_base := Re.sub_page_base last_url in
        last_page_num ← lift (Py.int (Re.sub_page_num last_url));
        let r_range := Py.range 1 (last_page_num + 1) in
        fetch_pages page_base authorization state r_range
    | None => collect_into_gh_attrs (json r0)
    end.

End Wrapper.

Section Fetching.

Variable respond : list request → request → response.
Variable re_search : string → string → bool.

(** The initialisation of a pass of [run_arepo] over a repo: [filters]
    and [gh_attrs], and the flag [is_time_series]. *)
Definition init_arepo : prog bool :=
  w ← get_world;
  let d := yml_arepo w in
  _ ← set_yml_arepo
        {| is_repo_private := is_repo_private d; token := token d;
           is_time_series := is_time_series d; url := url d;
           repo_filters :=
             Some (match repo_filters d with
                   | Some fd => fd
                   | None => {| state_key := None;
                                predicates := {| f_numbers := None;
                                                 f_labels := None;
                                                 f_strings := None |} |}
                   end);
           gh_attrs := [];
           num_iss := num_iss d |};
  mret (match is_time_series d with
        | Some v => yaml_truthy v
        | None => false
        end).

(** [yml[arepo]['filters']['state'] = 'closed'] *)
Definition set_state_closed : prog unit :=
  w ← get_world;
  let d := yml_arepo w in
  fd ← lift (of_option (KeyError "filters") (repo_filters d));
  set_yml_arepo
    {| is_repo_private := is_repo_private d; token := token d;
       is_time_series := is_time_series d; url := url d;
       repo_filters := Some {| state_key := Some (YStr "closed");
                               predicates := predicates fd |};
       gh_attrs := gh_attrs d;
       num_iss := num_iss d |}.

(** The counting loop, with the three counters kept in [yml[arepo]]. *)
Definition count_into_num_iss : prog counts :=
  w ← get_world;
  let d := yml_arepo w in
  let c := count_issues (gh_attrs d) in
  _ ← set_yml_arepo
        {| is_repo_private := is_repo_private d; token := token d;
           is_time_series := is_time_series d; url := url d;
           repo_filters := repo_filters d;
           gh_attrs := gh_attrs d;
           num_iss := Some c |};
  mret c.

(** The fetching part of a pass of [run_arepo] over a repo, from the
    first call of the wrapper to the call of [write_to_csv]; [today] is
    what [datetime.today()] returns. The result is the list that
    [yml[arepo]['gh_attrs']] holds when [write_to_csv] is called: the
    records fetched, or the one summary dict of a time series, which
    replaces them. (The state keeps the records fetched; the next pass
    begins by emptying [gh_attrs].) *)
Definition fetch_arepo (arepo : string) (is_time_series : bool)
    (today : datetime) : prog (list attr + list (gmap string value)) :=
  _ ← collect_gh_attrs_wrapper respond re_search arepo;
  if is_time_series then
    _ ← set_state_closed;
    _ ← collect_gh_attrs_wrapper respond re_search arepo;
    c ← count_into_num_iss;
    mret (inr [summary_record today c])
  else
    w ← get_world;
    mret (inl (gh_attrs (yml_arepo w))).

End Fetching.

(** ** The text of the destination *)

Module Csv.

Definition CR : ascii := ascii_of_nat 13.
Definition quotechar : ascii := ascii_of_nat 34.

(** [str(v)] of a value, and the empty text for [None]. *)
Definition field (v : value) : list ascii :=
  match v with
  | VNone => []
  | VInt z => Py.chars (Py.str_of_int z)
  | VStr s => Py.chars s
  end.

(** [QUOTE_MINIMAL]: a field is quoted when it has the delimiter, the
    quote character or a character of the line terminator in it. *)
Definition special (c : ascii) : bool :=
  Py.ascii_eqb c Py.comma || Py.ascii_eqb c quotechar
  || Py.ascii_eqb c CR || Py.ascii_eqb c Py.LF.

(** A quoted field: between quote characters, its own ones doubled. *)
Fixpoint doubled (cs : list ascii) : list ascii :=
  match cs with
  | [] => []
  | c :: cs' =>
      if Py.ascii_eqb c quotechar then quotechar :: quotechar :: doubled cs'
      else c :: doubled cs'
  end.

Definition format (cs : list ascii) : list ascii :=
  if existsb special cs then quotechar :: doubled cs ++ [quotechar] else cs.

Fixpoint joined (fields : list (list ascii)) : list ascii :=
  match fields with
  | [] => []
  | [f] => f
  | f :: rest => f ++ Py.comma :: joined rest
  end.

(** [writer.writerow(row)]: the fields, the delimiter between them, and
    the line terminator; a row of one empty field is written as two
    quote characters. *)
Definition writerow (row : list value) : list ascii :=
  match map field row with
  | [[]] => [quotechar; quotechar]
  | fields => joined (map format fields)
  end ++ [CR; Py.LF].

End Csv.

(** What a reader in text mode makes of the line ends: a carriage
    return, with or without a line feed behind it, is read as a newline.
    [after_cr]: the character before was a carriage return. *)
Fixpoint universal_newlines (after_cr : bool) (cs : list ascii) : list ascii :=
  match cs with
  | [] => []
  | c :: cs' =>
      if Py.ascii_eqb c Csv.CR then Py.LF :: universal_newlines true cs'
      else if Py.ascii_eqb c Py.LF then
        if after_cr then universal_newlines false cs'
        else Py.LF :: universal_newlines false cs'
      else c :: universal_newlines false cs'
  end.

(** The lines of a text, each with its newline; [cur] is the line read
    so far, reversed. *)
Fixpoint keepends (cur : list ascii) (cs : list ascii) : list (list ascii) :=
  match cs with
  | [] => match cur with [] => [] | _ => [rev cur] end
  | c :: cs' =>
      if Py.ascii_eqb c Py.LF then rev (c :: cur) :: keepends [] cs'
      else keepends (c :: cur) cs'
  end.

(** [open(fname).readlines()] on the text of the file. *)
Definition readlines (content : string) : list string :=
  map Py.text (keepends [] (universal_newlines false (Py.chars content))).

(** The text of the destination after a call of [write_to_csv] that has
    opened it: in mode ['w'] the header and the rows, in mode ['a'] the
    text it had and the rows behind it. *)
Definition text_written (out : written) : list ascii :=
  match header_row out with
  | Some header => Csv.writerow (map VStr header)
  | None => []
  end ++ concat (map Csv.writerow (rows out)).

Definition file_after (content : option string) (out : written) : string :=
  match mode out with
  | ModeW => Py.text (text_written out)
  | ModeA => default "" content +:+ Py.text (text_written out)
  end.

(** [write_to_csv] on the text of the destination, [None] if there is no
    such file: what it has done, and the text of the destination
    afterwards. *)
Definition export (out_cols : list string) (is_time_series : bool)
    (content : option string) (gh_attrs : list (gmap string value))
    : result (written * string) :=
  out ← write_to_csv out_cols is_time_series (readlines <$> content) gh_attrs;
  Ok (out, file_after content out).

(** * Notions used in the statements *)

(** What a token adds, read off the two branches of the loop body. *)
Inductive token_adds (tok : string) (z : Z) : Prop :=
| adds_range (b e : string) (beg end_ : Z) :
    Py.has_dash tok = true →
    Py.re_split Py.dash tok = [b; e] →
    Py.int b = Ok beg → Py.int e = Ok end_ →
    beg ≤ z ≤ end_ →
    token_adds tok z
| adds_single :
    Py.has_dash tok = false →
    Py.int tok = Ok z →
    token_adds tok z.

(** The tokens that the loop body accepts. *)
Definition token_ok (tok : string) : Prop :=
  if Py.has_dash tok then
    ∃ b e beg end_, Py.re_split Py.dash tok = [b; e]
                    ∧ Py.int b = Ok beg ∧ Py.int e = Ok end_
  else ∃ z, Py.int tok = Ok z.

(** White space in the sense of [\s]. *)
Definition blank (ws : string) : Prop :=
  Forall (λ c, Py.is_space c = true) (Py.chars ws).

(** The token [<b>-<e>] of two natural numbers in decimal notation, with
    white space [ws1] and [ws2] around the dash. *)
Definition range_token (b : nat) (ws1 ws2 : string) (e : nat) : string :=
  decimal b +:+ ws1 +:+ "-" +:+ ws2 +:+ decimal e.

(** The number set parser as the specification words it: a token
    [<int> - <int>] is a range, every other token a single integer.
    [range_form_at] looks for a dash with an integer on either side
    ([int] drops the white space around them). *)
Fixpoint range_form_at (before after : list ascii) : option (Z * Z) :=
  match after with
  | [] => None
  | c :: after' =>
      if Py.ascii_eqb c Py.dash then
        match Py.int_opt (Py.text (rev before)), Py.int_opt (Py.text after') with
        | Some b, Some e => Some (b, e)
        | _, _ => range_form_at (c :: before) after'
        end
      else range_form_at (c :: before) after'
  end.

(** A token as the specification reads it. *)
Definition expand_token_as_specified (tok : string) : result (list Z) :=
  match range_form_at [] (Py.chars tok) with
  | Some (beg, end_) => Ok (Py.range beg (end_ + 1))
  | None => n ← Py.int tok; Ok [n]
  end.

(** The numbers of all the tokens, then the set of them in ascending
    order. *)
Fixpoint parse_loop_as_specified (tokens : list string) : result (list Z) :=
  match tokens with
  | [] => Ok []
  | tok :: rest =>
      ns ← expand_token_as_specified tok;
      out ← parse_loop_as_specified rest;
      Ok (ns ++ out)
  end.

Definition parse_as_specified (tokens : list string) : result (list Z) :=
  Py.sorted_set <$> parse_loop_as_specified tokens.

(** The predicates that a filter specification enables, in the order of
    the three [if] statements. *)
Definition enabled (fs : filters) : list predicate :=
  match f_numbers fs with Some _ => [Numbers] | None => [] end
  ++ match f_labels fs with Some _ => [Labels] | None => [] end
  ++ match f_strings fs with Some _ => [Strings] | None => [] end.

(** What the body of an enabled predicate makes of the flag. *)
Definition verdict (re_search : string → string → bool) (fs : filters)
    (attr_raw : attr) (p : predicate) : result bool :=
  match p with
  | Numbers =>
      match f_numbers fs with
      | Some nums => numbers_body nums attr_raw true
      | None => Ok true
      end
  | Labels =>
      match f_labels fs with
      | Some filter_labels => Ok (labels_body filter_labels attr_raw)
      | None => Ok true
      end
  | Strings =>
      match f_strings fs with
      | Some filter_strings => Ok (strings_body re_search filter_strings attr_raw)
      | None => Ok true
      end
  end.

(** The predicates run one after the other for as long as each leaves
    the flag true. *)
Fixpoint gated (verdict : predicate → result bool) (ps : list predicate)
    : result (bool * list predicate) :=
  match ps with
  | [] => Ok (true, [])
  | p :: ps' =>
      b ← verdict p;
      if b : bool then '(b', ran) ← gated verdict ps'; Ok (b', p :: ran)
      else Ok (false, [p])
  end.

(** The filters as the specification words them: every enabled predicate
    runs, in the fixed order, whatever the flag is by then. *)
Definition run_filters_as_specified (re_search : string → string → bool)
    (fs : filters) (attr_raw : attr) : result (bool * list predicate) :=
  let is_appendable := true in
  '(is_appendable, ran2) ←
    match f_numbers fs with
    | Some nums =>
        b ← numbers_body nums attr_raw is_appendable; Ok (b, [Numbers])
    | None => Ok (is_appendable, [])
    end;
  let '(is_appendable, ran3) :=
    match f_labels fs with
    | Some filter_labels => (labels_body filter_labels attr_raw, [Labels])
    | None => (is_appendable, [])
    end in
  let '(is_appendable, ran4) :=
    match f_strings fs with
    | Some filter_strings =>
        (strings_body re_search filter_strings attr_raw, [Strings])
    | None => (is_appendable, [])
    end in
  Ok (is_appendable, ran2 ++ ran3 ++ ran4).

(** An open issue with the given number, label names, title and body,
    preprocessed. *)
Definition issue (n : Z) (names : list string) (t b : string) : attr :=
  collect_label_names
    {| raw_number := n; raw_title := t; raw_body := b; raw_state := "open";
       raw_labels := map (λ s, {| name := s |}) names |}.

(** The text that a configured string is searched with, and whether the
    search finds it in the title or the body. *)
Definition search_text (s0 : string) : string :=
  if Py.starts_with_dash s0 then Py.lstrip_dash s0 else s0.

(** The search for the configured string [s0] succeeds in the title or
    in the body. *)
Definition hits (re_search : string → string → bool) (s0 : string)
    (attr_raw : attr) : bool :=
  re_search (search_text s0) (title attr_raw)
  || re_search (search_text s0) (body attr_raw).

(** [s0] is an exclusion entry that is found in the record. *)
Definition excludes (re_search : string → string → bool) (attr_raw : attr)
    (s0 : string) : Prop :=
  Py.starts_with_dash s0 = true ∧ hits re_search s0 attr_raw = true.

#[global] Instance excludes_dec re_search attr_raw s0 :
  Decision (excludes re_search attr_raw s0).
Proof. unfold excludes. apply _. Defined.

(** [p] is a piece of [s]. *)
Definition substring (p s : string) : Prop := ∃ l r, s = l +:+ p +:+ r.

(** The last position of [key] in [attrs]. *)
Fixpoint last_index (key : string) (attrs : list string) : option nat :=
  match attrs with
  | [] => None
  | s :: rest =>
      match last_index key rest with
      | Some j => Some (S j)
      | None => if decide (s = key) then Some 0%nat else None
      end
  end.

(** The keys that [re.search('date|time', s)] accepts. *)
Definition indexed (s : string) : bool :=
  Py.contains "date" s || Py.contains "time" s.

(** A column is tracked for a row when a last value was recovered for it
    and the row has a value for it that Python takes for true. *)
Definition is_tracked (last : string) (cell : option value) : bool :=
  negb (bool_decide (last = ""))
  && match cell with Some v => truthy v | None => false end.

(** The record's value is the last value. *)
Definition is_same (last : string) (cell : option value) : bool :=
  bool_decide (cell = Some (VStr last)).

(** The cases of the specification, on the record's fields [date] and
    [time] and the last persisted values. *)
Definition skipped_as_specified (last_date last_time : string)
    (gh_attr : gmap string value) : bool :=
  match is_tracked last_date (gh_attr !! "date"),
        is_tracked last_time (gh_attr !! "time") with
  | true, true =>
      is_same last_date (gh_attr !! "date") && is_same last_time (gh_attr !! "time")
  | true, false => is_same last_date (gh_attr !! "date")
  | false, true => is_same last_time (gh_attr !! "time")
  | false, false => false
  end.

(** [idx] gives the position of the column of a recovered value. *)
Definition positioned (attrs : list string) (idx : gmap string nat)
    (key last : string) : Prop :=
  last ≠ "" → ∃ i, idx !! key = Some i ∧ attrs !! i = Some key.

(** The field of the last line at a position, [''] without a position. *)
Definition field_at (pos : option nat) (fields : list string) : result string :=
  match pos with
  | Some i => of_option IndexError (fields !! i)
  | None => Ok ""
  end.

(** The recovery as the specification words it: the tracked date column
    is the one whose key has [date] in it, whatever the case of its
    letters, and likewise for the time. *)
Definition contains_ci (p s : string) : bool :=
  Py.occurs (Py.chars p) (map Py.lower (Py.chars s)).

(** The last position of a key that satisfies [P]. *)
Fixpoint last_index_where (P : string → bool) (attrs : list string)
    : option nat :=
  match attrs with
  | [] => None
  | s :: rest =>
      match last_index_where P rest with
      | Some j => Some (S j)
      | None => if P s then Some 0%nat else None
      end
  end.

(** [last_date] and [last_time] as the specification recovers them. *)
Definition recover_last_as_specified (attrs : list string) (lines : list string)
    : result (string * string) :=
  last_row ← of_option IndexError (last lines);
  let fields := Py.re_split Py.comma last_row in
  last_date ← field_at (last_index_where (contains_ci "date") attrs) fields;
  last_time ← field_at (last_index_where (contains_ci "time") attrs) fields;
  Ok (last_date, last_time).

(** A line as [readlines()] returns it: the text and the newline. *)
Definition with_newline (s : string) : string := s +:+ String Py.LF "".

(** A record with a date and a count, for the examples. *)
Definition summary_row (date : string) (n : Z) : gmap string value :=
  <["date" := VStr date]> (<["num_iss_all" := VInt n]> ∅).

(** A text without a newline in it. *)
Definition no_newline (s : string) : Prop := Py.LF ∉ Py.chars s.

(** A decidable proposition about given data is settled by evaluating
    its decision procedure. *)
Ltac by_computation :=
  match goal with
  | |- ?P => apply (bool_decide_unpack P); vm_compute; exact I
  end.

(** The strings filter: [s0] is an entry without the dash that is found
    in the record. *)
Definition includes (re_search : string → string → bool) (attr_raw : attr)
    (s0 : string) : Prop :=
  Py.starts_with_dash s0 = false ∧ hits re_search s0 attr_raw = true.

(** Exceptions and outcomes can be compared. *)
#[global] Instance exn_eq_dec : EqDecision exn.
Proof. solve_decision. Defined.

#[global] Instance result_eq_dec `{EqDecision A} : EqDecision (result A).
Proof. solve_decision. Defined.

(** The numbers entries that make the numbers filter raise: none has
    [all] in it and one is not read by [interpolate_nums]. *)
Definition unreadable_numbers (cfg : option filters) : Prop :=
  ∃ fs nums, cfg = Some fs ∧ f_numbers fs = Some nums
    ∧ Py.contains_all_ci (Py.join ";" (map str nums)) = false
    ∧ ¬ Forall token_ok (map str nums).

(** [s.lstrip()], [s.rstrip()] and [s.strip()] on the characters, for the
    white space of [\s]. *)
Definition lstrip (cs : list ascii) : list ascii := Py.drop_while Py.is_space cs.
Definition rstrip (cs : list ascii) : list ascii := rev (lstrip (rev cs)).
Definition strip (cs : list ascii) : list ascii := rstrip (lstrip cs).

(** The state of the scan after the characters [cs], none of them the
    separator. *)
Definition feed (st : Py.split_state) (cs : list ascii) : Py.split_state :=
  fold_left (λ st c, Py.push c st) cs st.

(** The field read so far ends in no white space, and the pending white
    space is white space. *)
Definition tidy (st : Py.split_state) : Prop :=
  match st with
  | Py.AfterSep => True
  | Py.InField cur ws =>
      Forall (λ c, Py.is_space c = true) ws
      ∧ match cur with [] => True | c :: _ => Py.is_space c = false end
  end.

(** The value of a digit, evaluated. *)
Ltac digit_value :=
  match goal with
  | |- context [nat_of_ascii ?c] =>
      let n := eval vm_compute in (nat_of_ascii c) in
      change (nat_of_ascii c) with n
  end.

(** A text as a URL has it: no white space, comma, semicolon or angle
    bracket. *)
Definition plain (s : string) : Prop :=
  Forall (λ c, Py.is_space c = false ∧ c ≠ Py.comma ∧ c ≠ Py.semicolon
               ∧ Re.is_angle c = false) (Py.chars s).

(** An entry of a [Link] header, and the header that GitHub sends with
    the first page of several: the next page and the last one. *)
Definition link_entry (u rel : string) : string :=
  "<" +:+ u +:+ ">; rel=" +:+ Re.quote +:+ rel +:+ Re.quote.

Definition link_header (next_url last_url : string) : string :=
  link_entry next_url "next" +:+ ", " +:+ link_entry last_url "last".

(** The URL of a page. *)
Definition page_url (base : string) (page : Z) : string :=
  base +:+ "page=" +:+ Py.str_of_int page.

(** The header and the parameter that the wrapper puts on its requests. *)
Definition authorization_of (d : repo_dict) : option string :=
  match is_repo_private d with
  | Some p =>
      if yaml_truthy p then
        match token d with
        | Some t => Some ("token " +:+ yaml_str t)
        | None => None
        end
      else None
  | None => None
  end.

Definition state_of (d : repo_dict) : option yaml :=
  fd ← repo_filters d; state_key fd.

Definition request_to (d : repo_dict) (u : string) : request :=
  {| req_url := u; req_authorization := authorization_of d;
     req_state := state_of d |}.

(** The repo is public, or private with a token. *)
Definition has_access (d : repo_dict) : Prop :=
  ∃ p, is_repo_private d = Some p
    ∧ (yaml_truthy p = true → ∃ t, token d = Some t ∧ yaml_truthy t = true).

(** [yml[arepo]] with other fetched records. *)
Definition with_gh_attrs (d : repo_dict) (attrs : list attr) : repo_dict :=
  {| is_repo_private := is_repo_private d; token := token d;
     is_time_series := is_time_series d; url := url d;
     repo_filters := repo_filters d; gh_attrs := attrs;
     num_iss := num_iss d |}.

(** The records that the pages answering the requests [rqs] add, the
    requests [before] sent before them. *)
Fixpoint pages_collected (respond : list request → request → response)
    (re_search : string → string → bool) (cfg : option filters)
    (before rqs : list request) : result (list attr) :=
  match rqs with
  | [] => Ok []
  | rq :: rest =>
      attrs ← collect_gh_attrs re_search cfg (json (respond before rq));
      more ← pages_collected respond re_search cfg (before ++ [rq]) rest;
      Ok (attrs ++ more)
  end.

(** The state after more records, requests and printed lines. *)
Definition extended (w : world) (attrs : list attr) (rqs : list request)
    (lines : list string) : world :=
  {| yml_arepo := with_gh_attrs (yml_arepo w) (gh_attrs (yml_arepo w) ++ attrs);
     sent := sent w ++ rqs;
     printed := printed w ++ lines |}.

(** The lines that [warn_to_stdout(notif, is_exit=True)] prints. *)
Definition warning (notif : list string) : list string :=
  [Re.mul "-" 59] ++ notif ++ [Re.mul "-" 59; "Terminating."].

(** The first request of the wrapper. *)
Definition first_request (w : world) : request :=
  request_to (yml_arepo w) (url (yml_arepo w)).

(** The requests carry the header and the parameter of [d]. *)
Definition sent_for (d : repo_dict) (rqs : list request) : Prop :=
  Forall (λ rq, req_authorization rq = authorization_of d
                ∧ req_state rq = state_of d) rqs.

(** A public repo of which a time series is kept, and the state before
    its first request, for the examples. *)
Definition public_repo : repo_dict :=
  {| is_repo_private := Some (YBool false); token := None;
     is_time_series := Some (YBool true);
     url := "https://api.github.com/repos/o/r/issues";
     repo_filters := Some {| state_key := None;
                             predicates := {| f_numbers := None;
                                              f_labels := None;
                                              f_strings := None |} |};
     gh_attrs := []; num_iss := None |}.

Definition fresh (d : repo_dict) : world :=
  {| yml_arepo := d; sent := []; printed := [] |}.

(** A record as GitHub returns it, without labels. *)
Definition fetched_issue (n : Z) (st : string) : fetched :=
  {| raw_number := n; raw_title := "t"; raw_body := ""; raw_state := st;
     raw_labels := [] |}.

(** A GitHub that answers with one page: two open issues, or the one
    closed issue when closed issues are asked for. *)
Definition one_page (before : list request) (rq : request) : response :=
  {| ok := true; link := None;
     json := if bool_decide (req_state rq = Some (YStr "closed"))
             then [fetched_issue 2 "closed"]
             else [fetched_issue 1 "open"; fetched_issue 3 "open"] |}.

(** A GitHub that answers with two pages of one issue each. *)
Definition pages_base : string :=
  "https://api.github.com/repositories/1/issues?".

Definition two_pages (before : list request) (rq : request) : response :=
  {| ok := true;
     link := if bool_decide (req_url rq = url public_repo)
             then Some (link_header (page_url pages_base 2)
                          (page_url pages_base 2))
             else None;
     json := if bool_decide (req_url rq = page_url pages_base 2)
             then [fetched_issue 3 "open"]
             else [fetched_issue 1 "open"] |}.

(** A GitHub that refuses. *)
Definition refusing (before : list request) (rq : request) : response :=
  {| ok := false; link := None; json := [] |}.

(** A field that [csv.writer] writes as it is and that the split of its
    line gives back as it is: not empty, and without a comma, a quote
    character, a line end or white space in it. *)
Definition bare (cs : list ascii) : Prop :=
  cs ≠ [] ∧ Forall (λ c, Csv.special c = false ∧ Py.is_space c = false) cs.

(** The fields of a row with the newline of the line behind the last. *)
Fixpoint close_last (fields : list (list ascii)) : list (list ascii) :=
  match fields with
  | [] => []
  | [f] => [f ++ [Py.LF]]
  | f :: rest => f :: close_last rest
  end.

(** What the recovery reads of a row for the column [key]: nothing
    without such a column, else the text of the value at the last
    position of the key, with the newline of the line behind it when
    that is the last column. *)
Definition read_back (attrs : list string) (row : list value) (key : string)
    : string :=
  match last_index key attrs with
  | None => ""
  | Some i =>
      let s := Py.text (Csv.field (default VNone (row !! i))) in
      if bool_decide (S i = length attrs) then with_newline s else s
  end.

(** The row of the summary of a time series run. *)
Definition summary_values (today : datetime) (c : counts) (attrs : list string)
    : list value :=
  map (λ col, default VNone (summary_record today c !! col)) attrs.

(** The outcome of a run that writes nothing. *)
Definition nothing_appended : written :=
  {| mode := ModeA; header_row := None; rows := []; raised := None |}.

(** The outcome of a run that appends the rows [records]. *)
Definition appended (records : list (list value)) : written :=
  {| mode := ModeA; header_row := None; rows := records; raised := None |}.

(** * Properties of the text primitives *)

Lemma chars_app a b : Py.chars (a +:+ b) = Py.chars a ++ Py.chars b.
Proof. unfold Py.chars. induction a as [|c a IH]; simpl; [done|]. by rewrite IH. Qed.

Lemma text_chars s : Py.text (Py.chars s) = s.
Proof. apply string_of_list_ascii_of_string. Qed.

Lemma text_app a b : Py.text (a ++ b) = Py.text a +:+ Py.text b.
Proof. unfold Py.text. induction a as [|c a IH]; simpl; [done|]. by rewrite IH. Qed.

Lemma starts_with_spec p cs : Py.starts_with p cs = true ↔ ∃ r, cs = p ++ r.
Proof.
  revert cs. induction p as [|a p IH]; intros cs; simpl.
  - split; [by exists cs | done].
  - destruct cs as [|c cs].
    + split; [done | by intros [r ?]].
    + unfold Py.ascii_eqb. rewrite andb_true_iff, bool_decide_eq_true, IH.
      split.
      * intros [-> [r ->]]. by exists r.
      * intros [r [= -> ->]]. eauto.
Qed.

Lemma occurs_spec p cs : Py.occurs p cs = true ↔ ∃ l r, cs = l ++ p ++ r.
Proof.
  induction cs as [|c cs IH]; simpl.
  - rewrite orb_false_r, starts_with_spec. split.
    + intros [r ->]. by exists [], r.
    + intros (l & r & H). symmetry in H.
      apply app_eq_nil in H as [-> [-> ->]%app_eq_nil]. by exists [].
  - rewrite orb_true_iff, starts_with_spec, IH. split.
    + intros [[r ->] | (l & r & ->)].
      * by exists [], r.
      * by exists (c :: l), r.
    + intros ([|c' l] & r & H); simpl in H.
      * left. by exists r.
      * injection H as -> ->. right. by exists l, r.
Qed.

Lemma contains_spec p s : Py.contains p s = true ↔ substring p s.
Proof.
  unfold Py.contains, substring. rewrite occurs_spec. split.
  - intros (l & r & H). exists (Py.text l), (Py.text r).
    rewrite <- (text_chars s), H.
    by rewrite !text_app, text_chars.
  - intros (l & r & ->). exists (Py.chars l), (Py.chars r).
    by rewrite !chars_app.
Qed.

(** * Properties of [interpolate_nums] *)

Lemma int_cases s : (∃ z, Py.int s = Ok z) ∨ Py.int s = Raise ValueError.
Proof.
  unfold Py.int. destruct (Py.int_opt s); simpl; eauto.
Qed.

Lemma all_ints_raises parts e :
  foldr (λ p acc, _ ← Py.int p; acc) (Ok tt) parts = Raise e → e = ValueError.
Proof.
  induction parts as [|p parts IH]; simpl; [discriminate|].
  destruct (int_cases p) as [[z ->] | ->]; simpl; [exact IH | congruence].
Qed.

Lemma elem_of_range a b z : z ∈ Py.range a b ↔ a ≤ z < b.
Proof. unfold Py.range. rewrite elem_of_seqZ. lia. Qed.

Lemma expand_token_raises tok e :
  expand_token tok = Raise e → e = ValueError ∧ ¬ token_ok tok.
Proof.
  unfold expand_token, token_ok.
  destruct (Py.has_dash tok).
  - destruct (Py.re_split Py.dash tok) as [|b [|e' [|x l]]] eqn:Hs.
    + simpl. intros [= <-]. split; [done|]. intros (?&?&?&?&?&_). done.
    + intros H. split.
      * destruct (int_cases b) as [[z Hz] | Hz]; simpl in H; rewrite Hz in H;
          simpl in H; congruence.
      * intros (?&?&?&?&?&_). done.
    + destruct (int_cases b) as [[z Hz] | Hz]; rewrite Hz; simpl.
      * destruct (int_cases e') as [[z' Hz'] | Hz']; rewrite Hz'; simpl;
          [discriminate|].
        intros [= <-]. split; [done|].
        intros (?&?&?&?&[= <- <-]&_&?). congruence.
      * intros [= <-]. split; [done|].
        intros (?&?&?&?&[= <- <-]&?&_). congruence.
    + intros H. split.
      * destruct (foldr _ _ _) as [[]|e0] eqn:Hf in H.
        -- simpl in H. congruence.
        -- simpl in H. injection H as <-. by apply all_ints_raises in Hf.
      * intros (?&?&?&?&?&_). done.
  - destruct (int_cases tok) as [[z Hz] | Hz]; rewrite Hz; simpl.
    + discriminate.
    + intros [= <-]. split; [done|]. intros [? ?]. done.
Qed.

Lemma expand_token_returns tok ns :
  expand_token tok = Ok ns → token_ok tok ∧ ∀ z, z ∈ ns ↔ token_adds tok z.
Proof.
  unfold expand_token, token_ok.
  destruct (Py.has_dash tok) eqn:Hd.
  - destruct (Py.re_split Py.dash tok) as [|b [|e' [|x l]]] eqn:Hs.
    + simpl. discriminate.
    + intros H. destruct (int_cases b) as [[z Hz] | Hz]; simpl in H;
        rewrite Hz in H; simpl in H; discriminate.
    + destruct (int_cases b) as [[beg Hb] | Hb]; rewrite Hb; simpl;
        [|discriminate].
      destruct (int_cases e') as [[end_ He] | He]; rewrite He; simpl;
        [|discriminate].
      intros [= <-]. split; [by eauto 10|].
      intros z. rewrite elem_of_range. split.
      * intros ?. eapply adds_range; eauto. lia.
      * intros [b' e'' beg' end' _ Hs' Hb' He' ?|Hd' _]; [|congruence].
        rewrite Hs in Hs'. injection Hs' as <- <-.
        rewrite Hb in Hb'. rewrite He in He'. simplify_eq. lia.
    + intros H. destruct (foldr _ _ _) as [[]|e0] in H; simpl in H; discriminate.
  - destruct (int_cases tok) as [[z Hz] | Hz]; rewrite Hz; simpl;
      [|discriminate].
    intros [= <-]. split; [by eauto|].
    intros z'. rewrite list_elem_of_singleton. split.
    + intros ->. by apply adds_single.
    + intros [? ? ? ? Hd' |_ Hz']; congruence.
Qed.

Lemma interpolate_loop_returns toks acc out :
  interpolate_loop toks acc = Ok out →
  Forall token_ok toks
  ∧ ∀ z, z ∈ out ↔ z ∈ acc ∨ ∃ tok, tok ∈ toks ∧ token_adds tok z.
Proof.
  revert acc. induction toks as [|tok toks IH]; intros acc; simpl.
  - intros [= <-]. split; [constructor|]. intros z. split; [auto|].
    intros [?|(?&Hin&_)]; [done|]. by apply elem_of_nil in Hin.
  - destruct (expand_token tok) as [ns|e] eqn:Hx; simpl; [|discriminate].
    apply expand_token_returns in Hx as [Hok Hns].
    intros [Hall Hmem]%IH. split; [by constructor|].
    intros z. rewrite Hmem, elem_of_app, Hns. split.
    + intros [[?|?]|(t&?&?)]; eauto.
      * right. exists tok. split; [left|done].
      * right. exists t. split; [by right|done].
    + intros [?|(t&[->|?]%elem_of_cons&?)]; eauto.
Qed.

Lemma interpolate_loop_raises toks acc e :
  interpolate_loop toks acc = Raise e → e = ValueError ∧ ¬ Forall token_ok toks.
Proof.
  revert acc. induction toks as [|tok toks IH]; intros acc; simpl;
    [discriminate|].
  destruct (expand_token tok) as [ns|e0] eqn:Hx; simpl.
  - intros [-> Hn]%IH. split; [done|]. intros Hall. apply Hn.
    by apply Forall_cons in Hall as [_ ?].
  - intros [= <-]. apply expand_token_raises in Hx as [-> Hn].
    split; [done|]. intros Hall. apply Hn.
    by apply Forall_cons in Hall as [? _].
Qed.

Lemma elem_of_sorted_set l z : z ∈ Py.sorted_set l ↔ z ∈ l.
Proof.
  unfold Py.sorted_set.
  rewrite merge_sort_Permutation, elem_of_elements, elem_of_list_to_set.
  done.
Qed.

Lemma ascending_of_sorted_NoDup (l : list Z) :
  StronglySorted Z.le l → NoDup l → StronglySorted Z.lt l.
Proof.
  induction 1 as [|x l Hs IH Hx]; intros Hnd; [constructor|].
  apply NoDup_cons in Hnd as [Hnotin Hnd].
  constructor; [auto|].
  rewrite Forall_forall in Hx |- *. intros y Hy.
  specialize (Hx y Hy). assert (x ≠ y) by (intros ->; done). lia.
Qed.

Lemma sorted_set_ascending l : StronglySorted Z.lt (Py.sorted_set l).
Proof.
  apply ascending_of_sorted_NoDup.
  - apply StronglySorted_merge_sort; apply _.
  - unfold Py.sorted_set. rewrite merge_sort_Permutation. apply NoDup_elements.
Qed.

Lemma interpolate_loop_app pre post acc :
  interpolate_loop (pre ++ post) acc
  = (acc' ← interpolate_loop pre acc; interpolate_loop post acc').
Proof.
  revert acc. induction pre as [|tok pre IH]; intros acc; simpl; [done|].
  destruct (expand_token tok) as [ns|e]; simpl; [apply IH | done].
Qed.

Lemma split_go_no_sep sep st cs :
  existsb (Py.ascii_eqb sep) cs = false → length (Py.split_go sep st cs) = 1%nat.
Proof.
  revert st. induction cs as [|c cs IH]; intros st; simpl; [done|].
  intros [Hc Hcs]%orb_false_iff.
  unfold Py.ascii_eqb in *. rewrite bool_decide_eq_false in Hc.
  rewrite bool_decide_false by congruence. by apply IH.
Qed.

Lemma re_split_two_has_dash tok b e :
  Py.re_split Py.dash tok = [b; e] → Py.has_dash tok = true.
Proof.
  intros Hs. unfold Py.has_dash.
  destruct (existsb _ _) eqn:Hd; [done|].
  apply (split_go_no_sep _ (Py.InField [] [])) in Hd.
  unfold Py.re_split in Hs. apply (f_equal length) in Hs.
  rewrite length_map, Hd in Hs. done.
Qed.

(** ** Tokens in decimal notation *)

Lemma drop_while_head p c cs :
  p c = false → Py.drop_while p (c :: cs) = c :: cs.
Proof. intros H. simpl. by rewrite H. Qed.

Lemma strip_by_solid p cs :
  Forall (λ c, p c = false) cs → Py.strip_by p cs = cs.
Proof.
  intros Hall. unfold Py.strip_by.
  assert (Hdrop : ∀ l, Forall (λ c, p c = false) l → Py.drop_while p l = l).
  { intros [|c l] Hl; [done|]. apply drop_while_head.
    by apply Forall_cons in Hl as [? _]. }
  rewrite (Hdrop cs Hall), Hdrop, rev_involutive; [done|].
  by apply List.Forall_rev.
Qed.

Lemma digits_of_uint d :
  Forall (λ c, is_Some (Py.digit c)) (Py.chars (NilEmpty.string_of_uint d)).
Proof. induction d; simpl; constructor; eauto. Qed.

Lemma int_digits_of_uint d acc :
  Py.int_digits (Z.of_nat acc) (Py.chars (NilEmpty.string_of_uint d))
  = Some (Z.of_nat (Nat.of_uint_acc d acc)).
Proof.
  revert acc.
  induction d; intros acc; simpl; [done|..];
    match goal with
    | |- _ = Some (Z.of_nat (Nat.of_uint_acc d ?x)) => rewrite <- (IHd x)
    end;
    f_equal; rewrite Nat.tail_mul_spec;
    match goal with
    | |- context [nat_of_ascii ?c] =>
        let n := eval vm_compute in (nat_of_ascii c) in
        change (nat_of_ascii c) with n
    end; lia.
Qed.

Lemma digit_not_int_space c : is_Some (Py.digit c) → Py.is_int_space c = false.
Proof.
  unfold Py.digit, Py.is_int_space. intros [d Hd].
  destruct (_ && _)%nat eqn:Hr in Hd; [|done].
  apply andb_true_iff in Hr as [H1%Nat.leb_le H2%Nat.leb_le].
  repeat (apply orb_false_iff; split);
    rewrite ?andb_false_iff, ?Nat.leb_gt, ?Nat.eqb_neq; lia.
Qed.

Lemma digit_solid c :
  is_Some (Py.digit c) → Py.is_space c = false ∧ c ≠ Py.dash ∧ c ≠ "+"%char.
Proof.
  unfold Py.digit, Py.is_space. intros [d Hd].
  destruct (_ && _)%nat eqn:Hr in Hd; [|done].
  apply andb_true_iff in Hr as [H1%Nat.leb_le H2%Nat.leb_le].
  split; [|split].
  - repeat (apply orb_false_iff; split);
      rewrite ?andb_false_iff, ?Nat.leb_gt, ?Nat.eqb_neq; lia.
  - intros ->. vm_compute in H1. lia.
  - intros ->. vm_compute in H1. lia.
Qed.

Lemma int_decimal n : Py.int (decimal n) = Ok (Z.of_nat n).
Proof.
  unfold Py.int, Py.int_opt, decimal.
  rewrite <- (DecimalNat.Unsigned.of_to n) at 2.
  unfold NilZero.string_of_uint.
  destruct (Nat.to_uint n) as [|d|d|d|d|d|d|d|d|d|d] eqn:Hd; [done|..];
    (rewrite strip_by_solid;
     [| eapply Forall_impl; [apply digits_of_uint|];
        intros c Hc; by apply digit_not_int_space]);
    simpl; unfold Nat.of_uint; simpl Nat.of_uint_acc;
    change (Nat.tail_mul 10 0) with 0%nat;
    match goal with
    | |- context [Py.int_digits ?z] =>
        let k := eval vm_compute in (Z.to_nat z) in change z with (Z.of_nat k)
    end;
    by rewrite int_digits_of_uint.
Qed.

Lemma split_go_solid sep w cur rest :
  Forall (λ c, Py.is_space c = false ∧ c ≠ sep) w →
  Py.split_go sep (Py.InField cur []) (w ++ rest)
  = Py.split_go sep (Py.InField (rev w ++ cur) []) rest.
Proof.
  intros Hw. revert cur. induction Hw as [|c w [Hc Hsep] _ IH]; intros cur;
    simpl; [done|].
  unfold Py.ascii_eqb. rewrite bool_decide_false by done.
  rewrite Hc. simpl. rewrite IH. by rewrite <- app_assoc.
Qed.

Lemma split_go_blank_pending sep ws cur ws0 rest :
  Py.is_space sep = false →
  Forall (λ c, Py.is_space c = true) ws →
  Py.split_go sep (Py.InField cur ws0) (ws ++ rest)
  = Py.split_go sep (Py.InField cur (rev ws ++ ws0)) rest.
Proof.
  intros Hsep Hws. revert ws0.
  induction Hws as [|c ws Hc _ IH]; intros ws0; simpl; [done|].
  unfold Py.ascii_eqb. rewrite bool_decide_false by congruence.
  rewrite Hc. rewrite IH. by rewrite <- app_assoc.
Qed.

Lemma split_go_blank_after sep ws rest :
  Py.is_space sep = false →
  Forall (λ c, Py.is_space c = true) ws →
  Py.split_go sep Py.AfterSep (ws ++ rest) = Py.split_go sep Py.AfterSep rest.
Proof.
  intros Hsep Hws. induction Hws as [|c ws Hc _ IH]; simpl; [done|].
  unfold Py.ascii_eqb. rewrite bool_decide_false by congruence.
  by rewrite Hc.
Qed.

Lemma split_go_after_solid sep w :
  Forall (λ c, Py.is_space c = false ∧ c ≠ sep) w →
  Py.split_go sep Py.AfterSep w = [w].
Proof.
  intros Hw. destruct Hw as [|c w [Hc Hsep] Hw]; [done|]. simpl.
  unfold Py.ascii_eqb. rewrite bool_decide_false by done.
  rewrite Hc. rewrite <- (app_nil_r w) at 1.
  rewrite split_go_solid by done. simpl.
  by rewrite rev_app_distr, rev_involutive.
Qed.

Lemma split_go_two_fields sep a ws1 ws2 b :
  Py.is_space sep = false →
  Forall (λ c, Py.is_space c = false ∧ c ≠ sep) a →
  Forall (λ c, Py.is_space c = true) ws1 →
  Forall (λ c, Py.is_space c = true) ws2 →
  Forall (λ c, Py.is_space c = false ∧ c ≠ sep) b →
  Py.split_go sep (Py.InField [] []) (a ++ ws1 ++ sep :: ws2 ++ b) = [a; b].
Proof.
  intros Hsep Ha H1 H2 Hb.
  rewrite split_go_solid by done.
  rewrite split_go_blank_pending by done. simpl.
  unfold Py.ascii_eqb. rewrite bool_decide_true by done.
  rewrite split_go_blank_after by done.
  rewrite split_go_after_solid by done.
  by rewrite app_nil_r, rev_involutive.
Qed.

Lemma decimal_solid n :
  Forall (λ c, Py.is_space c = false ∧ c ≠ Py.dash) (Py.chars (decimal n)).
Proof.
  assert (Hd : ∀ d, Forall (λ c, Py.is_space c = false ∧ c ≠ Py.dash)
                      (Py.chars (NilEmpty.string_of_uint d))).
  { intros d. eapply Forall_impl; [apply digits_of_uint|].
    intros c Hc. by destruct (digit_solid c Hc) as (? & ? & _). }
  unfold decimal, NilZero.string_of_uint.
  destruct (Nat.to_uint n) eqn:H; try (rewrite <- H; apply Hd).
  repeat constructor; done.
Qed.

Lemma expand_range_token (b e : nat) (ws1 ws2 : string) :
  blank ws1 → blank ws2 →
  expand_token (range_token b ws1 ws2 e)
  = Ok (Py.range (Z.of_nat b) (Z.of_nat e + 1)).
Proof.
  intros H1 H2. unfold expand_token, range_token.
  assert (Hsplit : Py.re_split Py.dash
                     (decimal b +:+ ws1 +:+ "-" +:+ ws2 +:+ decimal e)
                   = [decimal b; decimal e]).
  { unfold Py.re_split. rewrite !chars_app.
    change (Py.chars "-") with [Py.dash]. simpl.
    rewrite split_go_two_fields; [|done|apply decimal_solid|done..|apply decimal_solid].
    simpl. by rewrite !text_chars. }
  rewrite (re_split_two_has_dash _ _ _ Hsplit), Hsplit, !int_decimal. done.
Qed.

Lemma expand_decimal_token (n : nat) : expand_token (decimal n) = Ok [Z.of_nat n].
Proof.
  unfold expand_token.
  assert (Py.has_dash (decimal n) = false) as ->.
  { unfold Py.has_dash. apply not_true_is_false.
    intros (c & Hin & Hc)%existsb_exists.
    pose proof (decimal_solid n) as Hs. rewrite Forall_forall in Hs.
    apply list_elem_of_In, Hs in Hin as [_ Hne].
    unfold Py.ascii_eqb in Hc. by apply bool_decide_eq_true in Hc. }
  by rewrite int_decimal.
Qed.

(** C6, as stated, fails on the token [-5]: it is not of the form
    [<int>-<int>] and it is an integer, so the specification's parser
    yields [[-5]]; [interpolate_nums] sends every token with a dash to the
    range branch, where [int('')] raises [ValueError]. *)
Lemma interpolate_nums_negative_token :
  interpolate_nums ["-5"] = Raise ValueError
  ∧ parse_as_specified ["-5"] = Ok [-5].
Proof. split; vm_compute; reflexivity. Qed.

(** C6 (amended): [interpolate_nums] returns a list exactly when every
    token is accepted by the loop body, that is: a token with a dash
    splits at the dash, white space around it dropped, into two texts that
    [int] reads, and a token without a dash is read by [int]; otherwise it
    raises [ValueError]. The list it returns is strictly ascending (so
    free of duplicates) and holds exactly the integers of the inclusive
    ranges [beg..end] of the tokens with a dash and the integers of the
    other tokens. A token [<b>-<e>] of two naturals in decimal notation,
    with or without white space around the dash, is accepted and adds
    the integers from [b] to [e]; a natural in decimal notation is
    accepted and adds itself; [["1"; "3-5"; "5"]] gives [[1; 3; 4; 5]]. *)
Theorem interpolate_nums_correct (nums_inp : list string) :
  (Forall token_ok nums_inp →
   ∃ nums_out, interpolate_nums nums_inp = Ok nums_out
     ∧ StronglySorted Z.lt nums_out
     ∧ ∀ z, z ∈ nums_out ↔ ∃ tok, tok ∈ nums_inp ∧ token_adds tok z)
  ∧ (¬ Forall token_ok nums_inp → interpolate_nums nums_inp = Raise ValueError)
  ∧ (∀ (b e : nat) (ws1 ws2 : string),
       blank ws1 → blank ws2 →
       token_ok (range_token b ws1 ws2 e)
       ∧ ∀ z, token_adds (range_token b ws1 ws2 e) z
              ↔ Z.of_nat b ≤ z ≤ Z.of_nat e)
  ∧ (∀ n : nat,
       token_ok (decimal n) ∧ ∀ z, token_adds (decimal n) z ↔ z = Z.of_nat n)
  ∧ interpolate_nums ["1"; "3-5"; "5"] = Ok [1; 3; 4; 5].
Proof.
  split; [|split; [|split; [|split; [|vm_compute; reflexivity]]]].
  - intros Hall. unfold interpolate_nums.
    destruct (interpolate_loop nums_inp []) as [out|e] eqn:Hl; simpl.
    + apply interpolate_loop_returns in Hl as [_ Hmem].
      eexists. split; [done|]. split; [apply sorted_set_ascending|].
      intros z. rewrite elem_of_sorted_set, Hmem. split.
      * intros [Hin|?]; [by apply elem_of_nil in Hin|done].
      * auto.
    + apply interpolate_loop_raises in Hl as [_ Hn]. done.
  - intros Hn. unfold interpolate_nums.
    destruct (interpolate_loop nums_inp []) as [out|e] eqn:Hl; simpl.
    + apply interpolate_loop_returns in Hl as [Hall _]. done.
    + apply interpolate_loop_raises in Hl as [-> _]. done.
  - intros b e ws1 ws2 H1 H2.
    destruct (expand_token_returns _ _ (expand_range_token b e ws1 ws2 H1 H2))
      as [Hok Hadds].
    split; [done|]. intros z. rewrite <- Hadds, elem_of_range. lia.
  - intros n.
    destruct (expand_token_returns _ _ (expand_decimal_token n)) as [Hok Hadds].
    split; [done|]. intros z. by rewrite <- Hadds, list_elem_of_singleton.
Qed.

Lemma interpolate_nums_correct_witness :
  ∃ nums_out, interpolate_nums ["7"; "2 - 4"; "3"] = Ok nums_out
    ∧ StronglySorted Z.lt nums_out
    ∧ ∀ z, z ∈ nums_out ↔ ∃ tok, tok ∈ ["7"; "2 - 4"; "3"] ∧ token_adds tok z.
Proof.
  apply (interpolate_nums_correct ["7"; "2 - 4"; "3"]).
  repeat constructor; vm_compute; eauto 10.
Defined.

Lemma interpolate_nums_without tok before after :
  expand_token tok = Ok [] →
  interpolate_nums (before ++ tok :: after) = interpolate_nums (before ++ after).
Proof.
  intros Hx. unfold interpolate_nums. rewrite !interpolate_loop_app.
  destruct (interpolate_loop before []) as [acc|err]; simpl; [|done].
  rewrite Hx. simpl. by rewrite app_nil_r.
Qed.

(** C10: a range token [<b>-<e>] with [b > e] raises no error and adds
    nothing: the loop body yields the empty list for it, and the result
    for a token list with such a token is the result for the list without
    it. This holds for two naturals in decimal notation, with or without
    white space around the dash, and for every token that the loop body
    splits into two texts that [int] reads as [beg > end]. *)
Theorem descending_range_is_empty :
  (∀ (b e : nat) (ws1 ws2 : string) (before after : list string),
     (e < b)%nat → blank ws1 → blank ws2 →
     expand_token (range_token b ws1 ws2 e) = Ok []
     ∧ interpolate_nums (before ++ range_token b ws1 ws2 e :: after)
       = interpolate_nums (before ++ after))
  ∧ (∀ (tok b e : string) (beg end_ : Z) (before after : list string),
       Py.re_split Py.dash tok = [b; e] →
       Py.int b = Ok beg → Py.int e = Ok end_ →
       beg > end_ →
       expand_token tok = Ok []
       ∧ interpolate_nums (before ++ tok :: after)
         = interpolate_nums (before ++ after)).
Proof.
  split.
  - intros b e ws1 ws2 before after Hlt H1 H2.
    assert (Hx : expand_token (range_token b ws1 ws2 e) = Ok []).
    { rewrite expand_range_token by done. f_equal.
      unfold Py.range. apply seqZ_nil. lia. }
    split; [done|]. by apply interpolate_nums_without.
  - intros tok b e beg end_ before after Hs Hb He Hgt.
    assert (Hx : expand_token tok = Ok []).
    { unfold expand_token.
      rewrite (re_split_two_has_dash _ _ _ Hs), Hs, Hb, He.
      simpl. f_equal. unfold Py.range. apply seqZ_nil. lia. }
    split; [done|]. by apply interpolate_nums_without.
Qed.

Lemma descending_range_is_empty_witness :
  (expand_token "9 - 4" = Ok []
   ∧ interpolate_nums (["1"] ++ "9 - 4" :: ["2"]) = interpolate_nums (["1"] ++ ["2"]))
  ∧ (expand_token "+9-4" = Ok []
     ∧ interpolate_nums ([] ++ "+9-4" :: ["2"]) = interpolate_nums ([] ++ ["2"])).
Proof.
  destruct descending_range_is_empty as [Hdecimal Hany]. split.
  - apply (Hdecimal 9%nat 4%nat " " " " ["1"] ["2"]); [lia|by_computation..].
  - apply (Hany "+9-4" "+9" "4" 9 4 [] ["2"]); [vm_compute; reflexivity..|lia].
Defined.

(** * Properties of the filters *)

(** C1, as stated, fails: with [numbers: [1]] and [labels: [bug]] a
    record number 2 that bears the label [bug] is dropped by the numbers
    predicate and the labels predicate, though enabled, never runs; had it
    run, its inclusion entry would have set the flag back to keep. *)
Lemma labels_not_run_after_numbers_drop :
  let fs := {| f_numbers := Some [SInt 1]; f_labels := Some ["bug"];
               f_strings := None |} in
  let r := issue 2 ["bug"] "a title" "a body" in
  enabled fs = [Numbers; Labels]
  ∧ run_filters Py.contains fs r = Ok (false, [Numbers])
  ∧ run_filters_as_specified Py.contains fs r = Ok (true, [Numbers; Labels]).
Proof. repeat split; vm_compute; reflexivity. Qed.

Lemma gated_trace v ps b ran :
  gated v ps = Ok (b, ran) →
  ran `prefix_of` ps
  ∧ (b = true → ran = ps ∧ ∀ p, p ∈ ps → v p = Ok true)
  ∧ (b = false → ∃ p, last ran = Some p ∧ v p = Ok false).
Proof.
  revert b ran. induction ps as [|p ps IH]; intros b ran; simpl.
  - intros [= <- <-]. split; [done|]. split; [|done].
    intros _. split; [done|]. intros p Hp. by apply elem_of_nil in Hp.
  - destruct (v p) as [[]|e] eqn:Hv; simpl; [| |done].
    + destruct (gated v ps) as [[b' ran']|e] eqn:Hg; simpl; [|done].
      intros [= <- <-]. destruct (IH _ _ eq_refl) as (Hpre & Ht & Hf).
      split; [by apply prefix_cons|]. split.
      * intros Hb. destruct (Ht Hb) as [-> Hall]. split; [done|].
        intros q [->|?]%elem_of_cons; auto.
      * intros Hb. destruct (Hf Hb) as (q & Hq & Hvq). exists q. split; [|done].
        destruct ran'; [done|]. done.
    + intros [= <- <-]. split; [|split; [done|]].
      * by exists ps.
      * intros _. by exists p.
Qed.

(** C1 (amended): a predicate runs only while the flag is still true.
    The enabled predicates run in the order numbers, labels, strings up
    to and including the first one that leaves the flag false; the ones
    behind it do not run, and the record is dropped. The decision is the
    flag after the predicates that ran: keep exactly when every enabled
    predicate has run and has left the flag true. *)
Theorem filters_run_while_appendable (re_search : string → string → bool)
    (fs : filters) (attr_raw : attr) :
  run_filters re_search fs attr_raw
  = gated (verdict re_search fs attr_raw) (enabled fs)
  ∧ ∀ b ran, run_filters re_search fs attr_raw = Ok (b, ran) →
      should_keep re_search (Some fs) attr_raw = Ok b
      ∧ ran `prefix_of` enabled fs
      ∧ (b = true → ran = enabled fs
                    ∧ ∀ p, p ∈ enabled fs →
                           verdict re_search fs attr_raw p = Ok true)
      ∧ (b = false → ∃ p, last ran = Some p
                          ∧ verdict re_search fs attr_raw p = Ok false).
Proof.
  assert (Heq : run_filters re_search fs attr_raw
                = gated (verdict re_search fs attr_raw) (enabled fs)).
  { unfold run_filters, enabled, numbers_filter, labels_filter, strings_filter.
    destruct fs as [[nums|] [fl|] [fstr|]]; simpl;
      repeat match goal with
        | |- context [numbers_body ?n ?r ?f] =>
            destruct (numbers_body n r f) as [[]|?]; simpl
        | |- context [labels_body ?l ?r] => destruct (labels_body l r); simpl
        | |- context [strings_body ?s ?l ?r] =>
            destruct (strings_body s l r); simpl
        end; reflexivity. }
  split; [exact Heq|].
  intros b ran Hrun. split.
  - simpl. by rewrite Hrun.
  - rewrite Heq in Hrun. by apply gated_trace.
Qed.

Lemma filters_run_while_appendable_witness :
  let fs := {| f_numbers := Some [SStr "2-4"]; f_labels := Some ["bug"];
               f_strings := Some ["-BT"] |} in
  let r := issue 3 ["bug"] "DCPS" "BT" in
  should_keep Py.contains (Some fs) r = Ok false
  ∧ [Numbers; Labels; Strings] `prefix_of` enabled fs.
Proof.
  intros fs r.
  destruct (proj2 (filters_run_while_appendable Py.contains fs r)
              false [Numbers; Labels; Strings]) as (H1 & H2 & _).
  - vm_compute. reflexivity.
  - split; [exact H1 | exact H2].
Defined.

Lemma labels_loop_first_excluded fl before lab_name after flag :
  Forall (λ n, ("-" +:+ n) ∉ fl) before →
  ("-" +:+ lab_name) ∈ fl →
  labels_loop fl (before ++ lab_name :: after) flag = (false, before ++ [lab_name]).
Proof.
  intros Hbefore Hin. revert flag.
  induction Hbefore as [|n before Hn _ IH]; intros flag; simpl.
  - by rewrite bool_decide_true.
  - rewrite (bool_decide_false _ Hn). by rewrite IH.
Qed.

Lemma first_excluded (fl names : list string) lab_name :
  lab_name ∈ names → ("-" +:+ lab_name) ∈ fl →
  ∃ before n after, names = before ++ n :: after
    ∧ Forall (λ n, ("-" +:+ n) ∉ fl) before ∧ ("-" +:+ n) ∈ fl.
Proof.
  intros Hin Hex. induction names as [|m names IH]; [by apply elem_of_nil in Hin|].
  destruct (decide (("-" +:+ m) ∈ fl)) as [Hm|Hm].
  - exists [], m, names. by repeat split.
  - apply elem_of_cons in Hin as [->|Hin]; [done|].
    destruct (IH Hin) as (before & n & after & -> & Hall & Hn).
    exists (m :: before), n, after. repeat split; [by constructor|done].
Qed.

Lemma run_filters_after_labels re_search fs fl attr_raw b ran :
  f_labels fs = Some fl →
  run_filters re_search fs attr_raw = Ok (b, ran) →
  Labels ∈ ran →
  labels_body fl attr_raw = false →
  b = false ∧ (Strings ∉ ran).
Proof.
  intros Hfl Hrun Hran Hbody. revert Hrun Hran.
  unfold run_filters, numbers_filter, labels_filter, strings_filter.
  rewrite Hfl.
  destruct (f_numbers fs) as [nums|]; simpl.
  - destruct (numbers_body nums attr_raw true) as [[]|e]; simpl; [| |done].
    + rewrite Hbody. simpl. intros [= <- <-] _. split; [done|].
      intros H. repeat (apply elem_of_cons in H as [?|H]; [done|]).
      by apply elem_of_nil in H.
    + intros [= <- <-] H.
      repeat (apply elem_of_cons in H as [?|H]; [done|]).
      by apply elem_of_nil in H.
  - rewrite Hbody. simpl. intros [= <- <-] _. split; [done|].
    intros H. repeat (apply elem_of_cons in H as [?|H]; [done|]).
    by apply elem_of_nil in H.
Qed.

(** C4: when the labels predicate runs on a record and ["-" + name] is
    in the configured list for one of the record's label names, the
    record is dropped. The loop over the label names stops at the first
    such name: it looks at no name behind it, whatever the flag was and
    whether or not a name before it matched an inclusion entry; the
    strings predicate does not run either. With [bug] and [-wontfix]
    configured a record labelled [bug], [wontfix] is dropped; with [bug]
    alone it is kept. *)
Theorem labels_exclusion_wins :
  (∀ fl before lab_name after flag,
     Forall (λ n, ("-" +:+ n) ∉ fl) before →
     ("-" +:+ lab_name) ∈ fl →
     labels_loop fl (before ++ lab_name :: after) flag
     = (false, before ++ [lab_name]))
  ∧ (∀ re_search fs fl attr_raw b ran lab_name,
       f_labels fs = Some fl →
       run_filters re_search fs attr_raw = Ok (b, ran) →
       Labels ∈ ran →
       lab_name ∈ label_names attr_raw →
       ("-" +:+ lab_name) ∈ fl →
       b = false ∧ (Strings ∉ ran)
       ∧ should_keep re_search (Some fs) attr_raw = Ok false)
  ∧ (∀ re_search attr_raw,
       label_names attr_raw = ["bug"; "wontfix"] →
       should_keep re_search
         (Some {| f_numbers := None; f_labels := Some ["bug"; "-wontfix"];
                  f_strings := None |}) attr_raw = Ok false
       ∧ should_keep re_search
           (Some {| f_numbers := None; f_labels := Some ["bug"];
                    f_strings := None |}) attr_raw = Ok true).
Proof.
  split; [exact labels_loop_first_excluded|]. split.
  - intros re_search fs fl attr_raw b ran lab_name Hfl Hrun Hran Hin Hex.
    assert (Hbody : labels_body fl attr_raw = false).
    { unfold labels_body.
      destruct (first_excluded fl _ _ Hin Hex)
        as (before & n & after & -> & Hall & Hn).
      by rewrite labels_loop_first_excluded. }
    destruct (run_filters_after_labels _ _ _ _ _ _ Hfl Hrun Hran Hbody)
      as [-> Hs].
    repeat split; [done|]. simpl. by rewrite Hrun.
  - intros re_search attr_raw Hnames.
    unfold should_keep, run_filters, numbers_filter, labels_filter,
      strings_filter, labels_body; simpl.
    rewrite Hnames. split; vm_compute; reflexivity.
Qed.

Lemma labels_exclusion_wins_witness :
  let fs := {| f_numbers := Some [SStr "all"];
               f_labels := Some ["bug"; "-wontfix"; "all"];
               f_strings := Some ["DCPS"] |} in
  let r := issue 7 ["bug"; "wontfix"; "docs"] "DCPS" "" in
  labels_loop ["bug"; "-wontfix"; "all"] (["bug"] ++ "wontfix" :: ["docs"]) true
  = (false, ["bug"] ++ ["wontfix"])
  ∧ (Strings ∉ [Numbers; Labels])
  ∧ should_keep Py.contains (Some fs) r = Ok false.
Proof.
  intros fs r. destruct labels_exclusion_wins as (Hloop & Hrec & _). split.
  - apply (Hloop ["bug"; "-wontfix"; "all"] ["bug"] "wontfix" ["docs"] true);
      by_computation.
  - assert (Labels ∈ [Numbers; Labels]) as Hran by by_computation.
    assert ("wontfix" ∈ label_names r) as Hin by by_computation.
    assert (("-" +:+ "wontfix") ∈ ["bug"; "-wontfix"; "all"]) as Hex
      by by_computation.
    destruct (Hrec Py.contains fs _ r false [Numbers; Labels] "wontfix"
                eq_refl eq_refl Hran Hin Hex) as (_ & H2 & H3).
    split; [exact H2 | exact H3].
Defined.

Lemma strings_loop_in_order re_search l attr_raw flag :
  snd (strings_loop re_search l attr_raw flag) `prefix_of` l.
Proof.
  revert flag. induction l as [|s0 l IH]; intros flag; simpl; [done|].
  destruct (re_search _ _ || re_search _ _).
  - destruct (Py.starts_with_dash s0); simpl.
    + by exists l.
    + specialize (IH true). destruct (strings_loop _ _ _ _); simpl in *.
      by apply prefix_cons.
  - specialize (IH flag). destruct (strings_loop _ _ _ _); simpl in *.
    by apply prefix_cons.
Qed.

Lemma strings_loop_first_exclusion re_search before s0 after attr_raw flag :
  Forall (λ t, ¬ excludes re_search attr_raw t) before →
  excludes re_search attr_raw s0 →
  strings_loop re_search (before ++ s0 :: after) attr_raw flag
  = (false, before ++ [s0]).
Proof.
  intros Hbefore [Hdash Hhit]. revert flag.
  unfold hits, search_text in Hhit. rewrite Hdash in Hhit.
  induction Hbefore as [|t before Ht _ IH]; intros flag; simpl.
  - by rewrite Hdash, Hhit.
  - unfold excludes, hits, search_text in Ht.
    destruct (Py.starts_with_dash t) eqn:Hd.
    + destruct (re_search _ _ || re_search _ _); [by destruct Ht|].
      by rewrite IH.
    + destruct (re_search _ _ || re_search _ _); by rewrite IH.
Qed.

Lemma first_exclusion re_search attr_raw (l : list string) s0 :
  s0 ∈ l → excludes re_search attr_raw s0 →
  ∃ before t after, l = before ++ t :: after
    ∧ Forall (λ t, ¬ excludes re_search attr_raw t) before
    ∧ excludes re_search attr_raw t.
Proof.
  intros Hin Hex. induction l as [|m l IH]; [by apply elem_of_nil in Hin|].
  destruct (decide (excludes re_search attr_raw m)) as [Hm|Hm].
  - exists [], m, l. split; [done|]. split; [constructor|done].
  - apply elem_of_cons in Hin as [->|Hin]; [done|].
    destruct (IH Hin) as (before & t & after & -> & Hall & Ht).
    exists (m :: before), t, after.
    split; [done|]. split; [by constructor|done].
Qed.

Lemma run_filters_after_strings re_search fs fstr attr_raw b ran :
  f_strings fs = Some fstr →
  run_filters re_search fs attr_raw = Ok (b, ran) →
  Strings ∈ ran →
  b = strings_body re_search fstr attr_raw.
Proof.
  intros Hfs Hrun Hran. revert Hrun Hran.
  unfold run_filters, numbers_filter, labels_filter, strings_filter.
  rewrite Hfs.
  assert (Hno : ∀ l, Forall (λ p, p ≠ Strings) l → Strings ∈ l → False).
  { intros l Hl Hin. rewrite Forall_forall in Hl. by apply (Hl _ Hin). }
  destruct (f_numbers fs) as [nums|]; simpl;
    [destruct (numbers_body nums attr_raw true) as [[]|e]; simpl; [| |done]|];
    destruct (f_labels fs) as [fl|]; simpl;
    try destruct (labels_body fl attr_raw); simpl;
    intros [= <- <-] Hin; try done;
    exfalso; (eapply Hno; [|exact Hin]); repeat constructor; done.
Qed.

(** C5: the strings predicate looks at the configured strings in their
    configured order. When it runs on a record and one of them begins
    with ["-"] and, its dashes stripped, is found in the title or the
    body, the record is dropped; the loop stops at the first such string
    and looks at none behind it, also when a string without the dash was
    found before. With [-BT] and [DCPS] configured, a record with [DCPS]
    in its title and [BT] in its body is dropped, whatever the search
    that finds them, the search for a piece of text among them. *)
Theorem strings_exclusion_wins :
  (∀ re_search l attr_raw flag,
     snd (strings_loop re_search l attr_raw flag) `prefix_of` l)
  ∧ (∀ re_search before s0 after attr_raw flag,
       Forall (λ t, ¬ excludes re_search attr_raw t) before →
       excludes re_search attr_raw s0 →
       strings_loop re_search (before ++ s0 :: after) attr_raw flag
       = (false, before ++ [s0]))
  ∧ (∀ re_search fs fstr attr_raw b ran s0,
       f_strings fs = Some fstr →
       run_filters re_search fs attr_raw = Ok (b, ran) →
       Strings ∈ ran →
       s0 ∈ fstr →
       excludes re_search attr_raw s0 →
       b = false ∧ should_keep re_search (Some fs) attr_raw = Ok false)
  ∧ (∀ re_search attr_raw,
       re_search "DCPS" (title attr_raw) = true →
       re_search "BT" (body attr_raw) = true →
       should_keep re_search
         (Some {| f_numbers := None; f_labels := None;
                  f_strings := Some ["-BT"; "DCPS"] |}) attr_raw = Ok false)
  ∧ (∀ attr_raw,
       substring "DCPS" (title attr_raw) →
       substring "BT" (body attr_raw) →
       should_keep Py.contains
         (Some {| f_numbers := None; f_labels := None;
                  f_strings := Some ["-BT"; "DCPS"] |}) attr_raw = Ok false).
Proof.
  assert (Hexample : ∀ re_search attr_raw,
    re_search "DCPS" (title attr_raw) = true →
    re_search "BT" (body attr_raw) = true →
    should_keep re_search
      (Some {| f_numbers := None; f_labels := None;
               f_strings := Some ["-BT"; "DCPS"] |}) attr_raw = Ok false).
  { intros re_search attr_raw _ Hbody.
    unfold should_keep, run_filters, numbers_filter, labels_filter,
      strings_filter, strings_body; simpl.
    change (Py.starts_with_dash "-BT") with true.
    change (Py.lstrip_dash "-BT") with "BT".
    rewrite Hbody, orb_true_r. reflexivity. }
  split; [exact strings_loop_in_order|].
  split; [exact strings_loop_first_exclusion|]. split.
  - intros re_search fs fstr attr_raw b ran s0 Hfs Hrun Hran Hin Hex.
    assert (Hbody : strings_body re_search fstr attr_raw = false).
    { unfold strings_body.
      destruct (first_exclusion _ _ _ _ Hin Hex)
        as (before & t & after & -> & Hall & Ht).
      by rewrite strings_loop_first_exclusion. }
    pose proof (run_filters_after_strings _ _ _ _ _ _ Hfs Hrun Hran) as Hb.
    rewrite Hbody in Hb. subst b. split; [done|]. simpl. by rewrite Hrun.
  - split; [exact Hexample|].
    intros attr_raw Ht Hb. apply Hexample; by apply contains_spec.
Qed.

Lemma strings_exclusion_wins_witness :
  let r := issue 12 [] "DCPS: loss of signal" "seen on the BT line" in
  strings_loop Py.contains (["DCPS"] ++ "-BT" :: ["-DCPS"]) r false
  = (false, ["DCPS"] ++ ["-BT"])
  ∧ should_keep Py.contains
      (Some {| f_numbers := None; f_labels := None;
               f_strings := Some ["-BT"; "DCPS"] |}) r = Ok false.
Proof.
  intros r. destruct strings_exclusion_wins as (_ & Hloop & _ & Hex & _). split.
  - apply (Hloop Py.contains ["DCPS"] "-BT" ["-DCPS"] r false); by_computation.
  - apply (Hex Py.contains r); vm_compute; reflexivity.
Defined.

(** * Properties of the counting loop *)

Lemma count_loop gh_attrs c :
  let c' := fold_left count_step gh_attrs c in
  num_iss_all c' = num_iss_all c + Z.of_nat (length gh_attrs)
  ∧ num_iss_open c'
    = num_iss_open c
      + Z.of_nat (length (filter (λ r, Py.contains "open" (state r) = true)
                            gh_attrs))
  ∧ num_iss_closed c'
    = num_iss_closed c
      + Z.of_nat (length (filter (λ r, Py.contains "closed" (state r) = true)
                            gh_attrs)).
Proof.
  revert c. induction gh_attrs as [|r l IH]; intros c; simpl.
  - repeat split; lia.
  - destruct (IH (count_step c r)) as (Ha & Ho & Hc).
    rewrite Ha, Ho, Hc. clear IH Ha Ho Hc.
    rewrite !filter_cons. simpl.
    split; [lia|].
    split.
    + destruct (Py.contains "open" (state r)); simpl; lia.
    + destruct (Py.contains "closed" (state r)); simpl; lia.
Qed.

(** C7: after the counting loop [num_iss_all] is the number of records,
    [num_iss_open] the number of records in whose state the search for
    ["open"] succeeds and [num_iss_closed] the number of those in whose
    state the search for ["closed"] succeeds; the summary record holds
    these three numbers. The search succeeds exactly when the word is a
    piece of the state's text, so a state such as ["reopened"] counts as
    open. The states open, open, closed give 3, 2 and 1. *)
Theorem count_issues_correct (gh_attrs : list attr) :
  num_iss_all (count_issues gh_attrs) = Z.of_nat (length gh_attrs)
  ∧ num_iss_open (count_issues gh_attrs)
    = Z.of_nat (length (filter (λ r, Py.contains "open" (state r) = true)
                          gh_attrs))
  ∧ num_iss_closed (count_issues gh_attrs)
    = Z.of_nat (length (filter (λ r, Py.contains "closed" (state r) = true)
                          gh_attrs))
  ∧ (∀ today,
       let summary := summary_record today (count_issues gh_attrs) in
       summary !! "num_iss_all" = Some (VInt (num_iss_all (count_issues gh_attrs)))
       ∧ summary !! "num_iss_open"
         = Some (VInt (num_iss_open (count_issues gh_attrs)))
       ∧ summary !! "num_iss_closed"
         = Some (VInt (num_iss_closed (count_issues gh_attrs))))
  ∧ (∀ p s, Py.contains p s = true ↔ substring p s)
  ∧ (∀ r, state r = "reopened" → num_iss_open (count_issues [r]) = 1)
  ∧ (∀ r1 r2 r3,
       state r1 = "open" → state r2 = "open" → state r3 = "closed" →
       count_issues [r1; r2; r3]
       = {| num_iss_all := 3; num_iss_open := 2; num_iss_closed := 1 |}).
Proof.
  split; [|split; [|split; [|split; [|split; [exact contains_spec|split]]]]].
  1-3: unfold count_issues;
    destruct (count_loop gh_attrs
                {| num_iss_all := 0; num_iss_open := 0; num_iss_closed := 0 |})
      as (Ha & Ho & Hc); simpl in *; by rewrite ?Ha, ?Ho, ?Hc.
  - intros today. unfold summary_record. simpl.
    repeat split;
      repeat (rewrite lookup_insert_ne by done); by rewrite lookup_insert_eq.
  - intros r Hr. unfold count_issues. simpl. by rewrite Hr.
  - intros r1 r2 r3 H1 H2 H3. unfold count_issues. simpl.
    unfold count_step; simpl. by rewrite H1, H2, H3.
Qed.

Lemma count_issues_correct_witness :
  count_issues [issue 1 [] "a" ""; issue 2 [] "b" ""]
  = {| num_iss_all := 2; num_iss_open := 2; num_iss_closed := 0 |}
  ∧ substring "open" "reopened".
Proof.
  destruct (count_issues_correct
              [issue 1 [] "a" ""; issue 2 [] "b" ""])
    as (Ha & Ho & Hc & _ & Hs & _).
  split.
  - destruct (count_issues _) as [a o c]. simpl in *.
    rewrite Ha, Ho, Hc. vm_compute. reflexivity.
  - apply Hs. vm_compute. reflexivity.
Defined.

(** * Properties of [write_to_csv] *)

Lemma last_index_None key attrs : last_index key attrs = None ↔ key ∉ attrs.
Proof.
  induction attrs as [|s rest IH]; simpl.
  - split; [|done]. intros _ H. by apply elem_of_nil in H.
  - rewrite not_elem_of_cons. destruct (last_index key rest) as [j|].
    + split; [done|]. intros [_ H]. by apply IH in H.
    + destruct (decide (s = key)) as [->|Hne].
      * split; [done|]. by intros [? _].
      * split; [|done]. intros _. split; [done|]. by apply IH.
Qed.

Lemma last_index_Some key attrs i :
  last_index key attrs = Some i ↔
  attrs !! i = Some key ∧ ∀ j, (i < j)%nat → attrs !! j ≠ Some key.
Proof.
  revert i. induction attrs as [|s rest IH]; intros i; simpl.
  - split; [done|]. by intros [? _].
  - destruct (last_index key rest) as [j|] eqn:Hl.
    + destruct (proj1 (IH j) eq_refl) as [Hj Hafter]. split.
      * intros [= <-]. split; [done|].
        intros [|k] Hk; [lia|]. simpl. apply Hafter. lia.
      * intros [Hi Hafter']. destruct i as [|i].
        -- exfalso. apply (Hafter' (S j)); [lia|done].
        -- assert (Some j = Some i) as [= ->]; [|done].
           apply IH. split; [done|]. intros k Hk. apply (Hafter' (S k)). lia.
    + apply last_index_None in Hl.
      assert (Hnone : ∀ k, rest !! k ≠ Some key).
      { intros k Hk. apply Hl. by eapply list_elem_of_lookup_2. }
      destruct (decide (s = key)) as [->|Hne].
      * split.
        -- intros [= <-]. split; [done|]. intros [|j] Hj; [lia|]. apply Hnone.
        -- intros [Hi _]. destruct i as [|i]; [done|]. by apply Hnone in Hi.
      * split; [done|]. intros [Hi _]. destruct i as [|i].
        -- simpl in Hi. congruence.
        -- by apply Hnone in Hi.
Qed.

Lemma last_index_last key attrs :
  last attrs = Some key → last_index key attrs = Some (length attrs - 1)%nat.
Proof.
  intros Hlast. apply last_index_Some. split.
  - rewrite last_lookup in Hlast. by replace (length attrs - 1)%nat
      with (pred (length attrs)) by lia.
  - intros j Hj Hk. apply lookup_lt_Some in Hk. lia.
Qed.

Lemma build_idx_from_lookup key attrs i idx :
  indexed key = true →
  build_idx_from i attrs idx !! key
  = match last_index key attrs with
    | Some j => Some (i + j)%nat
    | None => idx !! key
    end.
Proof.
  intros Hkey. revert i idx.
  induction attrs as [|s rest IH]; intros i idx; simpl; [done|].
  rewrite IH. destruct (last_index key rest) as [j|].
  - f_equal. lia.
  - destruct (decide (s = key)) as [->|Hne].
    + fold (indexed key). rewrite Hkey, lookup_insert_eq. f_equal. lia.
    + destruct (_ || _); [by rewrite lookup_insert_ne|done].
Qed.

Lemma build_idx_lookup key attrs :
  indexed key = true → build_idx attrs !! key = last_index key attrs.
Proof.
  intros Hkey. unfold build_idx. rewrite build_idx_from_lookup by done.
  destruct (last_index key attrs); [done|]. apply lookup_empty.
Qed.

Lemma build_row_Ok gh_attr attrs row :
  build_row gh_attr attrs = Ok row ↔
  Forall2 (λ out_col v, gh_attr !! out_col = Some v) attrs row.
Proof.
  revert row. induction attrs as [|a attrs IH]; intros row; simpl.
  - split; [by intros [= <-]; constructor | by intros ->%Forall2_nil_inv_l].
  - destruct (gh_attr !! a) as [v|] eqn:Ha; simpl.
    + destruct (build_row gh_attr attrs) as [vs|e]; simpl.
      * split.
        -- intros [= <-]. constructor; [done|]. by apply IH.
        -- intros (v' & vs' & Hv & Hvs & ->)%Forall2_cons_inv_l.
           apply IH in Hvs. congruence.
      * split; [done|].
        intros (v' & vs' & Hv & Hvs & ->)%Forall2_cons_inv_l.
        by apply IH in Hvs.
    + split; [done|].
      intros (v' & vs' & Hv & Hvs & ->)%Forall2_cons_inv_l. congruence.
Qed.

Lemma build_row_Raise gh_attr attrs e :
  build_row gh_attr attrs = Raise e →
  ∃ out_col, e = KeyError out_col ∧ out_col ∈ attrs ∧ gh_attr !! out_col = None.
Proof.
  induction attrs as [|a attrs IH]; simpl; [done|].
  destruct (gh_attr !! a) as [v|] eqn:Ha; simpl.
  - destruct (build_row gh_attr attrs) as [vs|e']; simpl; [done|].
    intros [= <-]. destruct (IH eq_refl) as (c & -> & Hin & Hc).
    exists c. repeat split; [by right|done].
  - intros [= <-]. exists a. repeat split; [by left|done].
Qed.

Lemma build_row_lookup gh_attr attrs row i out_col :
  build_row gh_attr attrs = Ok row →
  attrs !! i = Some out_col →
  row !! i = gh_attr !! out_col.
Proof.
  intros Hrow%build_row_Ok Hi.
  destruct (Forall2_lookup_l _ _ _ _ _ Hrow Hi) as (v & -> & Hv). done.
Qed.

Lemma build_row_complete_eq gh_attr attrs :
  (∀ out_col, out_col ∈ attrs → is_Some (gh_attr !! out_col)) →
  build_row gh_attr attrs
  = Ok (map (λ out_col, default VNone (gh_attr !! out_col)) attrs).
Proof.
  induction attrs as [|a attrs IH]; intros Hall; simpl; [done|].
  destruct (Hall a) as [v Hv]; [by left|]. rewrite Hv, IH; [done|].
  intros c Hc. apply Hall. by right.
Qed.

Lemma tracked_flags_Ok attrs idx key last gh_attr row :
  positioned attrs idx key last →
  build_row gh_attr attrs = Ok row →
  tracked_flags idx key last row
  = Ok (is_tracked last (gh_attr !! key),
        is_tracked last (gh_attr !! key) && is_same last (gh_attr !! key)).
Proof.
  intros Hpos Hrow. unfold tracked_flags, is_tracked, is_same.
  destruct (decide (last = "")) as [->|Hne].
  - by rewrite bool_decide_true.
  - rewrite (bool_decide_false _ Hne). simpl.
    destruct (Hpos Hne) as (i & -> & Hi). simpl.
    rewrite (build_row_lookup _ _ _ _ _ Hrow Hi).
    apply build_row_Ok in Hrow.
    destruct (Forall2_lookup_l _ _ _ _ _ Hrow Hi) as (v & _ & ->). simpl.
    destruct (truthy v); simpl; [|done].
    f_equal. f_equal. apply bool_decide_ext. split; congruence.
Qed.

Lemma row_outcome_Ok attrs idx last_date last_time gh_attr row :
  positioned attrs idx "date" last_date →
  positioned attrs idx "time" last_time →
  build_row gh_attr attrs = Ok row →
  row_outcome attrs idx last_date last_time gh_attr
  = Ok (if skipped_as_specified last_date last_time gh_attr then None
        else Some row).
Proof.
  intros Hd Ht Hrow. unfold row_outcome. rewrite Hrow. simpl.
  rewrite (tracked_flags_Ok _ _ _ _ _ _ Hd Hrow). simpl.
  rewrite (tracked_flags_Ok _ _ _ _ _ _ Ht Hrow). simpl.
  unfold skip_decision, skipped_as_specified.
  by destruct (is_tracked last_date _), (is_tracked last_time _),
    (is_same last_date _), (is_same last_time _).
Qed.

Lemma row_outcome_Raise attrs idx last_date last_time gh_attr e :
  positioned attrs idx "date" last_date →
  positioned attrs idx "time" last_time →
  row_outcome attrs idx last_date last_time gh_attr = Raise e →
  ∃ out_col, e = KeyError out_col ∧ out_col ∈ attrs ∧ gh_attr !! out_col = None.
Proof.
  intros Hd Ht. destruct (build_row gh_attr attrs) as [row|e'] eqn:Hrow.
  - rewrite (row_outcome_Ok _ _ _ _ _ _ Hd Ht Hrow). done.
  - unfold row_outcome. rewrite Hrow. simpl. intros [= <-].
    by apply build_row_Raise.
Qed.

Lemma write_rows_complete attrs idx last_date last_time gh_attrs :
  positioned attrs idx "date" last_date →
  positioned attrs idx "time" last_time →
  Forall (λ g, ∀ out_col, out_col ∈ attrs → is_Some (g !! out_col)) gh_attrs →
  write_rows attrs idx last_date last_time gh_attrs
  = (map (λ g, map (λ out_col, default VNone (g !! out_col)) attrs)
       (filter (λ g, skipped_as_specified last_date last_time g = false) gh_attrs),
     None).
Proof.
  intros Hd Ht. induction 1 as [|g gh_attrs Hg _ IH]; simpl; [done|].
  rewrite (row_outcome_Ok _ _ _ _ _ _ Hd Ht (build_row_complete_eq _ _ Hg)).
  rewrite IH, filter_cons.
  destruct (skipped_as_specified last_date last_time g); simpl; done.
Qed.

Lemma write_rows_sound attrs idx last_date last_time gh_attrs :
  positioned attrs idx "date" last_date →
  positioned attrs idx "time" last_time →
  let out := write_rows attrs idx last_date last_time gh_attrs in
  (∀ row, row ∈ out.1 →
     ∃ g, g ∈ gh_attrs ∧ Forall2 (λ c v, g !! c = Some v) attrs row)
  ∧ (∀ e, out.2 = Some e →
       ∃ g c, e = KeyError c ∧ g ∈ gh_attrs ∧ c ∈ attrs ∧ g !! c = None)
  ∧ (∀ g c, g ∈ gh_attrs → c ∈ attrs → g !! c = None → is_Some out.2).
Proof.
  intros Hd Ht. induction gh_attrs as [|g gh_attrs IH]; simpl.
  - split; [|split].
    + intros row H. by apply elem_of_nil in H.
    + done.
    + intros g c H. by apply elem_of_nil in H.
  - destruct (row_outcome attrs idx last_date last_time g) as [o|e] eqn:Ho.
    + destruct IH as (IH1 & IH2 & IH3).
      destruct (write_rows attrs idx last_date last_time gh_attrs)
        as [rows err]; simpl in *.
      assert (Hcomplete : ∃ row, build_row g attrs = Ok row).
      { destruct (build_row g attrs) as [row|e] eqn:Hb; [eauto|].
        unfold row_outcome in Ho. rewrite Hb in Ho. done. }
      destruct Hcomplete as [row Hrow].
      rewrite (row_outcome_Ok _ _ _ _ _ _ Hd Ht Hrow) in Ho.
      split; [|split].
      * intros r Hr.
        assert (r = row ∨ r ∈ rows) as [->|Hin].
        { destruct o; [apply elem_of_cons in Hr as [->|?]|]; auto.
          left. destruct (skipped_as_specified _ _ _); congruence. }
        -- exists g. split; [by left|]. by apply build_row_Ok.
        -- destruct (IH1 r Hin) as (g' & ? & ?). exists g'. split; [by right|done].
      * intros e He. destruct (IH2 e He) as (g' & c & ? & ? & ? & ?).
        exists g', c. repeat split; [done|by right|done..].
      * intros g' c [->|Hin]%elem_of_cons Hc Hnone.
        -- apply build_row_Ok in Hrow.
           apply list_elem_of_lookup in Hc as [i Hi].
           destruct (Forall2_lookup_l _ _ _ _ _ Hrow Hi) as (v & _ & Hv).
           congruence.
        -- by eapply IH3.
    + apply (row_outcome_Raise _ _ _ _ _ _ Hd Ht) in Ho as (c & -> & Hc & Hnone).
      simpl. split; [|split].
      * intros row H. by apply elem_of_nil in H.
      * intros e [= <-]. exists g, c. repeat split; [by left|done..].
      * eauto.
Qed.

Lemma last_value_cases idx fields key :
  (∃ v, last_value idx fields key = Ok v)
  ∨ last_value idx fields key = Raise IndexError.
Proof.
  unfold last_value. destruct (idx !! key) as [i|]; [|eauto].
  destruct (fields !! i); simpl; eauto.
Qed.

Lemma recover_last_Raise idx lines e :
  recover_last idx lines = Raise e → e = IndexError.
Proof.
  unfold recover_last. destruct (last lines) as [last_row|]; simpl;
    [|congruence].
  destruct (last_value_cases idx (Py.re_split Py.comma last_row) "date")
    as [[v ->] | ->]; simpl; [|congruence].
  destruct (last_value_cases idx (Py.re_split Py.comma last_row) "time")
    as [[v' ->] | ->]; simpl; congruence.
Qed.

Lemma last_value_positioned attrs fields key v :
  indexed key = true →
  last_value (build_idx attrs) fields key = Ok v →
  positioned attrs (build_idx attrs) key v.
Proof.
  intros Hkey Hv Hne. unfold last_value in Hv.
  destruct (build_idx attrs !! key) as [i|] eqn:Hi; [|congruence].
  exists i. split; [done|].
  rewrite build_idx_lookup in Hi by done. by apply last_index_Some in Hi as [? _].
Qed.

Lemma recover_last_positioned attrs lines last_date last_time :
  recover_last (build_idx attrs) lines = Ok (last_date, last_time) →
  positioned attrs (build_idx attrs) "date" last_date
  ∧ positioned attrs (build_idx attrs) "time" last_time.
Proof.
  unfold recover_last. destruct (last lines) as [last_row|]; simpl; [|done].
  destruct (last_value _ _ "date") as [d|] eqn:Hd; simpl; [|done].
  destruct (last_value _ _ "time") as [t|] eqn:Ht; simpl; [|done].
  intros [= <- <-].
  split; eapply last_value_positioned; eauto.
Qed.

Lemma positioned_empty attrs idx key : positioned attrs idx key "".
Proof. intros H. done. Qed.

Lemma never_skipped_without_last (gh_attrs : list (gmap string value)) :
  filter (λ g, skipped_as_specified "" "" g = false) gh_attrs = gh_attrs.
Proof.
  induction gh_attrs as [|g l IH]; [done|].
  rewrite filter_cons. unfold skipped_as_specified at 1, is_tracked.
  simpl. by rewrite IH.
Qed.

(** C8: a row is the list of the values found in the record under the
    configured keys, in the order of the configured columns, and every
    row that is written is such a row of one of the records. When a
    configured key is missing from one of the records, the call ends in
    an exception: an [IndexError] while the last line of the destination
    is read, or else the [KeyError] of a missing key while the rows are
    written; no value is made up for the missing key. Outside the append
    mode, records that have all the keys are all written, below the
    header. *)
Theorem missing_field_raises :
  (∀ gh_attr attrs row,
     build_row gh_attr attrs = Ok row ↔
     Forall2 (λ out_col v, gh_attr !! out_col = Some v) attrs row)
  ∧ (∀ out_cols is_time_series existing gh_attrs out row,
       write_to_csv out_cols is_time_series existing gh_attrs = Ok out →
       row ∈ rows out →
       ∃ g, g ∈ gh_attrs ∧ build_row g (map out_col_attr out_cols) = Ok row)
  ∧ (∀ out_cols is_time_series existing gh_attrs g c,
       g ∈ gh_attrs → c ∈ map out_col_attr out_cols → g !! c = None →
       write_to_csv out_cols is_time_series existing gh_attrs = Raise IndexError
       ∨ ∃ out g' c',
           write_to_csv out_cols is_time_series existing gh_attrs = Ok out
           ∧ raised out = Some (KeyError c')
           ∧ g' ∈ gh_attrs ∧ c' ∈ map out_col_attr out_cols ∧ g' !! c' = None)
  ∧ (∀ out_cols is_time_series existing gh_attrs,
       is_time_series = false ∨ existing = None →
       Forall (λ g, Forall (λ c, is_Some (g !! c)) (map out_col_attr out_cols))
         gh_attrs →
       write_to_csv out_cols is_time_series existing gh_attrs
       = Ok {| mode := ModeW;
               header_row := Some (map out_col_header out_cols);
               rows := map (λ g, map (λ c, default VNone (g !! c))
                                   (map out_col_attr out_cols)) gh_attrs;
               raised := None |}).
Proof.
  split; [exact build_row_Ok|]. split; [|split].
  - intros out_cols is_time_series existing gh_attrs out row.
    unfold write_to_csv.
    set (attrs := map out_col_attr out_cols) in *.
    assert (Hloop : ∀ f_mode idx last_date last_time,
      positioned attrs idx "date" last_date →
      positioned attrs idx "time" last_time →
      (let (rows, err) := write_rows attrs idx last_date last_time gh_attrs in
       Ok {| mode := f_mode;
             header_row := match f_mode with
                           | ModeW => Some (map out_col_header out_cols)
                           | ModeA => None
                           end;
             rows := rows; raised := err |}) = Ok out →
      row ∈ rows out →
      ∃ g, g ∈ gh_attrs ∧ build_row g attrs = Ok row).
    { intros f_mode idx last_date last_time Hd Ht.
      destruct (write_rows_sound attrs idx last_date last_time gh_attrs Hd Ht)
        as (Hrows & _ & _).
      destruct (write_rows attrs idx last_date last_time gh_attrs)
        as [rows err]; simpl in *.
      intros [= <-] Hrow. simpl in Hrow.
      destruct (Hrows row Hrow) as (g & Hg & Hall).
      exists g. split; [done|]. by apply build_row_Ok. }
    destruct is_time_series, existing as [lines|]; simpl;
      try (apply Hloop; apply positioned_empty).
    destruct (recover_last (build_idx attrs) lines) as [[last_date last_time]|e]
      eqn:Hrec; simpl; [|done].
    apply recover_last_positioned in Hrec as [Hd Ht]. by apply Hloop.
  - intros out_cols is_time_series existing gh_attrs g c Hg Hc Hnone.
    unfold write_to_csv.
    set (attrs := map out_col_attr out_cols) in *.
    assert (Hloop : ∀ f_mode idx last_date last_time,
      positioned attrs idx "date" last_date →
      positioned attrs idx "time" last_time →
      ∃ out g' c',
        (let (rows, err) := write_rows attrs idx last_date last_time gh_attrs in
         Ok {| mode := f_mode;
               header_row := match f_mode with
                             | ModeW => Some (map out_col_header out_cols)
                             | ModeA => None
                             end;
               rows := rows; raised := err |}) = Ok out
        ∧ raised out = Some (KeyError c')
        ∧ g' ∈ gh_attrs ∧ c' ∈ attrs ∧ g' !! c' = None).
    { intros f_mode idx last_date last_time Hd Ht.
      destruct (write_rows_sound attrs idx last_date last_time gh_attrs Hd Ht)
        as (_ & Herr & Hsome).
      destruct (write_rows attrs idx last_date last_time gh_attrs)
        as [rows err]; simpl in *.
      destruct (Hsome g c Hg Hc Hnone) as [e ->].
      destruct (Herr e eq_refl) as (g' & c' & -> & Hg' & Hc' & Hnone').
      eexists _, g', c'. split; [done|]. simpl. repeat split; done. }
    destruct is_time_series, existing as [lines|]; simpl;
      try (right; apply Hloop; apply positioned_empty).
    destruct (recover_last (build_idx attrs) lines) as [[last_date last_time]|e]
      eqn:Hrec; simpl.
    + right. apply recover_last_positioned in Hrec as [Hd Ht]. by apply Hloop.
    + left. by apply recover_last_Raise in Hrec as ->.
  - intros out_cols is_time_series existing gh_attrs Hmode Hall.
    assert (Hrows : write_rows (map out_col_attr out_cols) ∅ "" "" gh_attrs
                    = (map (λ g, map (λ c, default VNone (g !! c))
                                   (map out_col_attr out_cols)) gh_attrs, None)).
    { rewrite write_rows_complete; [|apply positioned_empty..|].
      - by rewrite never_skipped_without_last.
      - eapply Forall_impl; [exact Hall|]. intros g Hg. by apply Forall_forall. }
    unfold write_to_csv.
    destruct Hmode as [-> | ->]; [|destruct is_time_series]; simpl;
      by rewrite Hrows.
Qed.

Lemma missing_field_raises_witness :
  ∃ out g' c',
    write_to_csv ["number ; No."; "title"] false None
      [<["number" := VInt 1]> (<["title" := VStr "a"]> ∅);
       <["number" := VInt 2]> ∅] = Ok out
    ∧ raised out = Some (KeyError c')
    ∧ g' ∈ [<["number" := VInt 1]> (<["title" := VStr "a"]> ∅);
            <["number" := VInt 2]> (∅ : gmap string value)]
    ∧ c' ∈ map out_col_attr ["number ; No."; "title"]
    ∧ g' !! c' = None.
Proof.
  destruct (proj1 (proj2 (proj2 missing_field_raises))
              ["number ; No."; "title"] false None
              [<["number" := VInt 1]> (<["title" := VStr "a"]> ∅);
               <["number" := VInt 2]> ∅]
              (<["number" := VInt 2]> ∅) "title") as [H|H].
  - by_computation.
  - by_computation.
  - vm_compute. reflexivity.
  - vm_compute in H. discriminate H.
  - exact H.
Defined.

(** C3, as stated, fails: a date column whose key is [Date], or
    [run_date], has [date] in it when case is ignored, yet no last date
    is recovered for it; [re.search('date|time', s)] heeds case, and only
    the keys [date] and [time] themselves are looked up in [idx]. A record
    whose [Date] is that of the last line is therefore written again. *)
Lemma date_column_under_another_key_not_tracked :
  let lines := [with_newline "2024/01/01,3"] in
  recover_last (build_idx ["Date"; "num_iss_all"]) lines = Ok ("", "")
  ∧ recover_last_as_specified ["Date"; "num_iss_all"] lines
    = Ok ("2024/01/01", "")
  ∧ recover_last (build_idx ["run_date"; "num_iss_all"]) lines = Ok ("", "")
  ∧ recover_last_as_specified ["run_date"; "num_iss_all"] lines
    = Ok ("2024/01/01", "")
  ∧ write_to_csv ["Date"; "num_iss_all"] true (Some lines)
      [<["Date" := VStr "2024/01/01"]> (<["num_iss_all" := VInt 4]> ∅)]
    = Ok {| mode := ModeA; header_row := None;
            rows := [[VStr "2024/01/01"; VInt 4]]; raised := None |}.
Proof. repeat split; vm_compute; reflexivity. Qed.

Lemma last_value_field_at attrs fields key :
  indexed key = true →
  last_value (build_idx attrs) fields key = field_at (last_index key attrs) fields.
Proof.
  intros Hkey. unfold last_value, field_at. by rewrite build_idx_lookup.
Qed.

(** C3 (amended): in time series append mode with an existing
    destination, [last_date] and [last_time] come from the last line
    alone, split at the commas: [last_date] is the field at the position
    of the column whose key is exactly [date] (the last one, should the
    key be configured twice), and [''] if there is no such column;
    [last_time] likewise for the key [time]. A destination without a
    line, or a last line with too few fields, raises [IndexError]. *)
Theorem recover_last_by_exact_key (attrs : list string) :
  (∀ lines last_row,
     recover_last (build_idx attrs) (lines ++ [last_row])
     = (last_date ← field_at (last_index "date" attrs)
                       (Py.re_split Py.comma last_row);
        last_time ← field_at (last_index "time" attrs)
                       (Py.re_split Py.comma last_row);
        Ok (last_date, last_time)))
  ∧ recover_last (build_idx attrs) [] = Raise IndexError
  ∧ (∀ key i, last_index key attrs = Some i ↔
       attrs !! i = Some key ∧ ∀ j, (i < j)%nat → attrs !! j ≠ Some key)
  ∧ (∀ key, last_index key attrs = None ↔ key ∉ attrs).
Proof.
  split; [|split; [done|split]].
  - intros lines last_row. unfold recover_last.
    rewrite last_snoc. simpl.
    by rewrite !last_value_field_at.
  - intros key i. apply last_index_Some.
  - intros key. apply last_index_None.
Qed.

Lemma recover_last_by_exact_key_witness :
  recover_last (build_idx ["time"; "date"; "update"; "date"])
    ([with_newline "time,date,update,date"] ++ [with_newline "09:05:00,a,b , c"])
  = Ok ("c" +:+ String Py.LF "", "09:05:00")
  ∧ last_index "date" ["time"; "date"; "update"; "date"] = Some 3%nat.
Proof.
  destruct (recover_last_by_exact_key ["time"; "date"; "update"; "date"])
    as (Hrec & _ & Hsome & _).
  split.
  - rewrite Hrec. vm_compute. reflexivity.
  - apply Hsome. split; [reflexivity|].
    intros [|[|[|[|j]]]] Hj; try lia; simpl; discriminate.
Defined.

Lemma recover_last_unconfigured attrs lines last_date last_time :
  recover_last (build_idx attrs) lines = Ok (last_date, last_time) →
  ("date" ∉ attrs → last_date = "") ∧ ("time" ∉ attrs → last_time = "").
Proof.
  unfold recover_last. destruct (last lines) as [last_row|]; simpl; [|done].
  rewrite !last_value_field_at by done.
  destruct (field_at (last_index "date" attrs) _) as [d|] eqn:Hd; simpl; [|done].
  destruct (field_at (last_index "time" attrs) _) as [t|] eqn:Ht; simpl; [|done].
  intros [= <- <-]. split; intros Hno%last_index_None.
  - rewrite Hno in Hd. simpl in Hd. congruence.
  - rewrite Hno in Ht. simpl in Ht. congruence.
Qed.

Lemma append_rows out_cols lines gh_attrs last_date last_time :
  recover_last (build_idx (map out_col_attr out_cols)) lines
  = Ok (last_date, last_time) →
  Forall (λ g, Forall (λ c, is_Some (g !! c)) (map out_col_attr out_cols))
    gh_attrs →
  write_to_csv out_cols true (Some lines) gh_attrs
  = Ok {| mode := ModeA; header_row := None;
          rows := map (λ g, map (λ c, default VNone (g !! c))
                              (map out_col_attr out_cols))
                    (filter (λ g, skipped_as_specified last_date last_time g
                                  = false) gh_attrs);
          raised := None |}.
Proof.
  intros Hrec Hall. unfold write_to_csv. rewrite Hrec. simpl.
  apply recover_last_positioned in Hrec as [Hd Ht].
  rewrite (write_rows_complete _ _ _ _ _ Hd Ht); [done|].
  eapply Forall_impl; [exact Hall|]. intros g Hg. by apply Forall_forall.
Qed.

(** X12: in time series append mode with an existing destination, the rows
    written are those of the records that are not skipped, in order, and
    a record is skipped by these cases on the values that [recover_last]
    returns, where a column is tracked when a last value was recovered
    for it and the record has a value for it: date and time tracked,
    skipped exactly when both values equal the recovered ones; only the
    date tracked, exactly when the date does; only the time tracked,
    exactly when the time does; neither tracked, never. No last value is
    recovered for a column that is not configured. *)
Theorem append_skips_by_tracked_columns :
  (∀ out_cols lines gh_attrs last_date last_time,
     recover_last (build_idx (map out_col_attr out_cols)) lines
     = Ok (last_date, last_time) →
     Forall (λ g, Forall (λ c, is_Some (g !! c)) (map out_col_attr out_cols))
       gh_attrs →
     write_to_csv out_cols true (Some lines) gh_attrs
     = Ok {| mode := ModeA; header_row := None;
             rows := map (λ g, map (λ c, default VNone (g !! c))
                                 (map out_col_attr out_cols))
                       (filter (λ g, skipped_as_specified last_date last_time g
                                     = false) gh_attrs);
             raised := None |}
     ∧ ("date" ∉ map out_col_attr out_cols → last_date = "")
     ∧ ("time" ∉ map out_col_attr out_cols → last_time = ""))
  ∧ (∀ last_date last_time g,
       let date_tracked := is_tracked last_date (g !! "date") in
       let time_tracked := is_tracked last_time (g !! "time") in
       let skipped := skipped_as_specified last_date last_time g in
       (date_tracked = true → time_tracked = true →
        (skipped = true ↔ g !! "date" = Some (VStr last_date)
                          ∧ g !! "time" = Some (VStr last_time)))
       ∧ (date_tracked = true → time_tracked = false →
          (skipped = true ↔ g !! "date" = Some (VStr last_date)))
       ∧ (date_tracked = false → time_tracked = true →
          (skipped = true ↔ g !! "time" = Some (VStr last_time)))
       ∧ (date_tracked = false → time_tracked = false → skipped = false))
  ∧ (∀ g, g !! "date" = Some (VStr "2024/01/01") →
          skipped_as_specified "2024/01/01" "" g = true)
  ∧ (∀ g, g !! "date" = Some (VStr "2024/01/02") →
          skipped_as_specified "2024/01/01" "" g = false)
  ∧ write_to_csv ["date"; "num_iss_all ; total"] true
      (Some [with_newline "date,total"; with_newline "2024/01/01,5"])
      [summary_row "2024/01/01" 6; summary_row "2024/01/02" 7;
       summary_row "2024/01/01" 8]
    = Ok {| mode := ModeA; header_row := None;
            rows := [[VStr "2024/01/02"; VInt 7]]; raised := None |}.
Proof.
  split; [|split; [|split; [|split]]].
  - intros out_cols lines gh_attrs last_date last_time Hrec Hall.
    split; [|by apply (recover_last_unconfigured _ lines)].
    unfold write_to_csv. rewrite Hrec. simpl.
    apply recover_last_positioned in Hrec as [Hd Ht].
    rewrite (write_rows_complete _ _ _ _ _ Hd Ht); [done|].
    eapply Forall_impl; [exact Hall|]. intros g Hg. by apply Forall_forall.
  - intros last_date last_time g. simpl. unfold skipped_as_specified, is_same.
    repeat split; intros; repeat match goal with
      | H : is_tracked _ _ = _ |- _ => rewrite H in *; clear H
      end; try done;
      rewrite ?andb_true_iff, ?bool_decide_eq_true in *; tauto.
  - intros g Hg. unfold skipped_as_specified, is_tracked, is_same.
    rewrite Hg. reflexivity.
  - intros g Hg. unfold skipped_as_specified, is_tracked, is_same.
    rewrite Hg. reflexivity.
  - vm_compute. reflexivity.
Qed.

Lemma append_skips_by_tracked_columns_witness :
  let g1 : gmap string value :=
    <["date" := VStr "2024/01/01"]> (<["time" := VStr "10:00:00"]>
      (<["num_iss_all" := VInt 5]> ∅)) in
  let g2 : gmap string value :=
    <["date" := VStr "2024/01/01"]> (<["time" := VStr "11:30:00"]>
      (<["num_iss_all" := VInt 6]> ∅)) in
  write_to_csv ["date"; "time; at"; "num_iss_all"] true
    (Some [with_newline "2024/01/01,10:00:00,5"]) [g1; g2]
  = Ok {| mode := ModeA; header_row := None;
          rows := [[VStr "2024/01/01"; VStr "11:30:00"; VInt 6]];
          raised := None |}.
Proof.
  intros g1 g2.
  destruct (proj1 append_skips_by_tracked_columns
              ["date"; "time; at"; "num_iss_all"]
              [with_newline "2024/01/01,10:00:00,5"] [g1; g2]
              "2024/01/01" "10:00:00") as (H & _).
  - vm_compute. reflexivity.
  - by_computation.
  - rewrite H. vm_compute. reflexivity.
Defined.

(** C2: the code departs from the claim when the tracked column is the
    last configured one. The destination's last row has the date
    2024/01/01 and only the date is tracked, yet the summary row of a
    later run of that day is written, not skipped: the value recovered
    for the last column keeps the newline of the line and so equals no
    date. With the date in the first column the same row is skipped. *)
Theorem same_date_in_last_column_written :
  let today := {| year := 2024; month := 1; day := 1;
                  hour := 17; minute := 30; second := 0 |} in
  let c := {| num_iss_all := 6; num_iss_open := 4; num_iss_closed := 2 |} in
  strftime_date today = "2024/01/01"
  ∧ recover_last (build_idx ["num_iss_all"; "date"])
      [with_newline "num_iss_all,date"; with_newline "5,2024/01/01"]
    = Ok (with_newline "2024/01/01", "")
  ∧ write_to_csv ["num_iss_all"; "date"] true
      (Some [with_newline "num_iss_all,date"; with_newline "5,2024/01/01"])
      [summary_record today c]
    = Ok {| mode := ModeA; header_row := None;
            rows := [[VInt 6; VStr "2024/01/01"]]; raised := None |}
  ∧ write_to_csv ["date"; "num_iss_all"] true
      (Some [with_newline "date,num_iss_all"; with_newline "2024/01/01,5"])
      [summary_record today c]
    = Ok {| mode := ModeA; header_row := None; rows := []; raised := None |}.
Proof. repeat split; vm_compute; reflexivity. Qed.

(** ** The newline at the end of the last line *)

Lemma split_go_nonempty sep st cs : Py.split_go sep st cs ≠ [].
Proof. revert st. induction cs as [|c cs IH]; intros st; simpl; [done|].
  destruct (Py.ascii_eqb c sep); [done|apply IH]. Qed.

Lemma last_cons_nonempty {A} (x : A) l : l ≠ [] → last (x :: l) = last l.
Proof. by destruct l. Qed.

Lemma split_go_last_newline sep st cs :
  sep ≠ Py.LF →
  ∃ f, last (Py.split_go sep st (cs ++ [Py.LF])) = Some f
       ∧ (f = [] ∨ ∃ f', f = f' ++ [Py.LF]).
Proof.
  intros Hsep. revert st. induction cs as [|c cs IH]; intros st; simpl.
  - unfold Py.ascii_eqb. rewrite bool_decide_false by done.
    destruct st as [|cur ws]; simpl.
    + exists []. auto.
    + change (Py.is_space Py.LF) with true. simpl.
      exists (rev (ws ++ cur) ++ [Py.LF]). split; [done|]. right. eauto.
  - destruct (Py.ascii_eqb c sep).
    + rewrite last_cons_nonempty by apply split_go_nonempty. apply IH.
    + apply IH.
Qed.

Lemma split_go_blank_tail sep st cs w :
  Py.is_space sep = false →
  Forall (λ c, Py.is_space c = true) w →
  last (Py.split_go sep st (cs ++ sep :: w)) = Some [].
Proof.
  intros Hsep Hw.
  assert (Hblank : Py.split_go sep Py.AfterSep w = [[]]).
  { induction Hw as [|c w Hc _ IH]; simpl; [done|].
    unfold Py.ascii_eqb. rewrite bool_decide_false by congruence.
    by rewrite Hc. }
  revert st. induction cs as [|c cs IH]; intros st; simpl.
  - unfold Py.ascii_eqb. rewrite bool_decide_true by done.
    by rewrite Hblank.
  - destruct (Py.ascii_eqb c sep).
    + rewrite last_cons_nonempty by apply split_go_nonempty. apply IH.
    + apply IH.
Qed.

Lemma chars_with_newline s : Py.chars (with_newline s) = Py.chars s ++ [Py.LF].
Proof. unfold with_newline. by rewrite chars_app. Qed.

Lemma re_split_last_newline s :
  ∃ v, last (Py.re_split Py.comma (with_newline s)) = Some v
       ∧ (v = "" ∨ ∃ v', v = with_newline v').
Proof.
  unfold Py.re_split. rewrite chars_with_newline.
  destruct (split_go_last_newline Py.comma (Py.InField [] []) (Py.chars s))
    as (f & Hf & Hcase); [done|].
  exists (Py.text f). split.
  - change (map Py.text ?l) with (Py.text <$> l).
    by rewrite fmap_last, Hf.
  - destruct Hcase as [->|[f' ->]]; [by left|right].
    exists (Py.text f'). unfold with_newline. by rewrite text_app.
Qed.

Lemma no_newline_app a b : no_newline a → no_newline b → no_newline (a +:+ b).
Proof. unfold no_newline. rewrite chars_app, elem_of_app. tauto. Qed.

Lemma with_newline_has_newline v' : ¬ no_newline (with_newline v').
Proof.
  unfold no_newline. rewrite chars_with_newline, elem_of_app.
  intros H. apply H. right. by left.
Qed.

Lemma no_newline_digits d : no_newline (NilEmpty.string_of_uint d).
Proof.
  unfold no_newline.
  induction d; simpl; [by intros H; apply elem_of_nil in H|..];
    (intros [H|H]%elem_of_cons; [discriminate H | by apply IHd]).
Qed.

Lemma no_newline_decimal n : no_newline (decimal n).
Proof.
  unfold decimal, NilZero.string_of_uint.
  destruct (Nat.to_uint n) eqn:H; try (rewrite <- H; apply no_newline_digits).
  intros [H'|H']%elem_of_cons; [discriminate H' | by apply elem_of_nil in H'].
Qed.

Lemma no_newline_two_digits n : no_newline (two_digits n).
Proof.
  unfold two_digits. destruct (n <? 10)%nat.
  - apply no_newline_app; [|apply no_newline_decimal].
    intros [H|H]%elem_of_cons; [discriminate H | by apply elem_of_nil in H].
  - apply no_newline_decimal.
Qed.

Lemma no_newline_strftime today :
  no_newline (strftime_date today) ∧ no_newline (strftime_time today).
Proof.
  assert (Hsep : ∀ c : ascii, c ≠ Py.LF → no_newline (String c "")).
  { intros c Hc [H|H]%elem_of_cons; [done | by apply elem_of_nil in H]. }
  unfold strftime_date, strftime_time.
  split; repeat apply no_newline_app;
    auto using no_newline_decimal, no_newline_two_digits.
Qed.

Lemma summary_record_date today c :
  summary_record today c !! "date" = Some (VStr (strftime_date today)).
Proof. unfold summary_record. by rewrite lookup_insert_eq. Qed.

Lemma summary_record_time today c :
  summary_record today c !! "time" = Some (VStr (strftime_time today)).
Proof.
  unfold summary_record. rewrite lookup_insert_ne by done.
  by rewrite lookup_insert_eq.
Qed.

Lemma last_value_of_last_column attrs fields key v :
  indexed key = true →
  last attrs = Some key →
  length fields = length attrs →
  last fields = Some v →
  last_value (build_idx attrs) fields key = Ok v.
Proof.
  intros Hkey Hlast Hlen Hv.
  rewrite last_value_field_at by done.
  rewrite (last_index_last _ _ Hlast). simpl.
  rewrite last_lookup in Hv.
  replace (length attrs - 1)%nat with (pred (length fields)) by lia.
  by rewrite Hv.
Qed.

Lemma summary_record_free_of_newlines today c key x :
  key = "date" ∨ key = "time" →
  summary_record today c !! key = Some (VStr x) → no_newline x.
Proof.
  destruct (no_newline_strftime today) as [Hd Ht].
  intros [->| ->].
  - rewrite summary_record_date. by intros [= <-].
  - rewrite summary_record_time. by intros [= <-].
Qed.

(** C9, as stated, fails in two cases. When the last cell of the last
    line is blank, the separator pattern swallows the white space behind
    the last comma, the newline included, and the value recovered for the
    last column is the empty string. When the last line has more fields
    than there are columns, the value recovered for the last column is
    not the last field of the line: it carries no newline, and a new row
    of the same date compares equal to it and is skipped. *)
Lemma last_column_value_without_newline :
  (last ["num_iss_all"; "date"] = Some "date"
   ∧ recover_last (build_idx ["num_iss_all"; "date"]) [with_newline "5,"]
     = Ok ("", "")
   ∧ ¬ ∃ v', "" = with_newline v')
  ∧ (last ["date"] = Some "date"
     ∧ recover_last (build_idx ["date"]) [with_newline "2024/01/01,5"]
       = Ok ("2024/01/01", "")
     ∧ write_to_csv ["date"] true (Some [with_newline "2024/01/01,5"])
         [summary_row "2024/01/01" 6]
       = Ok {| mode := ModeA; header_row := None; rows := [];
               raised := None |}).
Proof.
  repeat split; try (vm_compute; reflexivity).
  intros [v' H]. by destruct v'.
Qed.

(** C9 (amended): let the date or time column be the last configured
    column and the last line of the destination, which ends in a newline,
    have as many fields as there are columns. The value recovered for
    that column is the last field of the split: it still ends in the
    newline, unless the last cell is blank, in which case it is empty. In
    both cases no value of a new row that is free of newlines compares
    equal to it, and the date and the time of the summary record of a
    time series run are free of newlines. *)
Theorem newline_kept_in_last_column (attrs : list string) (key s : string) :
  key = "date" ∨ key = "time" →
  last attrs = Some key →
  length (Py.re_split Py.comma (with_newline s)) = length attrs →
  ∃ v,
    last_value (build_idx attrs) (Py.re_split Py.comma (with_newline s)) key
    = Ok v
    ∧ last (Py.re_split Py.comma (with_newline s)) = Some v
    ∧ (v = "" ∨ ∃ v', v = with_newline v')
    ∧ (∀ a w, s = a +:+ "," +:+ w →
              Forall (λ c, Py.is_space c = true) (Py.chars w) → v = "")
    ∧ (∀ gh_attr row,
         build_row gh_attr attrs = Ok row →
         (∀ x, gh_attr !! key = Some (VStr x) → no_newline x) →
         ∃ is_key,
           tracked_flags (build_idx attrs) key v row = Ok (is_key, false))
    ∧ (∀ today c x,
         summary_record today c !! key = Some (VStr x) → no_newline x).
Proof.
  intros Hkey Hlast Hlen.
  assert (Hindexed : indexed key = true) by (by destruct Hkey as [->| ->]).
  destruct (re_split_last_newline s) as (v & Hv & Hcase).
  assert (Hval : last_value (build_idx attrs)
                   (Py.re_split Py.comma (with_newline s)) key = Ok v)
    by (by apply last_value_of_last_column).
  exists v. split; [done|]. split; [done|]. split; [done|].
  split; [|split].
  - intros a w -> Hw.
    assert (last (Py.re_split Py.comma (with_newline (a +:+ "," +:+ w)))
            = Some "") as Hblank.
    { unfold Py.re_split. rewrite chars_with_newline, !chars_app.
      change (Py.chars ",") with [Py.comma].
      change (map Py.text ?l) with (Py.text <$> l).
      rewrite fmap_last. rewrite <- !app_assoc. simpl.
      rewrite split_go_blank_tail; [done..|].
      apply Forall_app. split; [done|]. by repeat constructor. }
    congruence.
  - intros gh_attr row Hrow Hfree.
    rewrite (tracked_flags_Ok attrs _ _ _ gh_attr row);
      [|by eapply last_value_positioned|done].
    eexists. f_equal. f_equal.
    unfold is_tracked, is_same.
    destruct (decide (gh_attr !! key = Some (VStr v))) as [Hsame|Hdiff].
    + destruct Hcase as [->|[v' ->]].
      * by rewrite bool_decide_true.
      * by apply Hfree, with_newline_has_newline in Hsame.
    + rewrite (bool_decide_false _ Hdiff). apply andb_false_r.
  - intros today c x. by apply summary_record_free_of_newlines.
Qed.

Lemma newline_kept_in_last_column_witness :
  ∃ v,
    last_value (build_idx ["num_iss_all"; "date"])
      (Py.re_split Py.comma (with_newline "5,2024/01/01")) "date" = Ok v
    ∧ v = with_newline "2024/01/01"
    ∧ ∃ is_date,
        tracked_flags (build_idx ["num_iss_all"; "date"]) "date" v
          [VInt 6; VStr "2024/01/01"] = Ok (is_date, false).
Proof.
  destruct (newline_kept_in_last_column ["num_iss_all"; "date"] "date"
              "5,2024/01/01") as (v & Hv & _ & _ & _ & Hflags & _).
  - by left.
  - reflexivity.
  - vm_compute. reflexivity.
  - exists v. split; [exact Hv|]. split.
    + vm_compute in Hv. injection Hv as <-. vm_compute. reflexivity.
    + apply (Hflags (<["num_iss_all" := VInt 6]>
                       (<["date" := VStr "2024/01/01"]> ∅))).
      * vm_compute. reflexivity.
      * intros x Hx. vm_compute in Hx. injection Hx as <-.
        intros H. vm_compute in H.
        repeat (apply elem_of_cons in H as [H|H]; [discriminate H|]).
        by apply elem_of_nil in H.
Defined.

(** X13, the extent of the defect behind C2: with the date as the last
    configured column and no time column, a time series run on a
    destination whose last line ends in a newline and has one field per
    column writes its summary row whatever the date, also on the day of
    the last persisted row. *)
Theorem summary_row_written_when_date_is_last
    (out_cols lines : list string) (s : string) (today : datetime) (c : counts) :
  last (map out_col_attr out_cols) = Some "date" →
  "time" ∉ map out_col_attr out_cols →
  last lines = Some (with_newline s) →
  length (Py.re_split Py.comma (with_newline s))
  = length (map out_col_attr out_cols) →
  Forall (λ col, is_Some (summary_record today c !! col))
    (map out_col_attr out_cols) →
  write_to_csv out_cols true (Some lines) [summary_record today c]
  = Ok {| mode := ModeA; header_row := None;
          rows := [map (λ col, default VNone (summary_record today c !! col))
                     (map out_col_attr out_cols)];
          raised := None |}.
Proof.
  intros Hlast Hnotime Hline Hlen Hcomplete.
  set (attrs := map out_col_attr out_cols) in *.
  destruct (re_split_last_newline s) as (v & Hlastv & Hcase).
  assert (Hv : last_value (build_idx attrs)
                 (Py.re_split Py.comma (with_newline s)) "date" = Ok v)
    by (by apply last_value_of_last_column).
  assert (Hrec : recover_last (build_idx attrs) lines = Ok (v, "")).
  { unfold recover_last. rewrite Hline. simpl. rewrite Hv. simpl.
    rewrite last_value_field_at by done.
    apply last_index_None in Hnotime. by rewrite Hnotime. }
  rewrite (append_rows out_cols lines [summary_record today c] v "" Hrec)
    by (by constructor). f_equal. f_equal.
  rewrite filter_cons, filter_nil.
  assert (skipped_as_specified v "" (summary_record today c) = false) as ->;
    [|done].
  unfold skipped_as_specified.
  assert (is_tracked "" (summary_record today c !! "time") = false) as ->
    by done.
  assert (is_same v (summary_record today c !! "date") = false) as ->.
  { unfold is_same. apply bool_decide_eq_false. intros Hsame.
    assert (no_newline v) as Hno
      by (apply (summary_record_free_of_newlines today c "date"); auto).
    destruct Hcase as [->|[v' ->]].
    - rewrite summary_record_date in Hsame. injection Hsame as Hd.
      destruct today as [y m d h mi se]. unfold strftime_date, decimal in Hd.
      simpl in Hd. unfold NilZero.string_of_uint in Hd.
      destruct (Nat.to_uint y); discriminate Hd.
    - by apply with_newline_has_newline in Hno. }
  by destruct (is_tracked v _).
Qed.

Lemma summary_row_written_when_date_is_last_witness :
  let today := {| year := 2024; month := 1; day := 1;
                  hour := 9; minute := 30; second := 0 |} in
  let c := {| num_iss_all := 6; num_iss_open := 4; num_iss_closed := 2 |} in
  write_to_csv ["num_iss_all"; "date"] true
    (Some [with_newline "num_iss_all,date"; with_newline "5,2024/01/01"])
    [summary_record today c]
  = Ok {| mode := ModeA; header_row := None;
          rows := [[VInt 6; VStr "2024/01/01"]]; raised := None |}.
Proof.
  intros today c.
  rewrite (summary_row_written_when_date_is_last ["num_iss_all"; "date"]
             [with_newline "num_iss_all,date"; with_newline "5,2024/01/01"]
             "5,2024/01/01" today c);
    [vm_compute; reflexivity | reflexivity | by_computation | reflexivity
    | vm_compute; reflexivity | by_computation].
Defined.

(** * Further properties of [interpolate_nums] and the filters *)

Lemma sorted_set_ext l l' :
  (∀ z : Z, z ∈ l ↔ z ∈ l') → Py.sorted_set l = Py.sorted_set l'.
Proof.
  intros H. unfold Py.sorted_set.
  assert ((list_to_set l : gset Z) = list_to_set l') as ->; [|done].
  apply set_eq. intros z. by rewrite !elem_of_list_to_set.
Qed.

(** X1: the result of [interpolate_nums] depends on the set of its tokens
    only. Two token lists that hold the same tokens, in whatever order and
    however often repeated, give the same list of numbers, or both raise
    [ValueError]. *)
Theorem interpolate_nums_of_token_set (a b : list string) :
  (∀ tok, tok ∈ a ↔ tok ∈ b) →
  interpolate_nums a = interpolate_nums b.
Proof.
  intros Hab. unfold interpolate_nums.
  destruct (interpolate_loop a []) as [oa|ea] eqn:Ha;
    destruct (interpolate_loop b []) as [ob|eb] eqn:Hb; simpl.
  - f_equal. apply sorted_set_ext. intros z.
    apply interpolate_loop_returns in Ha as [_ Ha], Hb as [_ Hb].
    rewrite Ha, Hb. split; intros [?|(t & Ht & ?)]; auto; right; exists t;
      (split; [by apply Hab|done]).
  - apply interpolate_loop_returns in Ha as [Ha _].
    apply interpolate_loop_raises in Hb as [_ Hb]. destruct Hb.
    rewrite Forall_forall in Ha |- *. intros t Ht. by apply Ha, Hab.
  - apply interpolate_loop_returns in Hb as [Hb _].
    apply interpolate_loop_raises in Ha as [_ Ha]. destruct Ha.
    rewrite Forall_forall in Hb |- *. intros t Ht. by apply Hb, Hab.
  - apply interpolate_loop_raises in Ha as [-> _].
    by apply interpolate_loop_raises in Hb as [-> _].
Qed.

Lemma interpolate_nums_of_token_set_witness :
  interpolate_nums ["3"; "1-2"; "3"] = interpolate_nums ["1-2"; "3"].
Proof.
  apply interpolate_nums_of_token_set.
  intros tok. rewrite !elem_of_cons, elem_of_nil. tauto.
Defined.

(** ** Integers in and out of their decimal notation *)

Lemma int_digits_pos d acc :
  Py.int_digits (Z.pos acc) (Py.chars (NilEmpty.string_of_uint d))
  = Some (Z.pos (Pos.of_uint_acc d acc)).
Proof.
  revert acc. induction d; intros acc; simpl; [done|..];
    match goal with
    | |- context [Pos.of_uint_acc d ?x] => rewrite <- (IHd x)
    end; f_equal; try digit_value; lia.
Qed.

Lemma int_digits_zero d :
  Py.int_digits 0 (Py.chars (NilEmpty.string_of_uint d)) = Some (Z.of_uint d).
Proof.
  unfold Z.of_uint.
  induction d; simpl; [done|exact IHd|..]; apply (int_digits_pos d).
Qed.

Lemma int_of_uint d : Py.int (NilZero.string_of_uint d) = Ok (Z.of_uint d).
Proof.
  unfold Py.int, Py.int_opt, NilZero.string_of_uint.
  destruct d as [|d|d|d|d|d|d|d|d|d|d]; [done|..];
    (rewrite strip_by_solid;
     [| eapply Forall_impl; [apply digits_of_uint|];
        intros c Hc; by apply digit_not_int_space]);
    simpl; unfold Z.of_uint; simpl Pos.of_uint;
    match goal with
    | |- context [Py.int_digits ?z] =>
        let k := eval vm_compute in z in change z with k
    end.
  - pose proof (int_digits_zero d) as H. unfold Z.of_uint in H. by rewrite H.
  - by rewrite (int_digits_pos d 1).
  - by rewrite (int_digits_pos d 2).
  - by rewrite (int_digits_pos d 3).
  - by rewrite (int_digits_pos d 4).
  - by rewrite (int_digits_pos d 5).
  - by rewrite (int_digits_pos d 6).
  - by rewrite (int_digits_pos d 7).
  - by rewrite (int_digits_pos d 8).
  - by rewrite (int_digits_pos d 9).
Qed.

Lemma str_of_nonnegative z :
  0 ≤ z → ∃ d, Py.str_of_int z = NilZero.string_of_uint d ∧ Z.of_uint d = z.
Proof.
  intros Hz. unfold Py.str_of_int.
  pose proof (DecimalZ.of_to z) as Hr.
  destruct z as [|p|p]; [| |lia]; simpl in *.
  - by exists (Decimal.D0 Decimal.Nil).
  - eauto.
Qed.

Lemma uint_solid d :
  Forall (λ c, Py.is_space c = false ∧ c ≠ Py.dash)
    (Py.chars (NilZero.string_of_uint d)).
Proof.
  assert (Hd : ∀ d, Forall (λ c, Py.is_space c = false ∧ c ≠ Py.dash)
                      (Py.chars (NilEmpty.string_of_uint d))).
  { intros d'. eapply Forall_impl; [apply digits_of_uint|].
    intros c Hc. by destruct (digit_solid c Hc) as (? & ? & _). }
  unfold NilZero.string_of_uint. destruct d; try apply Hd.
  repeat constructor; done.
Qed.

Lemma expand_uint_token d :
  expand_token (NilZero.string_of_uint d) = Ok [Z.of_uint d].
Proof.
  unfold expand_token.
  assert (Py.has_dash (NilZero.string_of_uint d) = false) as ->.
  { unfold Py.has_dash. apply not_true_is_false.
    intros (c & Hin & Hc)%existsb_exists.
    pose proof (uint_solid d) as Hs. rewrite Forall_forall in Hs.
    apply list_elem_of_In, Hs in Hin as [_ Hne].
    unfold Py.ascii_eqb in Hc. by apply bool_decide_eq_true in Hc. }
  by rewrite int_of_uint.
Qed.

Lemma expand_negative_token p :
  expand_token (Py.str_of_int (Z.neg p)) = Raise ValueError.
Proof.
  unfold expand_token, Py.str_of_int. simpl.
  change (Py.has_dash _) with true. simpl.
  by rewrite split_go_after_solid by apply uint_solid.
Qed.

(** ** What the labels and the strings filter decide *)

Lemma starts_with_before p x c y :
  c ∉ p → Py.starts_with p (x ++ c :: y) = Py.starts_with p x.
Proof.
  revert x. induction p as [|a p IH]; intros x Hc; [done|].
  apply not_elem_of_cons in Hc as [Hne Hc].
  destruct x as [|b x]; simpl.
  - unfold Py.ascii_eqb. by rewrite bool_decide_false by congruence.
  - by rewrite IH.
Qed.

Lemma occurs_around p x c y :
  p ≠ [] → c ∉ p →
  Py.occurs p (x ++ c :: y) = Py.occurs p x || Py.occurs p y.
Proof.
  intros Hp Hc. induction x as [|b x IH].
  - destruct p as [|a p]; [done|]. simpl.
    apply not_elem_of_cons in Hc as [Hne _].
    unfold Py.ascii_eqb. by rewrite bool_decide_false by congruence.
  - change ((b :: x) ++ c :: y) with (b :: (x ++ c :: y)).
    cbn [Py.occurs]. rewrite IH.
    change (b :: x ++ c :: y) with ((b :: x) ++ c :: y).
    rewrite starts_with_before by done.
    by rewrite orb_assoc.
Qed.

Lemma all_in_join (l : list string) :
  Py.contains_all_ci (Py.join ";" l) = true
  ↔ ∃ s, s ∈ l ∧ Py.contains_all_ci s = true.
Proof.
  unfold Py.contains_all_ci.
  induction l as [|s l IH].
  - split; [done|]. intros (s & Hs & _). by apply elem_of_nil in Hs.
  - destruct l as [|s' l].
    + simpl. split.
      * intros H. exists s. split; [by left|done].
      * intros (t & ->%list_elem_of_singleton & H). done.
    + change (Py.join ";" (s :: s' :: l))
        with (s +:+ ";" +:+ Py.join ";" (s' :: l)).
      rewrite !chars_app, !map_app.
      change (map Py.lower (Py.chars ";")) with [Py.semicolon]. simpl app.
      rewrite occurs_around; [|done|].
      2:{ intros H. repeat (apply elem_of_cons in H as [H|H]; [discriminate H|]).
          by apply elem_of_nil in H. }
      rewrite orb_true_iff, IH. split.
      * intros [H|(t & Ht & H)]; [exists s|exists t]; (split; [|done]).
        -- by left.
        -- by right.
      * intros (t & [->|Ht]%elem_of_cons & H); eauto.
Qed.

Lemma labels_loop_decides fl names flag :
  (labels_loop fl names flag).1 = true
  ↔ (∀ n, n ∈ names → ("-" +:+ n) ∉ fl)
    ∧ (flag = true ∨ ∃ n, n ∈ names ∧ n ∈ fl).
Proof.
  revert flag. induction names as [|n names IH]; intros flag; simpl.
  - split.
    + intros ->. split; [|by left]. intros n Hn. by apply elem_of_nil in Hn.
    + intros [_ [H|(n & Hn & _)]]; [done|]. by apply elem_of_nil in Hn.
  - destruct (decide (("-" +:+ n) ∈ fl)) as [Hex|Hex].
    + rewrite (bool_decide_true _ Hex). simpl. split; [done|].
      intros [Hall _]. destruct (Hall n); [by left|done].
    + rewrite (bool_decide_false _ Hex).
      specialize (IH (if bool_decide (n ∈ fl) then true else flag)).
      destruct (labels_loop fl names _) as [b seen]. simpl in *.
      rewrite IH. split.
      * intros [Hall Hor]. split.
        -- intros m [->|Hm]%elem_of_cons; auto.
        -- destruct Hor as [Hf|(m & Hm & Hin)].
           ++ destruct (decide (n ∈ fl)) as [Hn|Hn].
              ** right. exists n. split; [by left|done].
              ** rewrite (bool_decide_false _ Hn) in Hf. by left.
           ++ right. exists m. split; [by right|done].
      * intros [Hall Hor]. split.
        -- intros m Hm. apply Hall. by right.
        -- destruct Hor as [->|(m & [->|Hm]%elem_of_cons & Hin)].
           ++ left. by destruct (bool_decide _).
           ++ left. by rewrite bool_decide_true.
           ++ right. eauto.
Qed.

(** X3: the labels filter leaves the flag true exactly when none of the
    record's label names is excluded, that is configured with ["-"] in
    front, and either some configured entry has [all] in it (in whatever
    case, and also as a piece of a longer entry) or one of the record's
    label names is configured as it is. A record without labels thus
    passes only in the first case. *)
Theorem labels_filter_decides (fl : list string) (attr_raw : attr) :
  labels_body fl attr_raw = true
  ↔ (∀ n, n ∈ label_names attr_raw → ("-" +:+ n) ∉ fl)
    ∧ ((∃ s, s ∈ fl ∧ Py.contains_all_ci s = true)
       ∨ ∃ n, n ∈ label_names attr_raw ∧ n ∈ fl).
Proof.
  unfold labels_body. rewrite labels_loop_decides, all_in_join. done.
Qed.

Lemma strings_loop_decides re_search l attr_raw flag :
  (strings_loop re_search l attr_raw flag).1 = true
  ↔ (∀ s0, s0 ∈ l → ¬ excludes re_search attr_raw s0)
    ∧ (flag = true ∨ ∃ s0, s0 ∈ l ∧ includes re_search attr_raw s0).
Proof.
  revert flag. induction l as [|s0 l IH]; intros flag; simpl.
  - split.
    + intros ->. split; [|by left]. intros n Hn. by apply elem_of_nil in Hn.
    + intros [_ [H|(n & Hn & _)]]; [done|]. by apply elem_of_nil in Hn.
  - assert (Hhit : re_search (if Py.starts_with_dash s0 then Py.lstrip_dash s0 else s0)
                     (title attr_raw)
                   || re_search (if Py.starts_with_dash s0 then Py.lstrip_dash s0 else s0)
                        (body attr_raw) = hits re_search s0 attr_raw) by done.
    rewrite Hhit.
    destruct (hits re_search s0 attr_raw) eqn:Hh;
      [destruct (Py.starts_with_dash s0) eqn:Hd|].
    + simpl. split; [done|]. intros [Hall _]. destruct (Hall s0); [by left|done].
    + specialize (IH true).
      destruct (strings_loop re_search l attr_raw true) as [b seen]. simpl in *.
      rewrite IH. split.
      * intros [Hall _]. split.
        -- intros t [->|Ht]%elem_of_cons; [|auto].
           intros [Hd' _]. congruence.
        -- right. exists s0. split; [by left|done].
      * intros [Hall _]. split; [|by left]. intros t Ht. apply Hall. by right.
    + specialize (IH flag).
      destruct (strings_loop re_search l attr_raw flag) as [b seen]. simpl in *.
      rewrite IH. split.
      * intros [Hall Hor]. split.
        -- intros t [->|Ht]%elem_of_cons; [|auto].
           intros [_ Hh']. congruence.
        -- destruct Hor as [?|(t & Ht & Hin)]; [by left|].
           right. exists t. split; [by right|done].
      * intros [Hall Hor]. split.
        -- intros t Ht. apply Hall. by right.
        -- destruct Hor as [?|(t & [->|Ht]%elem_of_cons & Hin)]; [by left| |].
           ++ destruct Hin as [_ Hin]. congruence.
           ++ right. eauto.
Qed.

(** X4: the strings filter leaves the flag true exactly when no
    configured exclusion entry is found in the title or the body and
    either some configured entry has [all] in it (in whatever case, and
    also as a piece of a longer entry) or some configured entry without
    the dash is found in the title or the body. *)
Theorem strings_filter_decides (re_search : string → string → bool)
    (fstr : list string) (attr_raw : attr) :
  strings_body re_search fstr attr_raw = true
  ↔ (∀ s0, s0 ∈ fstr → ¬ excludes re_search attr_raw s0)
    ∧ ((∃ s, s ∈ fstr ∧ Py.contains_all_ci s = true)
       ∨ ∃ s0, s0 ∈ fstr ∧ includes re_search attr_raw s0).
Proof.
  unfold strings_body. rewrite strings_loop_decides, all_in_join. done.
Qed.

(** ** The numbers filter on its YAML entries *)

Lemma no_all_in_digits d : Py.contains_all_ci (NilZero.string_of_uint d) = false.
Proof.
  unfold Py.contains_all_ci. apply not_true_is_false.
  intros (l & r & H)%occurs_spec.
  assert (Hin : "a"%char ∈ map Py.lower (Py.chars (NilZero.string_of_uint d))).
  { rewrite H. apply elem_of_app. right. by left. }
  apply list_elem_of_fmap in Hin as (c & Hc & Hin).
  assert (Hd : Forall (λ c, is_Some (Py.digit c))
                 (Py.chars (NilZero.string_of_uint d))).
  { unfold NilZero.string_of_uint. destruct d; try apply digits_of_uint.
    repeat constructor. by eexists. }
  rewrite Forall_forall in Hd. apply Hd in Hin as [z Hz].
  unfold Py.digit in Hz. unfold Py.lower in Hc.
  destruct (_ && _)%nat eqn:Hr in Hz; [|done].
  apply andb_true_iff in Hr as [H1%Nat.leb_le H2%Nat.leb_le].
  destruct (_ && _)%nat eqn:Hu in Hc.
  - apply andb_true_iff in Hu as [H3%Nat.leb_le H4%Nat.leb_le]. lia.
  - subst c. vm_compute in H2. lia.
Qed.

Lemma no_all_in_integers zs :
  Py.contains_all_ci (Py.join ";" (map str (map SInt zs))) = false.
Proof.
  apply not_true_is_false. intros (s & Hs & Hall)%all_in_join.
  apply list_elem_of_fmap in Hs as (v & -> & Hv).
  apply list_elem_of_fmap in Hv as (z & -> & Hz). simpl in Hall.
  unfold Py.str_of_int in Hall.
  pose proof (no_all_in_digits (match Z.to_int z with
                                | Decimal.Pos d | Decimal.Neg d => d end)) as Hd.
  unfold Py.contains_all_ci in *.
  destruct (Z.to_int z) as [d|d]; simpl in Hall, Hd; [congruence|].
  vm_compute Py.lower in Hall. simpl in Hall. congruence.
Qed.

Lemma interpolate_loop_nonnegative zs acc :
  Forall (λ z, 0 ≤ z) zs →
  interpolate_loop (map str (map SInt zs)) acc = Ok (acc ++ zs).
Proof.
  intros Hall. revert acc.
  induction Hall as [|z zs Hz _ IH]; intros acc; simpl.
  - by rewrite app_nil_r.
  - destruct (str_of_nonnegative z Hz) as (d & -> & <-).
    rewrite expand_uint_token. simpl. rewrite IH. by rewrite <- app_assoc.
Qed.

Lemma interpolate_loop_negative zs acc :
  ¬ Forall (λ z, 0 ≤ z) zs →
  interpolate_loop (map str (map SInt zs)) acc = Raise ValueError.
Proof.
  revert acc. induction zs as [|z zs IH]; intros acc Hn.
  - destruct Hn. constructor.
  - simpl. destruct (decide (0 ≤ z)) as [Hz|Hz].
    + destruct (str_of_nonnegative z Hz) as (d & -> & <-).
      rewrite expand_uint_token. simpl. apply IH.
      intros Hall. apply Hn. by constructor.
    + destruct z as [|p|p]; [lia..|].
      by rewrite expand_negative_token.
Qed.

Lemma numbers_all nums attr_raw flag :
  (∃ v, v ∈ nums ∧ Py.contains_all_ci (str v) = true) →
  numbers_body nums attr_raw flag = Ok flag.
Proof.
  intros (v & Hv & Hall). unfold numbers_body.
  assert (Py.contains_all_ci (Py.join ";" (map str nums)) = true) as ->; [|done].
  apply all_in_join. exists (str v). split; [|done].
  apply list_elem_of_fmap. eauto.
Qed.

(** X2: the numbers filter on the entries of its YAML list. When an
    entry has [all] in it, in whatever case, the flag is left as it is,
    whatever the other entries are. A list of integers none of which is
    negative keeps exactly the records whose number is one of them, so
    the empty list keeps none. A list with a negative integer raises
    [ValueError]: [str] writes it with a dash, which sends the token to
    the range branch. *)
Theorem numbers_filter_entries (attr_raw : attr) (flag : bool) :
  (∀ nums, (∃ v, v ∈ nums ∧ Py.contains_all_ci (str v) = true) →
     numbers_body nums attr_raw flag = Ok flag)
  ∧ (∀ zs, Forall (λ z, 0 ≤ z) zs →
       numbers_body (map SInt zs) attr_raw flag
       = Ok (bool_decide (number attr_raw ∈ zs)))
  ∧ (∀ zs, ¬ Forall (λ z, 0 ≤ z) zs →
       numbers_body (map SInt zs) attr_raw flag = Raise ValueError).
Proof.
  split; [intros nums; apply numbers_all|].
  split; intros zs H; unfold numbers_body; rewrite no_all_in_integers;
    cbn [negb]; unfold interpolate_nums.
  - rewrite interpolate_loop_nonnegative by done.
    cbn [mbind result_bind app]. f_equal.
    apply bool_decide_ext. by rewrite elem_of_sorted_set.
  - by rewrite interpolate_loop_negative.
Qed.

Lemma numbers_filter_entries_witness :
  numbers_body [SStr "x-y"; SStr "ALL"] (issue 7 [] "t" "b") true = Ok true
  ∧ numbers_body (map SInt [1; 7; 8]) (issue 7 [] "t" "b") true = Ok true
  ∧ numbers_body (map SInt []) (issue 7 [] "t" "b") true = Ok false
  ∧ numbers_body (map SInt [1; -7]) (issue 7 [] "t" "b") true = Raise ValueError.
Proof.
  destruct (numbers_filter_entries (issue 7 [] "t" "b") true) as (Hall & Hkeep & Hneg).
  split; [|split; [|split]].
  - apply Hall. exists (SStr "ALL"). split; [repeat constructor|reflexivity].
  - rewrite (Hkeep [1; 7; 8]); [reflexivity|]. repeat constructor; lia.
  - rewrite (Hkeep []); [reflexivity|]. constructor.
  - apply (Hneg [1; -7]).
    intros H. apply Forall_cons in H as [_ H]. apply Forall_cons in H as [H _]. lia.
Defined.

(** ** The loop of [collect_gh_attrs] *)

Lemma interpolate_nums_cases toks :
  (Forall token_ok toks ∧ ∃ ns, interpolate_nums toks = Ok ns)
  ∨ (¬ Forall token_ok toks ∧ interpolate_nums toks = Raise ValueError).
Proof.
  unfold interpolate_nums.
  destruct (interpolate_loop toks []) as [out|e] eqn:Hl; simpl.
  - left. apply interpolate_loop_returns in Hl as [? _]. eauto.
  - right. by apply interpolate_loop_raises in Hl as [-> ?].
Qed.

Lemma numbers_body_cases nums attr_raw flag :
  (∃ b, numbers_body nums attr_raw flag = Ok b
        ∧ (Py.contains_all_ci (Py.join ";" (map str nums)) = true
           ∨ Forall token_ok (map str nums)))
  ∨ (numbers_body nums attr_raw flag = Raise ValueError
     ∧ Py.contains_all_ci (Py.join ";" (map str nums)) = false
     ∧ ¬ Forall token_ok (map str nums)).
Proof.
  unfold numbers_body.
  destruct (Py.contains_all_ci _) eqn:Hall; cbn [negb].
  - left. eauto.
  - destruct (interpolate_nums_cases (map str nums))
      as [[Hok [ns Hns]] | [Hbad Hr]].
    + left. rewrite Hns. eexists. split; [reflexivity|]. by right.
    + right. rewrite Hr. by split.
Qed.

Lemma unreadable_numbers_dec cfg :
  unreadable_numbers cfg ∨ ¬ unreadable_numbers cfg.
Proof.
  destruct cfg as [fs|]; [|right; by intros (? & ? & ? & _)].
  destruct (f_numbers fs) as [nums|] eqn:Hnums;
    [|right; intros (? & ? & [= <-] & ? & _); congruence].
  destruct (numbers_body_cases nums (issue 0 [] "" "") true)
    as [(b & _ & Hgood) | (_ & Hall & Hbad)].
  - right. intros (? & ? & [= <-] & ? & ? & ?).
    destruct Hgood; congruence.
  - left. by exists fs, nums.
Qed.

Lemma should_keep_cases re_search cfg attr_raw :
  (∃ b, should_keep re_search cfg attr_raw = Ok b ∧ ¬ unreadable_numbers cfg)
  ∨ (should_keep re_search cfg attr_raw = Raise ValueError
     ∧ unreadable_numbers cfg).
Proof.
  destruct cfg as [fs|].
  2:{ left. exists true. split; [done|]. by intros (? & ? & ? & _). }
  unfold should_keep, run_filters, numbers_filter.
  destruct (f_numbers fs) as [nums|] eqn:Hnums.
  - destruct (numbers_body_cases nums attr_raw true)
      as [(b & Hb & Hgood) | (Hr & Hall & Hbad)].
    + left. rewrite Hb. cbn [mbind result_bind].
      destruct (labels_filter fs attr_raw b) as [b3 ran3].
      destruct (strings_filter re_search fs attr_raw b3) as [b4 ran4].
      exists b4. split; [reflexivity|].
      intros (? & ? & [= <-] & ? & ? & ?).
      destruct Hgood; congruence.
    + right. rewrite Hr. split; [reflexivity|]. by exists fs, nums.
  - left. cbn [mbind result_bind].
    destruct (labels_filter fs attr_raw true) as [b3 ran3].
    destruct (strings_filter re_search fs attr_raw b3) as [b4 ran4].
    exists b4. split; [reflexivity|].
    intros (? & ? & [= <-] & ? & _). congruence.
Qed.

Lemma collect_gh_attrs_Ok re_search cfg attrs_raw :
  ¬ unreadable_numbers cfg →
  collect_gh_attrs re_search cfg attrs_raw
  = Ok (filter (λ a, should_keep re_search cfg a = Ok true)
          (map collect_label_names attrs_raw)).
Proof.
  intros Hcfg. induction attrs_raw as [|r rest IH]; [done|].
  cbn [collect_gh_attrs map]. rewrite IH, filter_cons.
  destruct (should_keep_cases re_search cfg (collect_label_names r))
    as [(b & Hb & _) | [_ ?]]; [|done].
  rewrite Hb. simpl. destruct b.
  - by rewrite decide_True.
  - by rewrite decide_False.
Qed.

Lemma collect_gh_attrs_Raise re_search cfg attrs_raw :
  unreadable_numbers cfg → attrs_raw ≠ [] →
  collect_gh_attrs re_search cfg attrs_raw = Raise ValueError.
Proof.
  intros Hcfg Hne. destruct attrs_raw as [|r rest]; [done|].
  cbn [collect_gh_attrs].
  destruct (should_keep_cases re_search cfg (collect_label_names r))
    as [(b & _ & ?) | [-> _]]; done.
Qed.

(** X5: when [collect_gh_attrs] returns, its result is the list of the
    preprocessed records for which the filters leave the flag true, in
    the order in which they were fetched. Without the key [filters], or
    with none of the three filter keys in it, that is every record. *)
Theorem collect_gh_attrs_keeps (re_search : string → string → bool)
    (cfg : option filters) (attrs_raw : list fetched) (attrs : list attr) :
  collect_gh_attrs re_search cfg attrs_raw = Ok attrs →
  attrs = filter (λ a, should_keep re_search cfg a = Ok true)
            (map collect_label_names attrs_raw)
  ∧ attrs `sublist_of` map collect_label_names attrs_raw
  ∧ (cfg = None
     ∨ cfg = Some {| f_numbers := None; f_labels := None; f_strings := None |} →
     attrs = map collect_label_names attrs_raw).
Proof.
  intros Hrun.
  assert (Hattrs : attrs = filter (λ a, should_keep re_search cfg a = Ok true)
                             (map collect_label_names attrs_raw)).
  { destruct (unreadable_numbers_dec cfg) as [Hbad|Hgood].
    - destruct attrs_raw as [|r rest]; [by injection Hrun as <-|].
      by rewrite collect_gh_attrs_Raise in Hrun.
    - rewrite collect_gh_attrs_Ok in Hrun by done. by injection Hrun as <-. }
  split; [done|]. split.
  - rewrite Hattrs. apply sublist_filter.
  - intros Hcfg. rewrite Hattrs.
    assert (Hall : ∀ a, should_keep re_search cfg a = Ok true)
      by (intros a; by destruct Hcfg as [-> | ->]).
    generalize (map collect_label_names attrs_raw). intros l.
    induction l as [|a l IH]; [done|].
    by rewrite filter_cons, decide_True, IH.
Qed.

Lemma collect_gh_attrs_keeps_witness :
  let attrs_raw :=
    [{| raw_number := 1; raw_title := "a"; raw_body := ""; raw_state := "open";
        raw_labels := [{| name := "bug" |}] |};
     {| raw_number := 2; raw_title := "b"; raw_body := ""; raw_state := "open";
        raw_labels := [] |}] in
  let cfg := Some {| f_numbers := None; f_labels := Some ["bug"];
                     f_strings := None |} in
  [issue 1 ["bug"] "a" ""]
  = filter (λ a, should_keep Py.contains cfg a = Ok true)
      (map collect_label_names attrs_raw).
Proof.
  intros attrs_raw cfg.
  apply (collect_gh_attrs_keeps Py.contains cfg attrs_raw [issue 1 ["bug"] "a" ""]).
  vm_compute. reflexivity.
Defined.


(** X7: filtering the records page by page and joining the results, as
    the wrapper does, gives what filtering the joined pages gives; an
    exception on the first page comes before one on the second. *)
Theorem collect_gh_attrs_of_pages (re_search : string → string → bool)
    (cfg : option filters) (page1 page2 : list fetched) :
  collect_gh_attrs re_search cfg (page1 ++ page2)
  = (attrs1 ← collect_gh_attrs re_search cfg page1;
     attrs2 ← collect_gh_attrs re_search cfg page2;
     Ok (attrs1 ++ attrs2)).
Proof.
  induction page1 as [|r rest IH].
  - cbn [app collect_gh_attrs mbind result_bind].
    by destruct (collect_gh_attrs re_search cfg page2).
  - cbn [app collect_gh_attrs]. rewrite IH.
    destruct (should_keep re_search cfg (collect_label_names r)) as [[]|];
      cbn [mbind result_bind]; [| |done];
      destruct (collect_gh_attrs re_search cfg rest); cbn [mbind result_bind];
      try done;
      by destruct (collect_gh_attrs re_search cfg page2).
Qed.

(** * Further properties of the split, the columns and the counters *)

Lemma split_go_feed sep st a rest :
  sep ∉ a → Py.split_go sep st (a ++ rest) = Py.split_go sep (feed st a) rest.
Proof.
  revert st. induction a as [|c a IH]; intros st Hsep; [done|].
  apply not_elem_of_cons in Hsep as [Hne Hsep]. simpl.
  unfold Py.ascii_eqb. rewrite bool_decide_false by congruence.
  by apply IH.
Qed.

Lemma feed_app st a b : feed st (a ++ b) = feed (feed st a) b.
Proof. apply fold_left_app. Qed.

Lemma feed_in_field cur ws a :
  ∃ cur' ws', feed (Py.InField cur ws) a = Py.InField cur' ws'
    ∧ rev (ws' ++ cur') = rev (ws ++ cur) ++ a.
Proof.
  revert cur ws. induction a as [|c a IH]; intros cur ws; simpl.
  - exists cur, ws. by rewrite app_nil_r.
  - destruct (Py.is_space c).
    + destruct (IH cur (c :: ws)) as (cur' & ws' & -> & Heq).
      exists cur', ws'. split; [done|]. rewrite Heq. simpl.
      by rewrite <- app_assoc.
    + destruct (IH (c :: ws ++ cur) []) as (cur' & ws' & -> & Heq).
      exists cur', ws'. split; [done|]. rewrite Heq. simpl.
      by rewrite <- app_assoc.
Qed.

Lemma field_of_feed cur ws a :
  Py.field_of (feed (Py.InField cur ws) a) = rev (ws ++ cur) ++ a.
Proof. by destruct (feed_in_field cur ws a) as (cur' & ws' & -> & Heq). Qed.

Lemma feed_after_sep a :
  Py.field_of (feed Py.AfterSep a) = lstrip a.
Proof.
  induction a as [|c a IH]; [done|]. unfold lstrip. simpl.
  destruct (Py.is_space c); [exact IH|].
  by rewrite field_of_feed.
Qed.

Lemma tidy_push c st : tidy st → tidy (Py.push c st).
Proof.
  destruct st as [|cur ws]; simpl.
  - intros _. destruct (Py.is_space c) eqn:Hc; simpl; [done|]. by split.
  - intros [Hws Hcur]. destruct (Py.is_space c) eqn:Hc; simpl.
    + split; [by constructor|done].
    + by split.
Qed.

Lemma tidy_feed st a : tidy st → tidy (feed st a).
Proof.
  revert st. induction a as [|c a IH]; intros st Hst; [done|].
  simpl. by apply IH, tidy_push.
Qed.

Lemma drop_while_blank ws cs :
  Forall (λ c, Py.is_space c = true) ws →
  Py.drop_while Py.is_space (ws ++ cs) = Py.drop_while Py.is_space cs.
Proof. induction 1 as [|c ws Hc _ IH]; simpl; [done|]. by rewrite Hc. Qed.

Lemma field_before_sep_tidy st :
  tidy st → Py.field_before_sep st = rstrip (Py.field_of st).
Proof.
  destruct st as [|cur ws]; simpl; [done|]. intros [Hws Hcur].
  unfold rstrip, lstrip. rewrite rev_involutive.
  rewrite drop_while_blank by done.
  destruct cur as [|c cur]; [done|]. simpl. by rewrite Hcur.
Qed.

(** The fields of a text whose first field is [a]. *)
Lemma split_go_first sep a rest :
  sep ∉ a →
  Py.split_go sep (Py.InField [] []) (a ++ sep :: rest)
  = rstrip a :: Py.split_go sep Py.AfterSep rest.
Proof.
  intros Ha. rewrite split_go_feed by done. simpl.
  unfold Py.ascii_eqb. rewrite bool_decide_true by done.
  rewrite field_before_sep_tidy by (by apply tidy_feed).
  by rewrite field_of_feed.
Qed.

Lemma split_go_only sep a :
  sep ∉ a → Py.split_go sep (Py.InField [] []) a = [a].
Proof.
  intros Ha. rewrite <- (app_nil_r a) at 1.
  rewrite split_go_feed by done. simpl. by rewrite field_of_feed.
Qed.

Lemma split_go_next sep a rest :
  sep ∉ a →
  Py.split_go sep Py.AfterSep (a ++ sep :: rest)
  = strip a :: Py.split_go sep Py.AfterSep rest.
Proof.
  intros Ha. rewrite split_go_feed by done. simpl.
  unfold Py.ascii_eqb. rewrite bool_decide_true by done.
  rewrite field_before_sep_tidy by (by apply tidy_feed).
  by rewrite feed_after_sep.
Qed.

Lemma split_go_last_field sep a :
  sep ∉ a → Py.split_go sep Py.AfterSep a = [lstrip a].
Proof.
  intros Ha. rewrite <- (app_nil_r a) at 1.
  rewrite split_go_feed by done. simpl. by rewrite feed_after_sep.
Qed.

Lemma re_split_only sep s :
  sep ∉ Py.chars s → Py.re_split sep s = [s].
Proof.
  intros Hs. unfold Py.re_split. rewrite split_go_only by done.
  simpl. by rewrite text_chars.
Qed.

Lemma chars_sep (c : ascii) : Py.chars (String c "") = [c].
Proof. done. Qed.

(** X10: the key and the header of a configured column. An entry
    without a semicolon is both, as it is, its white space included. In
    an entry [a;b] the key is [a] without the white space at its end and
    the header is [b] without the white space at its beginning; white
    space in front of the key is kept. With a further semicolon the
    header is what stands between the first two, stripped on both sides,
    and the rest is not used. *)
Theorem out_col_key_and_header :
  (∀ out_col, Py.semicolon ∉ Py.chars out_col →
     out_col_attr out_col = out_col ∧ out_col_header out_col = out_col)
  ∧ (∀ a b, Py.semicolon ∉ Py.chars a → Py.semicolon ∉ Py.chars b →
       out_col_attr (a +:+ ";" +:+ b) = Py.text (rstrip (Py.chars a))
       ∧ out_col_header (a +:+ ";" +:+ b) = Py.text (lstrip (Py.chars b)))
  ∧ (∀ a b rest, Py.semicolon ∉ Py.chars a → Py.semicolon ∉ Py.chars b →
       out_col_attr (a +:+ ";" +:+ b +:+ ";" +:+ rest)
       = Py.text (rstrip (Py.chars a))
       ∧ out_col_header (a +:+ ";" +:+ b +:+ ";" +:+ rest)
         = Py.text (strip (Py.chars b)))
  ∧ out_col_attr "created_at ; Created" = "created_at"
  ∧ out_col_header "created_at ; Created" = "Created"
  ∧ out_col_attr " date ; Date" = " date".
Proof.
  split; [|split; [|split; [|by vm_compute]]].
  - intros out_col Hs. unfold out_col_attr, out_col_header.
    by rewrite re_split_only.
  - intros a b Ha Hb. unfold out_col_attr, out_col_header, Py.re_split.
    rewrite !chars_app. change (Py.chars ";") with [Py.semicolon].
    simpl app. rewrite split_go_first, split_go_last_field by done. done.
  - intros a b rest Ha Hb. unfold out_col_attr, out_col_header, Py.re_split.
    rewrite !chars_app. change (Py.chars ";") with [Py.semicolon].
    simpl app. rewrite split_go_first, split_go_next by done.
    pose proof (split_go_nonempty Py.semicolon Py.AfterSep (Py.chars rest)).
    destruct (Py.split_go _ _ (Py.chars rest)); done.
Qed.

Lemma out_col_key_and_header_witness :
  out_col_attr "title" = "title" ∧ out_col_header "title" = "title"
  ∧ out_col_attr ("created_at " +:+ ";" +:+ " Created")
    = Py.text (rstrip (Py.chars "created_at "))
  ∧ out_col_header ("created_at " +:+ ";" +:+ " Created")
    = Py.text (lstrip (Py.chars " Created")).
Proof.
  destruct out_col_key_and_header as (Hone & Htwo & _).
  destruct (Hone "title") as [H1 H2]; [by_computation|].
  destruct (Htwo "created_at " " Created") as [H3 H4]; [by_computation..|].
  split; [exact H1|]. split; [exact H2|]. split; [exact H3 | exact H4].
Defined.

Lemma field_at_Raise pos fields e :
  field_at pos fields = Raise e
  ↔ e = IndexError ∧ ∃ i, pos = Some i ∧ (length fields ≤ i)%nat.
Proof.
  unfold field_at. destruct pos as [i|].
  - destruct (fields !! i) as [v|] eqn:Hi; simpl.
    + split; [done|]. intros (_ & j & [= <-] & Hlen).
      apply lookup_lt_Some in Hi. lia.
    + apply lookup_ge_None in Hi. split.
      * intros [= <-]. eauto.
      * by intros [-> _].
  - split; [done|]. by intros (_ & i & ? & _).
Qed.

(** X11: [write_to_csv] raises before it opens the destination for
    writing exactly in time series mode with an existing destination
    that has no line, or whose last line has too few fields for the
    position of the column [date] or [time]; the exception is
    [IndexError]. *)
Theorem write_to_csv_raises (out_cols : list string) (is_time_series : bool)
    (existing : option (list string)) (gh_attrs : list (gmap string value))
    (e : exn) :
  write_to_csv out_cols is_time_series existing gh_attrs = Raise e
  ↔ e = IndexError ∧ is_time_series = true
    ∧ ∃ lines, existing = Some lines
      ∧ (lines = []
         ∨ ∃ last_row key i,
             last lines = Some last_row
             ∧ (key = "date" ∨ key = "time")
             ∧ last_index key (map out_col_attr out_cols) = Some i
             ∧ (length (Py.re_split Py.comma last_row) ≤ i)%nat).
Proof.
  unfold write_to_csv.
  set (attrs := map out_col_attr out_cols).
  assert (Hok : ∀ f_mode idx last_date last_time,
    (let (rows, err) := write_rows attrs idx last_date last_time gh_attrs in
     Ok {| mode := f_mode;
           header_row := match f_mode with
                         | ModeW => Some (map out_col_header out_cols)
                         | ModeA => None
                         end;
           rows := rows; raised := err |}) ≠ Raise e).
  { intros. by destruct (write_rows _ _ _ _ _). }
  destruct is_time_series, existing as [lines|]; cbn [mbind result_bind];
    try (split; [by intros ?%Hok | by intros (_ & ? & ? & ? & _)]).
  unfold recover_last.
  destruct (last lines) as [last_row|] eqn:Hlast; cbn [of_option mbind result_bind].
  2:{ apply last_None in Hlast as ->. split.
      - intros [= <-]. split; [done|]. split; [done|]. exists []. auto.
      - by intros (-> & _). }
  rewrite !last_value_field_at by done.
  destruct (field_at (last_index "date" attrs) _) as [d|e1] eqn:Hd;
    cbn [mbind result_bind].
  - destruct (field_at (last_index "time" attrs) _) as [t|e2] eqn:Ht;
      cbn [mbind result_bind].
    + split; [by intros ?%Hok|].
      intros (-> & _ & l & [= <-] & [-> | (r & key & i & Hr & Hkey & Hi & Hlen)]);
        [done|].
      rewrite Hlast in Hr. injection Hr as <-.
      destruct Hkey as [-> | ->].
      * assert (field_at (last_index "date" attrs)
                  (Py.re_split Py.comma last_row) = Raise IndexError) as Hx
          by (apply field_at_Raise; eauto).
        congruence.
      * assert (field_at (last_index "time" attrs)
                  (Py.re_split Py.comma last_row) = Raise IndexError) as Hx
          by (apply field_at_Raise; eauto).
        congruence.
    + apply field_at_Raise in Ht as (-> & i & Hi & Hlen). split.
      * intros [= <-]. split; [done|]. split; [done|]. exists lines.
        split; [done|]. right. exists last_row, "time", i. auto.
      * by intros (-> & _).
  - apply field_at_Raise in Hd as (-> & i & Hi & Hlen). split.
    + intros [= <-]. split; [done|]. split; [done|]. exists lines.
      split; [done|]. right. exists last_row, "date", i. auto.
    + by intros (-> & _).
Qed.

(** X8: the counting loop over the records of two fetches, the second
    appended to the first as in a time series run, gives for each of the
    three counters the sum of the counts of the two fetches. *)
Theorem count_issues_of_two_fetches (first second : list attr) :
  num_iss_all (count_issues (first ++ second))
  = num_iss_all (count_issues first) + num_iss_all (count_issues second)
  ∧ num_iss_open (count_issues (first ++ second))
    = num_iss_open (count_issues first) + num_iss_open (count_issues second)
  ∧ num_iss_closed (count_issues (first ++ second))
    = num_iss_closed (count_issues first) + num_iss_closed (count_issues second).
Proof.
  unfold count_issues. rewrite fold_left_app.
  set (zero := {| num_iss_all := 0; num_iss_open := 0; num_iss_closed := 0 |}).
  destruct (count_loop second (fold_left count_step first zero)) as (Ha & Ho & Hc).
  destruct (count_loop second zero) as (Ha' & Ho' & Hc').
  simpl in *. rewrite Ha, Ho, Hc, Ha', Ho', Hc'. simpl. lia.
Qed.

(** X9: when the state of every record is [open] or [closed], as GitHub
    has it, the number of all issues is the number of the open ones plus
    the number of the closed ones. *)
Theorem counts_of_open_and_closed (gh_attrs : list attr) :
  Forall (λ r, state r = "open" ∨ state r = "closed") gh_attrs →
  num_iss_all (count_issues gh_attrs)
  = num_iss_open (count_issues gh_attrs) + num_iss_closed (count_issues gh_attrs).
Proof.
  intros Hall. unfold count_issues.
  set (zero := {| num_iss_all := 0; num_iss_open := 0; num_iss_closed := 0 |}).
  assert (Hgen : ∀ c, num_iss_all c = num_iss_open c + num_iss_closed c →
    let c' := fold_left count_step gh_attrs c in
    num_iss_all c' = num_iss_open c' + num_iss_closed c').
  { induction Hall as [|r l Hr _ IH]; intros c Hc; [done|].
    simpl. apply IH. unfold count_step. simpl.
    destruct Hr as [-> | ->]; [change (Py.contains "open" "open") with true; change (Py.contains "closed" "open") with false | change (Py.contains "open" "closed") with false; change (Py.contains "closed" "closed") with true]; simpl; lia. }
  by apply Hgen.
Qed.

Lemma counts_of_open_and_closed_witness :
  num_iss_all (count_issues [issue 1 [] "a" ""; issue 2 [] "b" ""])
  = num_iss_open (count_issues [issue 1 [] "a" ""; issue 2 [] "b" ""])
    + num_iss_closed (count_issues [issue 1 [] "a" ""; issue 2 [] "b" ""]).
Proof.
  apply counts_of_open_and_closed. repeat constructor; by left.
Defined.

(** * Properties of [run_expandvars] and of the inheritance of [io] *)

Lemma chars_text cs : Py.chars (Py.text cs) = cs.
Proof. apply list_ascii_of_string_of_list_ascii. Qed.

(** X14: with [is_unix_path_delim], the default, the path that
    [run_expandvars] returns has no backslash: it is the expanded text
    with every backslash replaced by a slash, of the same length and the
    same in every other character, and the expanded text itself when
    that has no backslash. Without the flag it is the expanded text. *)
Theorem run_expandvars_unix_delim (expandvars : string → string) (s : string) :
  (Re.backslash ∉ Py.chars (run_expandvars expandvars s true))
  ∧ length (Py.chars (run_expandvars expandvars s true))
    = length (Py.chars (expandvars s))
  ∧ (∀ i c, Py.chars (expandvars s) !! i = Some c →
       Py.chars (run_expandvars expandvars s true) !! i
       = Some (if decide (c = Re.backslash) then Re.slash else c))
  ∧ (Re.backslash ∉ Py.chars (expandvars s) →
     run_expandvars expandvars s true = expandvars s)
  ∧ run_expandvars expandvars s false = expandvars s.
Proof.
  unfold run_expandvars, Re.sub_backslash.
  generalize (expandvars s). intros t. rewrite chars_text.
  split; [|split; [|split; [|split; [|done]]]].
  - intros (c & Hc & _)%list_elem_of_fmap. unfold Py.ascii_eqb in Hc.
    destruct (decide (c = Re.backslash)) as [->|Hne].
    + by rewrite bool_decide_true in Hc.
    + rewrite bool_decide_false in Hc by done. congruence.
  - apply length_map.
  - intros i c Hi. change (map ?f ?l) with (f <$> l).
    rewrite list_lookup_fmap, Hi. simpl. unfold Py.ascii_eqb.
    by destruct (decide (c = Re.backslash)) as [->|Hne];
      [rewrite bool_decide_true | rewrite bool_decide_false].
  - intros Hno. rewrite <- (text_chars t) at 2. f_equal.
    induction (Py.chars t) as [|c cs IH]; [done|].
    apply not_elem_of_cons in Hno as [Hne Hno]. simpl.
    unfold Py.ascii_eqb at 1. rewrite bool_decide_false by done.
    by rewrite IH.
Qed.

Lemma inherit_fold_lookup {V : Type} (own run : gmap string V) k :
  map_fold (λ k2 v io, match io !! k2 with
                       | Some _ => io
                       | None => <[k2:=v]> io
                       end) own run !! k
  = match own !! k with
    | Some v => Some v
    | None => run !! k
    end.
Proof.
  induction run as [|j v run Hj Hfold IH] using map_first_key_ind.
  - rewrite map_fold_empty, lookup_empty. by destruct (own !! k).
  - rewrite map_fold_insert_first_key by done.
    destruct (decide (k = j)) as [Heq|Hne].
    + subst k. specialize (IH). rewrite Hj in IH.
      destruct (map_fold _ own run !! j) as [u|] eqn:Hu.
      * rewrite Hu. destruct (own !! j); [done|]. done.
      * rewrite !lookup_insert_eq. by destruct (own !! j).
    + destruct (map_fold _ own run !! j) as [u|] eqn:Hu.
      * rewrite IH. by rewrite lookup_insert_ne.
      * rewrite !lookup_insert_ne by done. apply IH.
Qed.

(** X15: the inheritance of [io]. Without [io] under [run] the loop
    raises the [KeyError] of that key, whether or not the repo has its
    own [io]. Otherwise the repo's [io] holds afterwards, for every key,
    the repo's own value if it had one and else the value under [run]:
    the repo takes precedence, key by key. *)
Theorem inherit_io_precedence {V : Type} (run_io arepo_io : option (gmap string V)) :
  (run_io = None → inherit_io run_io arepo_io = Raise (KeyError "io"))
  ∧ (∀ run, run_io = Some run →
       ∃ io, inherit_io run_io arepo_io = Ok io
         ∧ ∀ k2, io !! k2 = match arepo_io ≫= (.!! k2) with
                            | Some v => Some v
                            | None => run !! k2
                            end).
Proof.
  split; [by intros ->|]. intros run ->. unfold inherit_io. simpl.
  eexists. split; [reflexivity|]. intros k2.
  rewrite inherit_fold_lookup. destruct arepo_io as [io|]; simpl; [done|].
  by destruct (run !! k2).
Qed.

Lemma inherit_io_precedence_witness :
  let run : gmap string Z := <["out_utc" := 9]> (<["out_encoding" := 1]> ∅) in
  let own : gmap string Z := <["out_utc" := 0]> ∅ in
  ∃ io, inherit_io (Some run) (Some own) = Ok io
    ∧ io !! "out_utc" = Some 0 ∧ io !! "out_encoding" = Some 1
    ∧ io !! "out_cols" = None.
Proof.
  intros run own.
  destruct (proj2 (inherit_io_precedence (Some run) (Some own)) run eq_refl)
    as (io & Hio & Hlookup).
  exists io. split; [exact Hio|].
  rewrite !Hlookup. repeat split; vm_compute; reflexivity.
Defined.

(** * Properties of [collect_gh_attrs_wrapper] *)

(** ** The last URL of the [Link] header *)

Lemma drop_while_all p (cs : list ascii) :
  Forall (λ c, p c = true) cs → Py.drop_while p cs = [].
Proof. induction 1 as [|c cs Hc _ IH]; simpl; [done|]. by rewrite Hc. Qed.

Lemma drop_while_none p (cs : list ascii) :
  Forall (λ c, p c = false) cs → Py.drop_while p cs = cs.
Proof. intros [|c l Hc Hl]; [done|]. simpl. by rewrite Hc. Qed.

Lemma drop_while_prefix p (a cs : list ascii) :
  Forall (λ c, p c = true) a → Py.drop_while p (a ++ cs) = Py.drop_while p cs.
Proof. induction 1 as [|c a Hc _ IH]; simpl; [done|]. by rewrite Hc. Qed.

Lemma strip_by_between p a l b :
  Forall (λ c, p c = true) a → Forall (λ c, p c = false) l →
  Forall (λ c, p c = true) b →
  Py.strip_by p (a ++ l ++ b) = l.
Proof.
  intros Ha Hl Hb. unfold Py.strip_by.
  rewrite drop_while_prefix by done.
  destruct Hl as [|c l Hc Hl].
  - change ([] ++ b) with b. by rewrite (drop_while_all p b Hb).
  - assert (Hcl : Forall (λ c, p c = false) (c :: l)) by (by constructor).
    change ((c :: l) ++ b) with (c :: (l ++ b)).
    rewrite drop_while_head by done.
    change (c :: (l ++ b)) with ((c :: l) ++ b).
    rewrite rev_app_distr, drop_while_prefix by (by apply List.Forall_rev).
    rewrite drop_while_none by (by apply List.Forall_rev).
    apply rev_involutive.
Qed.

Lemma lines_of_single cs : Py.LF ∉ cs → Re.lines_of cs = [cs].
Proof.
  induction cs as [|c cs IH]; [done|].
  intros [Hne Hcs]%not_elem_of_cons. simpl.
  unfold Py.ascii_eqb. rewrite bool_decide_false by done. by rewrite IH.
Qed.

Lemma digit_lower c : Re.is_digit c = true → Py.lower c = c ∧ c ≠ "p"%char ∧ c ≠ Py.LF.
Proof.
  unfold Re.is_digit, Py.digit, Py.lower.
  destruct (_ && _)%nat eqn:Hr; [|done]. intros _.
  apply andb_true_iff in Hr as [H1%Nat.leb_le H2%Nat.leb_le].
  split; [|split].
  - destruct (_ && _)%nat eqn:Hu; [|done].
    apply andb_true_iff in Hu as [H3%Nat.leb_le H4%Nat.leb_le]. lia.
  - intros ->. vm_compute in H2. lia.
  - intros ->. vm_compute in H1. lia.
Qed.

Lemma page_at_head c cs : Py.lower c ≠ "p"%char → Re.page_at (c :: cs) = false.
Proof.
  intros Hc. unfold Re.page_at. simpl.
  unfold Py.ascii_eqb at 1. rewrite bool_decide_false by congruence. done.
Qed.

Lemma last_page_cons c cs :
  Re.last_page cs = None → Py.lower c ≠ "p"%char → Re.last_page (c :: cs) = None.
Proof.
  intros Hcs Hc. cbn [Re.last_page]. rewrite Hcs.
  by rewrite page_at_head.
Qed.

Lemma last_page_digits ds :
  Forall (λ c, Re.is_digit c = true) ds → Re.last_page ds = None.
Proof.
  induction 1 as [|c ds Hc _ IH]; [done|].
  apply last_page_cons; [done|].
  destruct (digit_lower c Hc) as (-> & ? & _). done.
Qed.

Lemma last_page_at_end base ds :
  Forall (λ c, Re.is_digit c = true) ds → ds ≠ [] →
  Re.last_page (base ++ Py.chars "page=" ++ ds)
  = Some (base ++ Py.chars "page=", ds).
Proof.
  intros Hds Hne. induction base as [|c base IH].
  - change ([] ++ ?l) with l.
    change (Py.chars "page=" ++ ds)
      with ("p"%char :: "a"%char :: "g"%char :: "e"%char :: "="%char :: ds).
    cbn [Re.last_page].
    rewrite (last_page_digits ds Hds).
    rewrite !page_at_head by done.
    unfold Re.page_at. destruct ds as [|d ds]; [done|].
    apply Forall_cons in Hds as [Hd _]. simpl. by rewrite Hd.
  - change ((c :: base) ++ ?l) with (c :: (base ++ l)).
    cbn [Re.last_page]. by rewrite IH.
Qed.

Lemma str_of_int_digits n :
  0 ≤ n →
  Forall (λ c, Re.is_digit c = true) (Py.chars (Py.str_of_int n))
  ∧ Py.chars (Py.str_of_int n) ≠ [].
Proof.
  intros (d & -> & _)%str_of_nonnegative. split.
  - assert (Hd : Forall (λ c, is_Some (Py.digit c))
                   (Py.chars (NilZero.string_of_uint d))).
    { unfold NilZero.string_of_uint. destruct d; try apply digits_of_uint.
      repeat constructor. by eexists. }
    eapply Forall_impl; [exact Hd|]. intros c [z Hz].
    unfold Re.is_digit. by rewrite Hz.
  - unfold NilZero.string_of_uint. by destruct d.
Qed.

Lemma int_str_of_int n : 0 ≤ n → Py.int (Py.str_of_int n) = Ok n.
Proof.
  intros (d & -> & <-)%str_of_nonnegative. apply int_of_uint.
Qed.

Lemma sub_page_of_page_url (base : string) (n : Z) :
  Py.LF ∉ Py.chars base → 0 ≤ n →
  Re.sub_page_base (page_url base n) = base +:+ "page="
  ∧ Re.sub_page_num (page_url base n) = Py.str_of_int n.
Proof.
  intros Hbase Hn. destruct (str_of_int_digits n Hn) as [Hds Hne].
  unfold Re.sub_page_base, Re.sub_page_num, page_url.
  rewrite !chars_app.
  rewrite lines_of_single.
  2:{ rewrite !elem_of_app. intros [?|[H|H]]; [done| |].
      - repeat (apply elem_of_cons in H as [H|H]; [discriminate H|]).
        by apply elem_of_nil in H.
      - rewrite Forall_forall in Hds. apply Hds in H.
        by destruct (digit_lower _ H) as (_ & _ & ?). }
  cbn [map]. rewrite last_page_at_end by done. cbn [Re.unlines].
  rewrite drop_while_all by done. rewrite app_nil_r.
  by rewrite text_app, !text_chars.
Qed.

Lemma append_assoc (a b c : string) : (a +:+ b) +:+ c = a +:+ b +:+ c.
Proof.
  rewrite <- (text_chars ((a +:+ b) +:+ c)), <- (text_chars (a +:+ b +:+ c)).
  by rewrite !chars_app, app_assoc.
Qed.

(** X16: the two substitutions that take the [Link] header's last URL
    apart undo the making of a page URL. For a URL that ends in [page=]
    and a page number [n], whatever stands in front of it on the line
    (other parameters that end in [page=] included), the first gives the
    URL without the number and the second the number, which [int] reads
    as [n]; putting the number back gives the URL again. *)
Theorem page_url_round_trip (base : string) (n : Z) :
  Py.LF ∉ Py.chars base → 0 ≤ n →
  Re.sub_page_base (page_url base n) = base +:+ "page="
  ∧ Py.int (Re.sub_page_num (page_url base n)) = Ok n
  ∧ Re.sub_page_base (page_url base n) +:+ Py.str_of_int n = page_url base n.
Proof.
  intros Hbase Hn. destruct (sub_page_of_page_url base n Hbase Hn) as [-> ->].
  split; [done|]. split; [by apply int_str_of_int|apply append_assoc].
Qed.

Lemma page_url_round_trip_witness :
  Re.sub_page_base "https://h/issues?page=3&per_page=100"
  = "https://h/issues?page=3&per_page="
  ∧ Py.int (Re.sub_page_num "https://h/issues?page=3&per_page=100") = Ok 100
  ∧ "https://h/issues?page=3&per_page=" +:+ "100"
    = "https://h/issues?page=3&per_page=100".
Proof.
  destruct (page_url_round_trip "https://h/issues?page=3&per_" 100)
    as (H1 & H2 & H3); [by_computation | lia |].
  split; [exact H1|]. split; [exact H2|]. exact H3.
Defined.

Lemma rstrip_solid_end cs c :
  Py.is_space c = false → rstrip (cs ++ [c]) = cs ++ [c].
Proof.
  intros Hc. unfold rstrip, lstrip. rewrite rev_app_distr. simpl.
  rewrite Hc. simpl. by rewrite rev_involutive.
Qed.

Lemma plain_no c s :
  plain s → (c = Py.comma ∨ c = Py.semicolon) → c ∉ Py.chars s.
Proof.
  intros Hs Hc Hin. unfold plain in Hs. rewrite Forall_forall in Hs.
  destruct (Hs c Hin) as (_ & ? & ? & _). by destruct Hc.
Qed.

Lemma link_entry_chars u rel :
  Py.chars (link_entry u rel)
  = ("<"%char :: Py.chars u)
    ++ Py.chars (">; rel=" +:+ Re.quote +:+ rel) ++ [ascii_of_nat 34].
Proof.
  unfold link_entry. rewrite !chars_app. simpl. done.
Qed.

Lemma link_header_fields next_url last_url :
  plain next_url → plain last_url →
  Py.re_split Py.comma (link_header next_url last_url)
  = [link_entry next_url "next"; link_entry last_url "last"].
Proof.
  intros Hn Hl. unfold Py.re_split, link_header.
  rewrite !chars_app. change (Py.chars ", ") with [Py.comma; " "%char].
  change ([Py.comma; " "%char] ++ ?l) with (Py.comma :: " "%char :: l).
  assert (Hno : ∀ u rel, plain u → rel = "next" ∨ rel = "last" →
                  Py.comma ∉ Py.chars (link_entry u rel)).
  { intros u rel Hu Hrel. rewrite link_entry_chars.
    rewrite !elem_of_app, elem_of_cons. intros [[?|?]|[H|H]]; [done| | |].
    - revert H. apply plain_no; auto.
    - destruct Hrel as [-> | ->]; vm_compute in H;
        repeat (apply elem_of_cons in H as [H|H]; [discriminate H|]);
        by apply elem_of_nil in H.
    - apply list_elem_of_singleton in H. discriminate H. }
  rewrite split_go_first by auto.
  rewrite split_go_last_field.
  2:{ apply not_elem_of_cons. split; [done|]. auto. }
  rewrite (link_entry_chars next_url), app_assoc, rstrip_solid_end by done.
  rewrite <- app_assoc, <- link_entry_chars.
  unfold lstrip. simpl Py.drop_while.
  simpl. by rewrite !text_chars.
Qed.

Lemma link_entry_fields u :
  plain u →
  Py.re_split Py.semicolon (link_entry u "last")
  = ["<" +:+ u +:+ ">"; "rel=" +:+ Re.quote +:+ "last" +:+ Re.quote].
Proof.
  intros Hu. unfold Py.re_split, link_entry.
  rewrite !chars_app.
  change (Py.chars ">; rel=") with ([">"%char] ++ Py.semicolon :: Py.chars " rel=").
  rewrite <- !app_assoc.
  rewrite (app_assoc (Py.chars "<")), (app_assoc (Py.chars "<" ++ Py.chars u)).
  rewrite <- app_comm_cons.
  rewrite split_go_first.
  2:{ rewrite !elem_of_app. intros [[H|H]|H].
      - apply list_elem_of_singleton in H. discriminate H.
      - revert H. apply plain_no; auto.
      - apply list_elem_of_singleton in H. discriminate H. }
  rewrite split_go_last_field.
  2:{ vm_compute. intros H.
      repeat (apply elem_of_cons in H as [H|H]; [discriminate H|]).
      by apply elem_of_nil in H. }
  rewrite rstrip_solid_end by done.
  cbn [map]. f_equal.
  rewrite !text_app, !text_chars. done.
Qed.

Lemma strip_angles_entry u :
  plain u → Re.strip_angles ("<" +:+ u +:+ ">") = u.
Proof.
  intros Hu. unfold Re.strip_angles. rewrite !chars_app.
  rewrite strip_by_between; [apply text_chars|by repeat constructor| |by repeat constructor].
  eapply Forall_impl; [exact Hu|]. by intros c (_ & _ & _ & ?).
Qed.

Lemma plain_no_newline u : plain u → Py.LF ∉ Py.chars u.
Proof.
  intros Hu Hin. unfold plain in Hu. rewrite Forall_forall in Hu.
  by destruct (Hu _ Hin) as (? & _).
Qed.

(** ** The steps of the wrapper *)

Lemma bind_done {A B} (m : prog A) (k : A → prog B) w a w' :
  m w = (Done a, w') → (m ≫= k) w = k a w'.
Proof. intros H. unfold mbind, prog_bind. by rewrite H. Qed.

Lemma bind_halted {A B} (m : prog A) (k : A → prog B) w h w' :
  m w = (Halted h, w') → (m ≫= k) w = (Halted h, w').
Proof. intros H. unfold mbind, prog_bind. by rewrite H. Qed.

Lemma extended_nothing w : extended w [] [] [] = w.
Proof.
  destruct w as [d s p]. unfold extended, with_gh_attrs. simpl.
  rewrite !app_nil_r. by destruct d.
Qed.

Lemma extended_extended w a1 r1 l1 a2 r2 l2 :
  extended (extended w a1 r1 l1) a2 r2 l2 = extended w (a1 ++ a2) (r1 ++ r2) (l1 ++ l2).
Proof. unfold extended, with_gh_attrs. simpl. by rewrite !app_assoc. Qed.

Lemma print_extended line w : print line w = (Done tt, extended w [] [] [line]).
Proof.
  unfold print, extended, with_gh_attrs. simpl. rewrite !app_nil_r.
  destruct w as [d s p]. by destruct d.
Qed.

Lemma print_lines_extended notif w :
  print_lines notif w = (Done tt, extended w [] [] notif).
Proof.
  revert w. induction notif as [|line rest IH]; intros w; simpl.
  - by rewrite extended_nothing.
  - rewrite (bind_done _ _ _ _ _ (print_extended line w)).
    rewrite IH, extended_extended. done.
Qed.

Lemma warn_and_exit notif w :
  warn_to_stdout notif "-" 59 true true w
  = (Halted SystemExit, extended w [] [] (warning notif)).
Proof.
  unfold warn_to_stdout, warning.
  rewrite (bind_done _ _ _ _ _ (print_extended _ w)).
  rewrite (bind_done _ _ _ _ _ (print_lines_extended _ _)).
  rewrite (bind_done _ _ _ _ _ (print_extended _ _)).
  rewrite (bind_done _ _ _ _ _ (print_extended _ _)).
  unfold sys_exit. by rewrite !extended_extended.
Qed.

Lemma token_header_access arepo d w :
  has_access d → token_header arepo d w = (Done (authorization_of d), w).
Proof.
  intros (p & Hp & Ht). unfold token_header, authorization_of.
  rewrite Hp. cbn [of_option]. unfold mbind at 1, prog_bind; cbn [lift].
  destruct (yaml_truthy p); [|done].
  destruct (Ht eq_refl) as (t & -> & Htt). rewrite Htt. done.
Qed.

Lemma token_header_exit arepo d w p :
  is_repo_private d = Some p → yaml_truthy p = true →
  token d = None ∨ (∃ t, token d = Some t ∧ yaml_truthy t = false) →
  token_header arepo d w
  = (Halted SystemExit,
     extended w [] []
       (warning (("repo: [" +:+ arepo +:+ "]")
                 :: match token d with
                    | None => notif_no_token
                    | Some _ => notif_empty_token
                    end))).
Proof.
  intros Hp Hpt Ht. unfold token_header.
  rewrite Hp. cbn [of_option]. unfold mbind at 1, prog_bind; cbn [lift].
  rewrite Hpt.
  destruct Ht as [-> | (t & -> & ->)]; cbn [negb];
    by rewrite (bind_halted _ _ _ _ _ (warn_and_exit _ w)).
Qed.

Section Wrapper.

Variable respond : list request → request → response.
Variable re_search : string → string → bool.

Lemma requests_get_extended rq w :
  requests_get respond rq w = (Done (respond (sent w) rq), extended w [] [rq] []).
Proof.
  unfold requests_get, extended, with_gh_attrs. simpl. rewrite !app_nil_r.
  destruct w as [d s p]. by destruct d.
Qed.

Lemma collect_into_gh_attrs_Ok records w attrs :
  collect_gh_attrs re_search (predicates <$> repo_filters (yml_arepo w)) records
  = Ok attrs →
  collect_into_gh_attrs re_search records w = (Done tt, extended w attrs [] []).
Proof.
  intros H. unfold collect_into_gh_attrs.
  unfold mbind at 1, prog_bind, get_world. rewrite H.
  unfold mbind, prog_bind, lift, set_yml_arepo, extended, with_gh_attrs.
  by rewrite !app_nil_r.
Qed.

Lemma collect_into_gh_attrs_Raise records w e :
  collect_gh_attrs re_search (predicates <$> repo_filters (yml_arepo w)) records
  = Raise e →
  collect_into_gh_attrs re_search records w = (Halted (Uncaught e), w).
Proof.
  intros H. unfold collect_into_gh_attrs.
  unfold mbind at 1, prog_bind, get_world. rewrite H. done.
Qed.

Lemma wrapper_after_first_request arepo w :
  has_access (yml_arepo w) →
  collect_gh_attrs_wrapper respond re_search arepo w
  = (let d := yml_arepo w in
     let r0 := respond (sent w) (first_request w) in
     let w1 := extended w [] [first_request w] [] in
     if negb (ok r0) then
       (_ ← warn_to_stdout (notif_access_failed arepo (url d)) "-" 59 true true;
        sys_exit) w1
     else
       match link r0 with
       | Some l =>
           ('(next, last) ← lift (unpack2 (Py.re_split Py.comma l));
            '(last_url, last_rel) ← lift (unpack2 (Py.re_split Py.semicolon last));
            let last_url := Re.strip_angles last_url in
            let page_base := Re.sub_page_base last_url in
            last_page_num ← lift (Py.int (Re.sub_page_num last_url));
            let r_range := Py.range 1 (last_page_num + 1) in
            fetch_pages respond re_search page_base (authorization_of d)
              (state_of d) r_range) w1
       | None => collect_into_gh_attrs re_search (json r0) w1
       end).
Proof.
  intros Hacc. unfold collect_gh_attrs_wrapper.
  unfold mbind at 1, prog_bind, get_world.
  rewrite (bind_done _ _ _ _ _ (token_header_access arepo _ w Hacc)).
  rewrite (bind_done _ _ _ _ _ (requests_get_extended _ w)).
  cbv zeta. unfold first_request, request_to, state_of.
  destruct (negb _); [reflexivity|]. destruct (link _); reflexivity.
Qed.

End Wrapper.

Lemma lift_bind {A B} (r : result A) (k : A → prog B) w :
  (lift r ≫= k) w
  = match r with
    | Ok a => k a w
    | Raise e => (Halted (Uncaught e), w)
    end.
Proof. unfold mbind, prog_bind, lift. by destruct r. Qed.

Lemma extended_fields w attrs rqs lines :
  authorization_of (yml_arepo (extended w attrs rqs lines))
  = authorization_of (yml_arepo w)
  ∧ state_of (yml_arepo (extended w attrs rqs lines)) = state_of (yml_arepo w)
  ∧ repo_filters (yml_arepo (extended w attrs rqs lines))
    = repo_filters (yml_arepo w)
  ∧ url (yml_arepo (extended w attrs rqs lines)) = url (yml_arepo w)
  ∧ sent (extended w attrs rqs lines) = sent w ++ rqs
  ∧ gh_attrs (yml_arepo (extended w attrs rqs lines))
    = gh_attrs (yml_arepo w) ++ attrs.
Proof. done. Qed.

Section Wrapper.

Variable respond : list request → request → response.
Variable re_search : string → string → bool.

Lemma fetch_pages_appends page_base auth st pages w out w' :
  fetch_pages respond re_search page_base auth st pages w = (out, w') →
  ∃ attrs rqs, w' = extended w attrs rqs []
    ∧ Forall (λ rq, req_authorization rq = auth ∧ req_state rq = st) rqs.
Proof.
  revert w. induction pages as [|page rest IH]; intros w; cbn [fetch_pages].
  - intros [= <- <-]. exists [], []. by rewrite extended_nothing.
  - rewrite (bind_done _ _ _ _ _ (requests_get_extended respond _ w)).
    set (rq := {| req_url := _ |}). set (w1 := extended w [] [rq] []).
    destruct (collect_gh_attrs re_search
                (predicates <$> repo_filters (yml_arepo w1))
                (json (respond (sent w) rq))) as [attrs|e] eqn:Hc.
    + rewrite (bind_done _ _ _ _ _
                 (collect_into_gh_attrs_Ok re_search _ w1 attrs Hc)).
      intros (attrs' & rqs & -> & Hall)%IH.
      exists (attrs ++ attrs'), (rq :: rqs). unfold w1.
      rewrite !extended_extended. split; [done|]. by constructor.
    + rewrite (bind_halted _ _ _ _ _
                 (collect_into_gh_attrs_Raise re_search _ w1 e Hc)).
      intros [= <- <-]. exists [], [rq]. split; [done|]. by repeat constructor.
Qed.

Lemma wrapper_appends arepo w out w' :
  collect_gh_attrs_wrapper respond re_search arepo w = (out, w') →
  ∃ attrs rqs lines, w' = extended w attrs rqs lines
    ∧ sent_for (yml_arepo w) rqs
    ∧ (rqs = [] ∨ ∃ rest, rqs = first_request w :: rest)
    ∧ (out = Done tt → rqs ≠ []).
Proof.
  set (d := yml_arepo w).
  destruct (is_repo_private d) as [p|] eqn:Hp.
  2:{ unfold collect_gh_attrs_wrapper.
      unfold mbind at 1, prog_bind, get_world. fold d.
      assert (Hx : token_header arepo d w
                   = (Halted (Uncaught (KeyError "is_repo_private")), w))
        by (unfold token_header; by rewrite Hp).
      rewrite (bind_halted _ _ _ _ _ Hx).
      intros [= <- <-]. exists [], [], []. rewrite extended_nothing.
      split; [done|]. split; [constructor|]. split; [by left|done]. }
  assert (Hcases : has_access d
          ∨ (yaml_truthy p = true
             ∧ (token d = None ∨ ∃ t, token d = Some t ∧ yaml_truthy t = false))).
  { destruct (yaml_truthy p) eqn:Hpt.
    - destruct (token d) as [t|] eqn:Ht; [|right; auto].
      destruct (yaml_truthy t) eqn:Htt.
      + left. exists p. split; [done|]. intros _. eauto.
      + right. split; [done|]. right. eauto.
    - left. exists p. split; [done|]. congruence. }
  destruct Hcases as [Hacc | [Hpt Ht]].
  2:{ pose proof (token_header_exit arepo d w p Hp Hpt Ht) as Hx.
      unfold collect_gh_attrs_wrapper.
      unfold mbind at 1, prog_bind, get_world. fold d.
      rewrite (bind_halted _ _ _ _ _ Hx).
      intros [= <- <-]. eexists [], [], _. split; [done|].
      split; [constructor|]. split; [by left|done]. }
  rewrite wrapper_after_first_request by done. cbv zeta. fold d.
  set (rq0 := first_request w). set (w1 := extended w [] [rq0] []).
  assert (Hrq0 : sent_for d [rq0]) by (by repeat constructor).
  destruct (negb (ok (respond (sent w) rq0))).
  { rewrite (bind_halted _ _ _ _ _ (warn_and_exit _ w1)).
    intros [= <- <-]. unfold w1. rewrite extended_extended.
    eexists [], [rq0], _. split; [done|]. split; [done|].
    split; [right; by exists []|done]. }
  destruct (link (respond (sent w) rq0)) as [l|].
  2:{ destruct (collect_gh_attrs re_search
                  (predicates <$> repo_filters (yml_arepo w1))
                  (json (respond (sent w) rq0))) as [attrs|e] eqn:Hc.
      - rewrite (collect_into_gh_attrs_Ok re_search _ w1 attrs Hc).
        intros [= <- <-]. unfold w1. rewrite extended_extended.
        exists attrs, [rq0], []. split; [done|]. split; [done|].
        split; [right; by exists []|done].
      - rewrite (collect_into_gh_attrs_Raise re_search _ w1 e Hc).
        intros [= <- <-]. exists [], [rq0], []. split; [done|].
        split; [done|]. split; [right; by exists []|done]. }
  assert (Hhalt : ∀ h, (Halted h, w1) = (out, w') →
    ∃ attrs rqs lines, w' = extended w attrs rqs lines ∧ sent_for d rqs
      ∧ (rqs = [] ∨ ∃ rest, rqs = rq0 :: rest) ∧ (out = Done tt → rqs ≠ [])).
  { intros h [= <- <-]. exists [], [rq0], []. split; [done|].
    split; [done|]. split; [right; by exists []|done]. }
  rewrite lift_bind.
  destruct (unpack2 (Py.re_split Py.comma l)) as [[next last]|e]; [|apply Hhalt].
  rewrite lift_bind.
  destruct (unpack2 (Py.re_split Py.semicolon last)) as [[last_url last_rel]|e];
    [|apply Hhalt].
  rewrite lift_bind.
  destruct (Py.int _) as [last_page_num|e]; [|apply Hhalt].
  intros (attrs & rqs & -> & Hall)%fetch_pages_appends.
  unfold w1. rewrite extended_extended.
  exists attrs, (rq0 :: rqs), []. split; [done|].
  split; [by constructor|]. split; [right; by eexists|done].
Qed.

End Wrapper.

Lemma plain_page_url base n : plain base → 0 ≤ n → plain (page_url base n).
Proof.
  intros Hb Hn. unfold plain, page_url. rewrite !chars_app.
  apply Forall_app. split; [done|]. apply Forall_app. split.
  - by repeat constructor.
  - destruct (str_of_int_digits n Hn) as [Hds _].
    eapply Forall_impl; [exact Hds|]. intros c Hc.
    unfold Re.is_digit in Hc. destruct (Py.digit c) as [z|] eqn:Hz; [|done].
    assert (is_Some (Py.digit c)) as Hs by eauto.
    destruct (digit_solid c Hs) as (? & _ & _).
    unfold Py.digit in Hz. destruct (_ && _)%nat eqn:Hr in Hz; [|done].
    apply andb_true_iff in Hr as [H1%Nat.leb_le H2%Nat.leb_le].
    split; [done|].
    split; [intros ->; vm_compute in H1; lia|].
    split; [intros ->; vm_compute in H2; lia|].
    unfold Re.is_angle, Py.ascii_eqb.
    apply orb_false_iff. split; apply bool_decide_eq_false; intros ->;
      vm_compute in H2; lia.
Qed.

Section Wrapper.

Variable respond : list request → request → response.
Variable re_search : string → string → bool.

(** X17: for a private repo whose key [token] is missing, or holds a
    value that Python takes for false, the wrapper prints the name of
    the repo and the notification of the case (one for the missing key,
    one for the empty value) between two borders and then
    [Terminating.], and stops the program with [sys.exit()]; it sends no
    request and fetches no record. *)
Theorem private_repo_needs_token (arepo : string) (w : world) (p : yaml) :
  is_repo_private (yml_arepo w) = Some p → yaml_truthy p = true →
  token (yml_arepo w) = None
  ∨ (∃ t, token (yml_arepo w) = Some t ∧ yaml_truthy t = false) →
  collect_gh_attrs_wrapper respond re_search arepo w
  = (Halted SystemExit,
     extended w [] []
       (warning (("repo: [" +:+ arepo +:+ "]")
                 :: match token (yml_arepo w) with
                    | None => notif_no_token
                    | Some _ => notif_empty_token
                    end))).
Proof.
  intros Hp Hpt Ht.
  pose proof (token_header_exit arepo _ w p Hp Hpt Ht) as Hx.
  unfold collect_gh_attrs_wrapper.
  unfold mbind at 1, prog_bind, get_world.
  by rewrite (bind_halted _ _ _ _ _ Hx).
Qed.

(** X18: whatever its outcome, a call of the wrapper changes the state
    only by appending: records to [gh_attrs], requests to those sent,
    lines to those printed; the other entries of [yml[arepo]] stay as
    they are. Every request it sends carries the same header
    [Authorization] and the same parameter [state], those of
    [yml[arepo]]; the first one goes to the repo's URL; and a call that
    returns has sent at least that one. *)
Theorem wrapper_only_appends (arepo : string) (w : world) :
  ∃ attrs rqs lines,
    (collect_gh_attrs_wrapper respond re_search arepo w).2
    = extended w attrs rqs lines
    ∧ sent_for (yml_arepo w) rqs
    ∧ (rqs = [] ∨ ∃ rest, rqs = first_request w :: rest)
    ∧ ((collect_gh_attrs_wrapper respond re_search arepo w).1 = Done tt →
       rqs ≠ []).
Proof.
  destruct (collect_gh_attrs_wrapper respond re_search arepo w) as [out w'] eqn:H.
  apply wrapper_appends in H as (attrs & rqs & lines & -> & ? & ? & ?).
  by exists attrs, rqs, lines.
Qed.

(** X19: when the response to the first request is not [ok], the
    wrapper prints the notification of the failed access and stops the
    program with [sys.exit()], having sent that one request and fetched
    no record. *)
Theorem failed_access_exits (arepo : string) (w : world) :
  has_access (yml_arepo w) →
  ok (respond (sent w) (first_request w)) = false →
  collect_gh_attrs_wrapper respond re_search arepo w
  = (Halted SystemExit,
     extended w [] [first_request w]
       (warning (notif_access_failed arepo (url (yml_arepo w))))).
Proof.
  intros Hacc Hok. rewrite wrapper_after_first_request by done. cbv zeta.
  rewrite Hok. cbn [negb].
  rewrite (bind_halted _ _ _ _ _ (warn_and_exit _ _)).
  by rewrite extended_extended.
Qed.

(** X20: when the first response is [ok] and has no [Link] header, the
    wrapper sends no further request: it appends the records of that
    response that the filters keep, or ends in the exception of
    [collect_gh_attrs] with no record appended. *)
Theorem single_page_collected (arepo : string) (w : world) :
  has_access (yml_arepo w) →
  ok (respond (sent w) (first_request w)) = true →
  link (respond (sent w) (first_request w)) = None →
  collect_gh_attrs_wrapper respond re_search arepo w
  = match collect_gh_attrs re_search
            (predicates <$> repo_filters (yml_arepo w))
            (json (respond (sent w) (first_request w))) with
    | Ok attrs => (Done tt, extended w attrs [first_request w] [])
    | Raise e => (Halted (Uncaught e), extended w [] [first_request w] [])
    end.
Proof.
  intros Hacc Hok Hlink. rewrite wrapper_after_first_request by done. cbv zeta.
  rewrite Hok, Hlink. cbn [negb].
  destruct (collect_gh_attrs _ _ _) as [attrs|e] eqn:Hc.
  - rewrite (collect_into_gh_attrs_Ok re_search _
               (extended w [] [first_request w] []) attrs Hc).
    by rewrite extended_extended.
  - by rewrite (collect_into_gh_attrs_Raise re_search _
                  (extended w [] [first_request w] []) e Hc).
Qed.

Lemma fetch_pages_collected base d pages w attrs :
  authorization_of (yml_arepo w) = authorization_of d →
  state_of (yml_arepo w) = state_of d →
  repo_filters (yml_arepo w) = repo_filters d →
  pages_collected respond re_search (predicates <$> repo_filters d)
    (sent w) (map (λ k, request_to d (page_url base k)) pages) = Ok attrs →
  fetch_pages respond re_search (base +:+ "page=") (authorization_of d)
    (state_of d) pages w
  = (Done tt, extended w attrs (map (λ k, request_to d (page_url base k)) pages) []).
Proof.
  revert w attrs. induction pages as [|page rest IH]; intros w attrs Ha Hs Hf;
    cbn [fetch_pages map pages_collected].
  - intros [= <-]. by rewrite extended_nothing.
  - rewrite append_assoc. fold (page_url base page).
    fold (request_to d (page_url base page)).
    set (rq := request_to d (page_url base page)).
    destruct (collect_gh_attrs _ _ (json (respond (sent w) rq)))
      as [a1|e] eqn:Hc; cbn [mbind result_bind]; [|done].
    destruct (pages_collected _ _ _ _ _) as [more|e] eqn:Hmore;
      cbn [mbind result_bind]; [|done].
    intros [= <-].
    rewrite (bind_done _ _ _ _ _ (requests_get_extended respond _ w)).
    rewrite <- Hf in Hc.
    rewrite (bind_done _ _ _ _ _
               (collect_into_gh_attrs_Ok re_search _ (extended w [] [rq] []) a1 Hc)).
    rewrite extended_extended.
    rewrite (IH (extended w ([] ++ a1) ([rq] ++ []) ([] ++ [])) more); try done.
    by rewrite extended_extended.
Qed.

(** X21: when the first response is [ok] and its [Link] header names
    the next page and, as the last page, page [n] of a URL that ends in
    [page=n], the wrapper requests the pages 1 to [n] of that URL in
    this order, with the header and the parameter of the first request,
    and appends the records that the filters keep, page after page. The
    records of the first response itself are not used: page 1 is
    requested again, so [n] pages cost [n + 1] requests. *)
Theorem wrapper_fetches_every_page (arepo : string) (w : world)
    (next_url base : string) (n : Z) (attrs : list attr) :
  let d := yml_arepo w in
  let pages := map (λ k, request_to d (page_url base k)) (seqZ 1 n) in
  has_access d →
  ok (respond (sent w) (first_request w)) = true →
  link (respond (sent w) (first_request w))
  = Some (link_header next_url (page_url base n)) →
  plain next_url → plain base → 0 ≤ n →
  pages_collected respond re_search (predicates <$> repo_filters d)
    (sent w ++ [first_request w]) pages = Ok attrs →
  collect_gh_attrs_wrapper respond re_search arepo w
  = (Done tt, extended w attrs (first_request w :: pages) []).
Proof.
  intros d pages Hacc Hok Hlink Hnext Hbase Hn Hpages.
  assert (Hlast : plain (page_url base n)) by (by apply plain_page_url).
  rewrite wrapper_after_first_request by done. cbv zeta.
  rewrite Hok, Hlink. cbn [negb].
  rewrite link_header_fields by done. cbn [unpack2]. rewrite lift_bind.
  rewrite link_entry_fields by done. cbn [unpack2]. rewrite lift_bind.
  rewrite strip_angles_entry by done.
  destruct (sub_page_of_page_url base n) as [-> ->];
    [by apply plain_no_newline|done|].
  rewrite int_str_of_int by done. rewrite lift_bind.
  unfold Py.range. replace (n + 1 - 1) with n by lia.
  fold d. rewrite (fetch_pages_collected base d (seqZ 1 n) _ attrs); try done.
  by rewrite extended_extended.
Qed.

(** X22: when the [Link] header of the first response does not split at
    its commas into exactly two parts, or its second part does not split
    at its semicolons into exactly two, the unpacking raises
    [ValueError]: the wrapper ends in it after the first request, with no
    record fetched. The header of a page in the middle, with its four
    entries, is such a header. *)
Theorem malformed_link_raises (arepo : string) (w : world) (l : string) :
  has_access (yml_arepo w) →
  ok (respond (sent w) (first_request w)) = true →
  link (respond (sent w) (first_request w)) = Some l →
  length (Py.re_split Py.comma l) ≠ 2%nat
  ∨ (∃ next last, Py.re_split Py.comma l = [next; last]
       ∧ length (Py.re_split Py.semicolon last) ≠ 2%nat) →
  collect_gh_attrs_wrapper respond re_search arepo w
  = (Halted (Uncaught ValueError), extended w [] [first_request w] []).
Proof.
  intros Hacc Hok Hlink Hbad. rewrite wrapper_after_first_request by done.
  cbv zeta. rewrite Hok, Hlink. cbn [negb]. rewrite lift_bind.
  assert (Hun : ∀ (parts : list string), length parts ≠ 2%nat →
                  unpack2 parts = Raise ValueError).
  { intros [|a [|b [|c ?]]] H; done. }
  destruct Hbad as [Hlen | (next & last & -> & Hlen)].
  - by rewrite Hun.
  - cbn [unpack2]. rewrite lift_bind. by rewrite Hun.
Qed.

End Wrapper.

Lemma private_repo_needs_token_witness :
  let d := {| is_repo_private := Some (YBool true); token := Some (YStr "");
              is_time_series := None; url := url public_repo;
              repo_filters := None; gh_attrs := []; num_iss := None |} in
  collect_gh_attrs_wrapper one_page Py.contains "r" (fresh d)
  = (Halted SystemExit,
     extended (fresh d) [] []
       (warning (("repo: [" +:+ "r" +:+ "]") :: notif_empty_token))).
Proof.
  intros d.
  apply (private_repo_needs_token one_page Py.contains "r" (fresh d) (YBool true));
    [reflexivity | reflexivity | right; by exists (YStr "")].
Defined.

Lemma has_access_public : has_access public_repo.
Proof. exists (YBool false). split; [done|]. discriminate. Qed.

Lemma failed_access_exits_witness :
  collect_gh_attrs_wrapper refusing Py.contains "r" (fresh public_repo)
  = (Halted SystemExit,
     extended (fresh public_repo) [] [first_request (fresh public_repo)]
       (warning (notif_access_failed "r" (url public_repo)))).
Proof.
  apply (failed_access_exits refusing Py.contains "r" (fresh public_repo));
    [apply has_access_public | reflexivity].
Defined.

Lemma single_page_collected_witness :
  collect_gh_attrs_wrapper one_page Py.contains "r" (fresh public_repo)
  = (Done tt,
     extended (fresh public_repo)
       [collect_label_names (fetched_issue 1 "open");
        collect_label_names (fetched_issue 3 "open")]
       [first_request (fresh public_repo)] []).
Proof.
  rewrite (single_page_collected one_page Py.contains "r" (fresh public_repo));
    [reflexivity | apply has_access_public | reflexivity | reflexivity].
Defined.

Lemma wrapper_fetches_every_page_witness :
  collect_gh_attrs_wrapper two_pages Py.contains "r" (fresh public_repo)
  = (Done tt,
     extended (fresh public_repo)
       [collect_label_names (fetched_issue 1 "open");
        collect_label_names (fetched_issue 3 "open")]
       (first_request (fresh public_repo)
        :: map (λ k, request_to public_repo (page_url pages_base k)) (seqZ 1 2))
       []).
Proof.
  apply (wrapper_fetches_every_page two_pages Py.contains "r"
           (fresh public_repo) (page_url pages_base 2) pages_base 2).
  - apply has_access_public.
  - reflexivity.
  - vm_compute. reflexivity.
  - by_computation.
  - by_computation.
  - lia.
  - vm_compute. reflexivity.
Defined.

Lemma malformed_link_raises_witness :
  let l := link_entry "https://h/i?page=1" "prev" +:+ ", "
           +:+ link_header "https://h/i?page=3" "https://h/i?page=9" in
  let respond := λ (_ : list request) (_ : request),
                   {| ok := true; link := Some l; json := [] |} in
  collect_gh_attrs_wrapper respond Py.contains "r" (fresh public_repo)
  = (Halted (Uncaught ValueError),
     extended (fresh public_repo) [] [first_request (fresh public_repo)] []).
Proof.
  intros l respond.
  apply (malformed_link_raises respond Py.contains "r" (fresh public_repo) l);
    [apply has_access_public | reflexivity | reflexivity |].
  left. vm_compute. lia.
Defined.


(** * Properties of the fetching part of [run_arepo] *)

Lemma set_state_closed_cases w :
  (∃ fd, repo_filters (yml_arepo w) = Some fd
     ∧ set_state_closed w
       = (Done tt,
          {| yml_arepo :=
               {| is_repo_private := is_repo_private (yml_arepo w);
                  token := token (yml_arepo w);
                  is_time_series := is_time_series (yml_arepo w);
                  url := url (yml_arepo w);
                  repo_filters := Some {| state_key := Some (YStr "closed");
                                          predicates := predicates fd |};
                  gh_attrs := gh_attrs (yml_arepo w);
                  num_iss := num_iss (yml_arepo w) |};
             sent := sent w; printed := printed w |}))
  ∨ (repo_filters (yml_arepo w) = None
     ∧ set_state_closed w = (Halted (Uncaught (KeyError "filters")), w)).
Proof.
  unfold set_state_closed.
  rewrite (bind_done get_world _ w w w eq_refl), lift_bind.
  destruct (repo_filters (yml_arepo w)) as [fd|]; [left|right; split; reflexivity].
  exists fd. split; [done|]. reflexivity.
Qed.

Section Fetching.

Variable respond : list request → request → response.
Variable re_search : string → string → bool.

Lemma time_series_fetch arepo today w records w' :
  fetch_arepo respond re_search arepo true today w = (Done records, w') →
  ∃ first second rqs1 rqs2,
    gh_attrs (yml_arepo w') = gh_attrs (yml_arepo w) ++ first ++ second
    ∧ sent w' = sent w ++ rqs1 ++ rqs2
    ∧ rqs1 ≠ [] ∧ rqs2 ≠ []
    ∧ Forall (λ rq, req_state rq = state_of (yml_arepo w)) rqs1
    ∧ Forall (λ rq, req_state rq = Some (YStr "closed")) rqs2
    ∧ state_of (yml_arepo w') = Some (YStr "closed")
    ∧ authorization_of (yml_arepo w') = authorization_of (yml_arepo w)
    ∧ records = inr [summary_record today (count_issues (gh_attrs (yml_arepo w')))]
    ∧ num_iss (yml_arepo w') = Some (count_issues (gh_attrs (yml_arepo w'))).
Proof.
  unfold fetch_arepo.
  destruct (collect_gh_attrs_wrapper respond re_search arepo w)
    as [[[]|h] w1] eqn:H1.
  2:{ by rewrite (bind_halted _ _ _ _ _ H1). }
  rewrite (bind_done _ _ _ _ _ H1).
  apply wrapper_appends in H1 as (a1 & rqs1 & l1 & -> & Hs1 & _ & Hne1).
  set (w1 := extended w a1 rqs1 l1).
  destruct (set_state_closed_cases w1) as [(fd & Hfd & Hset) | [_ Hset]].
  2:{ by rewrite (bind_halted _ _ _ _ _ Hset). }
  rewrite (bind_done _ _ _ _ _ Hset). clear Hset.
  set (w2 := {| yml_arepo := _ |}).
  destruct (collect_gh_attrs_wrapper respond re_search arepo w2)
    as [[[]|h] w3] eqn:H2.
  2:{ by rewrite (bind_halted _ _ _ _ _ H2). }
  rewrite (bind_done _ _ _ _ _ H2).
  apply wrapper_appends in H2 as (a2 & rqs2 & l2 & -> & Hs2 & _ & Hne2).
  intros [= <- <-]. exists a1, a2, rqs1, rqs2. simpl.
  rewrite <- !app_assoc.
  repeat split; auto.
  - eapply Forall_impl; [exact Hs1|]. by intros rq [_ ?].
  - eapply Forall_impl; [exact Hs2|]. by intros rq [_ ?].
Qed.

Lemma fetch_appends arepo ts today w out w' :
  fetch_arepo respond re_search arepo ts today w = (out, w') →
  ∃ rqs, sent w' = sent w ++ rqs
    ∧ Forall (λ rq, req_state rq = state_of (yml_arepo w)
                    ∨ req_state rq = Some (YStr "closed")) rqs.
Proof.
  unfold fetch_arepo.
  destruct (collect_gh_attrs_wrapper respond re_search arepo w)
    as [out1 w1] eqn:H1.
  pose proof H1 as H1'.
  apply wrapper_appends in H1' as (a1 & rqs1 & l1 & -> & Hs1 & _ & _).
  assert (Hleft : Forall (λ rq, req_state rq = state_of (yml_arepo w)
                    ∨ req_state rq = Some (YStr "closed")) rqs1).
  { eapply Forall_impl; [exact Hs1|]. intros rq [_ ?]. by left. }
  destruct out1 as [[]|h].
  2:{ rewrite (bind_halted _ _ _ _ _ H1). intros [= <- <-]. by exists rqs1. }
  rewrite (bind_done _ _ _ _ _ H1).
  destruct ts.
  2:{ intros [= <- <-]. by exists rqs1. }
  set (w1 := extended w a1 rqs1 l1).
  destruct (set_state_closed_cases w1) as [(fd & Hfd & Hset) | [_ Hset]].
  2:{ rewrite (bind_halted _ _ _ _ _ Hset). intros [= <- <-]. by exists rqs1. }
  rewrite (bind_done _ _ _ _ _ Hset). clear Hset.
  set (w2 := {| yml_arepo := _ |}).
  destruct (collect_gh_attrs_wrapper respond re_search arepo w2)
    as [out2 w3] eqn:H2.
  pose proof H2 as H2'.
  apply wrapper_appends in H2' as (a2 & rqs2 & l2 & -> & Hs2 & _ & _).
  assert (Hall : Forall (λ rq, req_state rq = state_of (yml_arepo w)
                    ∨ req_state rq = Some (YStr "closed")) (rqs1 ++ rqs2)).
  { apply Forall_app. split; [done|].
    eapply Forall_impl; [exact Hs2|]. intros rq [_ ?]. by right. }
  destruct out2 as [[]|h].
  2:{ rewrite (bind_halted _ _ _ _ _ H2). intros [= <- <-].
      exists (rqs1 ++ rqs2). simpl. by rewrite <- app_assoc. }
  rewrite (bind_done _ _ _ _ _ H2).
  intros [= <- <-]. exists (rqs1 ++ rqs2). simpl. by rewrite <- app_assoc.
Qed.

Lemma init_arepo_keeps w :
  ∃ w', init_arepo w
        = (Done (match is_time_series (yml_arepo w) with
                 | Some v => yaml_truthy v
                 | None => false
                 end), w')
    ∧ sent w' = sent w ∧ printed w' = printed w
    ∧ gh_attrs (yml_arepo w') = []
    ∧ authorization_of (yml_arepo w') = authorization_of (yml_arepo w)
    ∧ state_of (yml_arepo w') = state_of (yml_arepo w)
    ∧ is_Some (repo_filters (yml_arepo w'))
    ∧ (predicates <$> repo_filters (yml_arepo w')
       = Some (match repo_filters (yml_arepo w) with
               | Some fd => predicates fd
               | None => {| f_numbers := None; f_labels := None;
                            f_strings := None |}
               end)).
Proof.
  unfold init_arepo, mbind, prog_bind, get_world, set_yml_arepo, mret, prog_ret.
  cbv beta iota zeta.
  eexists. split; [reflexivity|]. simpl.
  repeat split; try done.
  - unfold state_of. simpl. by destruct (repo_filters (yml_arepo w)).
  - by destruct (repo_filters (yml_arepo w)).
Qed.

End Fetching.

Section Fetching.

Variable respond : list request → request → response.
Variable re_search : string → string → bool.


(** X24: the initialisation of a pass keeps an existing [filters] dict,
    so the [closed] that a time series pass leaves under [state] is
    still there in a later pass over the same [yml], as the scheduled
    mode runs it: every request of the later pass, those of its first
    fetch included, asks for the closed issues only. *)
Theorem later_pass_asks_for_closed_only (arepo : string)
    (today today' : datetime) (w : world)
    (records : list attr + list (gmap string value)) :
  (fetch_arepo respond re_search arepo true today w).1 = Done records →
  let w1 := (fetch_arepo respond re_search arepo true today w).2 in
  let w2 := ((init_arepo ≫= λ is_time_series,
                fetch_arepo respond re_search arepo is_time_series today')
               w1).2 in
  ∃ rqs, sent w2 = sent w1 ++ rqs
    ∧ Forall (λ rq, req_state rq = Some (YStr "closed")) rqs.
Proof.
  destruct (fetch_arepo respond re_search arepo true today w) as [out w1] eqn:H.
  simpl. intros ->.
  apply time_series_fetch in H
    as (_ & _ & _ & _ & _ & _ & _ & _ & _ & _ & Hstate & _).
  destruct (init_arepo_keeps w1) as (w1' & Hinit & Hsent & _ & _ & _ & Hst & _).
  rewrite (bind_done _ _ _ _ _ Hinit).
  destruct (fetch_arepo respond re_search arepo _ today' w1') as [out w2] eqn:H2.
  apply fetch_appends in H2 as (rqs & Hrqs & Hall). simpl.
  exists rqs. split; [by rewrite Hrqs, Hsent|].
  eapply Forall_impl; [exact Hall|]. intros rq [Hrq|Hrq]; [|done].
  by rewrite Hrq, Hst.
Qed.

End Fetching.


Lemma later_pass_asks_for_closed_only_witness :
  let today := {| year := 2024; month := 1; day := 1;
                  hour := 9; minute := 30; second := 0 |} in
  let w1 := (fetch_arepo one_page Py.contains "r" true today
               (fresh public_repo)).2 in
  let w2 := ((init_arepo ≫= λ is_time_series,
                fetch_arepo one_page Py.contains "r" is_time_series today)
               w1).2 in
  ∃ rqs, sent w2 = sent w1 ++ rqs
    ∧ Forall (λ rq, req_state rq = Some (YStr "closed")) rqs.
Proof.
  intros today.
  apply (later_pass_asks_for_closed_only one_page Py.contains "r" today today
           (fresh public_repo)
           (inr [summary_record today
                   {| num_iss_all := 3; num_iss_open := 2;
                      num_iss_closed := 1 |}])).
  vm_compute. reflexivity.
Defined.

(** * Properties of [write_to_csv] on the text of the destination *)

(** ** The line ends as they are read *)

Lemma universal_newlines_crlf b x y :
  universal_newlines b (x ++ Csv.CR :: Py.LF :: y)
  = universal_newlines b x ++ Py.LF :: universal_newlines false y.
Proof.
  revert b. induction x as [|c x IH]; intros b; [done|].
  cbn [app universal_newlines].
  destruct (Py.ascii_eqb c Csv.CR); [by rewrite IH|].
  destruct (Py.ascii_eqb c Py.LF); [destruct b|]; by rewrite IH.
Qed.

Lemma universal_newlines_lf b x y :
  universal_newlines b (x ++ Py.LF :: y)
  = universal_newlines b (x ++ [Py.LF]) ++ universal_newlines false y.
Proof.
  revert b. induction x as [|c x IH]; intros b.
  - simpl. by destruct b.
  - cbn [app universal_newlines].
    destruct (Py.ascii_eqb c Csv.CR); [by rewrite IH|].
    destruct (Py.ascii_eqb c Py.LF); [destruct b|]; by rewrite IH.
Qed.

Lemma universal_newlines_ends b x :
  b = false ∨ x ≠ [] →
  ∃ t, universal_newlines b (x ++ [Py.LF]) = t ++ [Py.LF].
Proof.
  revert b. induction x as [|c x IH]; intros b Hb.
  - destruct Hb as [->|]; [|done]. by exists [].
  - cbn [app universal_newlines]. destruct (Py.ascii_eqb c Csv.CR).
    + destruct x as [|c' x].
      * by exists [].
      * destruct (IH true) as [t Ht]; [by right|].
        exists (Py.LF :: t). by rewrite Ht.
    + destruct (Py.ascii_eqb c Py.LF).
      * destruct (IH false) as [t Ht]; [by left|].
        destruct b; [by exists t|]. exists (Py.LF :: t). by rewrite Ht.
      * destruct (IH false) as [t Ht]; [by left|].
        exists (c :: t). by rewrite Ht.
Qed.

Lemma universal_newlines_bare b r :
  Forall (λ c, Py.is_space c = false) r → universal_newlines b r = r.
Proof.
  intros Hr. revert b. induction Hr as [|c r Hc _ IH]; intros b; [done|]. simpl.
  unfold Py.ascii_eqb.
  rewrite !bool_decide_false by (intros ->; discriminate Hc).
  by rewrite IH.
Qed.

Lemma keepends_line cur r :
  Py.LF ∉ r → keepends cur (r ++ [Py.LF]) = [rev cur ++ r ++ [Py.LF]].
Proof.
  revert cur. induction r as [|c r IH]; intros cur Hr.
  - done.
  - apply not_elem_of_cons in Hr as [Hc Hr]. cbn [app keepends].
    unfold Py.ascii_eqb. rewrite bool_decide_false by congruence.
    rewrite IH by done. simpl. by rewrite <- app_assoc.
Qed.

Lemma keepends_after cur t u :
  ∃ init, keepends cur (t ++ Py.LF :: u) = init ++ keepends [] u.
Proof.
  revert cur. induction t as [|c t IH]; intros cur.
  - by exists [rev (Py.LF :: cur)].
  - cbn [app keepends]. destruct (Py.ascii_eqb c Py.LF).
    + destruct (IH []) as [init ->]. by exists (rev (c :: cur) :: init).
    + apply IH.
Qed.

(** Behind a text that ends in a newline, the text [r] and the line
    terminator of the writer are read as the last line: [r] and a
    newline. *)
Lemma readlines_last p r :
  Forall (λ c, Py.is_space c = false) r →
  last (readlines (with_newline p +:+ Py.text (r ++ [Csv.CR; Py.LF])))
  = Some (with_newline (Py.text r)).
Proof.
  intros Hr. unfold readlines.
  rewrite chars_app, chars_text, chars_with_newline, <- app_assoc.
  cbn [app]. rewrite universal_newlines_lf.
  destruct (universal_newlines_ends false (Py.chars p)) as [t ->]; [by left|].
  rewrite universal_newlines_crlf, universal_newlines_bare by done.
  rewrite <- app_assoc. cbn [app universal_newlines].
  destruct (keepends_after [] t (r ++ [Py.LF])) as [init ->].
  rewrite keepends_line.
  - change (map Py.text ?l) with (Py.text <$> l).
    rewrite fmap_last, last_snoc. cbn [rev app]. unfold with_newline.
    simpl. by rewrite text_app.
  - intros Hin. rewrite Forall_forall in Hr. by apply Hr in Hin.
Qed.

(** ** The row as it is written and split *)

Lemma format_bare f : bare f → Csv.format f = f.
Proof.
  intros [_ Hf]. unfold Csv.format.
  assert (existsb Csv.special f = false) as ->; [|done].
  induction Hf as [|c f [Hc _] _ IH]; [done|]. simpl. by rewrite Hc, IH.
Qed.

Lemma writerow_bare row :
  row ≠ [] → Forall bare (map Csv.field row) →
  Csv.writerow row = Csv.joined (map Csv.field row) ++ [Csv.CR; Py.LF].
Proof.
  intros Hrow Hbare. unfold Csv.writerow.
  assert (map Csv.format (map Csv.field row) = map Csv.field row) as Hfmt.
  { induction Hbare as [|f fs Hf _ IH]; [done|].
    simpl. by rewrite format_bare, IH. }
  destruct (map Csv.field row) as [|f fs] eqn:Hfs.
  - by destruct row.
  - destruct f as [|c f].
    + apply Forall_cons in Hbare as [[Hne _] _]. done.
    + by rewrite Hfmt.
Qed.

Lemma bare_no_comma f : bare f → Py.comma ∉ f.
Proof.
  intros [_ Hf] Hin. rewrite Forall_forall in Hf.
  destruct (Hf _ Hin) as [Hs _]. discriminate Hs.
Qed.

Lemma bare_no_space f : bare f → Forall (λ c, Py.is_space c = false) f.
Proof. intros [_ Hf]. eapply Forall_impl; [exact Hf|]. by intros c [_ ?]. Qed.

Lemma lstrip_bare f rest : bare f → lstrip (f ++ rest) = f ++ rest.
Proof.
  intros [Hne Hf]. destruct f as [|c f]; [done|].
  apply Forall_cons in Hf as [[_ Hc] _]. unfold lstrip. simpl. by rewrite Hc.
Qed.

Lemma rstrip_bare f : bare f → rstrip f = f.
Proof.
  intros [Hne Hf]. unfold rstrip.
  destruct (rev f) as [|c f'] eqn:Hrev.
  - apply (f_equal (@rev ascii)) in Hrev. rewrite rev_involutive in Hrev.
    by subst f.
  - assert (Py.is_space c = false) as Hc.
    { rewrite Forall_forall in Hf. apply Hf.
      apply list_elem_of_In, in_rev. rewrite Hrev. by left. }
    unfold lstrip. simpl. rewrite Hc, <- Hrev. apply rev_involutive.
Qed.

Lemma strip_bare f : bare f → strip f = f.
Proof.
  intros Hf. unfold strip.
  rewrite <- (app_nil_r f) at 1. rewrite lstrip_bare, app_nil_r by done.
  by apply rstrip_bare.
Qed.

Lemma joined_cons f g rest :
  Csv.joined (f :: g :: rest) = f ++ Py.comma :: Csv.joined (g :: rest).
Proof. done. Qed.

Lemma split_after_sep fields :
  fields ≠ [] → Forall bare fields →
  Py.split_go Py.comma Py.AfterSep (Csv.joined fields ++ [Py.LF])
  = close_last fields.
Proof.
  intros Hne Hbare. induction Hbare as [|f fs Hf Hfs IH]; [done|].
  destruct fs as [|g fs].
  - cbn [Csv.joined close_last]. rewrite split_go_last_field.
    + by rewrite lstrip_bare.
    + rewrite elem_of_app. intros [Hin|Hin].
      * by apply bare_no_comma in Hin.
      * apply list_elem_of_singleton in Hin. discriminate Hin.
  - rewrite joined_cons, <- app_assoc. cbn [app].
    rewrite split_go_next by (by apply bare_no_comma).
    rewrite strip_bare by done. cbn [close_last]. f_equal. by apply IH.
Qed.

Lemma split_row fields :
  fields ≠ [] → Forall bare fields →
  Py.split_go Py.comma (Py.InField [] []) (Csv.joined fields ++ [Py.LF])
  = close_last fields.
Proof.
  intros Hne Hbare. destruct fields as [|f fs]; [done|].
  apply Forall_cons in Hbare as [Hf Hfs]. destruct fs as [|g fs].
  - cbn [Csv.joined close_last]. apply split_go_only.
    rewrite elem_of_app. intros [Hin|Hin].
    + by apply bare_no_comma in Hin.
    + apply list_elem_of_singleton in Hin. discriminate Hin.
  - rewrite joined_cons, <- app_assoc. cbn [app].
    rewrite split_go_first by (by apply bare_no_comma).
    rewrite rstrip_bare by done. cbn [close_last]. f_equal.
    by apply split_after_sep.
Qed.

Lemma joined_no_space fields :
  Forall bare fields → Forall (λ c, Py.is_space c = false) (Csv.joined fields).
Proof.
  induction 1 as [|f fs Hf _ IH]; [constructor|].
  destruct fs as [|g fs].
  - by apply bare_no_space.
  - rewrite joined_cons. apply Forall_app. split; [by apply bare_no_space|].
    by constructor.
Qed.

Lemma close_last_length fields : length (close_last fields) = length fields.
Proof.
  induction fields as [|f [|g fs] IH]; [done..|].
  change (close_last (f :: g :: fs)) with (f :: close_last (g :: fs)).
  cbn [length] in *. by rewrite IH.
Qed.

Lemma close_last_lookup fields i f :
  fields !! i = Some f →
  close_last fields !! i
  = Some (if bool_decide (S i = length fields) then f ++ [Py.LF] else f).
Proof.
  revert i. induction fields as [|f0 [|g fs] IH]; intros i Hi; [done|..].
  - destruct i as [|i]; [|done]. by injection Hi as ->.
  - destruct i as [|i].
    + injection Hi as ->. done.
    + change (close_last (f0 :: g :: fs)) with (f0 :: close_last (g :: fs)).
      change ((f0 :: g :: fs) !! S i) with ((g :: fs) !! i) in Hi.
      change ((f0 :: ?l) !! S i) with (l !! i). rewrite (IH i Hi).
      f_equal. cbn [length].
      repeat case_bool_decide; try done; lia.
Qed.

(** ** The last row as the next run reads it *)

Lemma with_newline_text f : with_newline (Py.text f) = Py.text (f ++ [Py.LF]).
Proof. unfold with_newline. by rewrite text_app. Qed.

Lemma recover_field attrs row key :
  indexed key = true → length row = length attrs →
  last_value (build_idx attrs)
    (map Py.text (close_last (map Csv.field row))) key
  = Ok (read_back attrs row key).
Proof.
  intros Hkey Hlen. rewrite last_value_field_at by done. unfold read_back.
  destruct (last_index key attrs) as [i|] eqn:Hi; [|done].
  apply last_index_Some in Hi as [Hi _].
  apply lookup_lt_Some in Hi. rewrite <- Hlen in Hi.
  destruct (lookup_lt_is_Some_2 row i Hi) as [v Hv].
  unfold field_at. change (map Py.text ?l) with (Py.text <$> l).
  rewrite list_lookup_fmap.
  rewrite (close_last_lookup _ i (Csv.field v))
    by (change (map Csv.field row) with (Csv.field <$> row);
        by rewrite list_lookup_fmap, Hv).
  rewrite length_map, Hlen, Hv. simpl.
  case_bool_decide; [by rewrite with_newline_text|done].
Qed.

(** The last line of the text behind a written row, and its fields. *)
Lemma last_line_fields p row :
  row ≠ [] → Forall bare (map Csv.field row) →
  ∃ line,
    last (readlines (with_newline p +:+ Py.text (Csv.writerow row)))
    = Some line
    ∧ Py.re_split Py.comma line
      = map Py.text (close_last (map Csv.field row)).
Proof.
  intros Hrow Hbare. rewrite writerow_bare by done.
  rewrite readlines_last by (by apply joined_no_space).
  eexists. split; [done|].
  unfold Py.re_split. rewrite chars_with_newline, chars_text.
  rewrite split_row by (try done; by destruct row). done.
Qed.

(** X25: the last row of the destination is read back by the next run.
    For a row of values that are written without quotes and have no
    white space in them, appended to a text that ends in a newline, the
    recovery finds in the text of the file what was written in the
    columns [date] and [time]: the text of the value, with the newline of
    the line behind it if the column is the last one, and [''] if there
    is no such column. *)
Theorem last_row_read_back (p : string) (attrs : list string) (row : list value) :
  row ≠ [] → length row = length attrs →
  Forall bare (map Csv.field row) →
  recover_last (build_idx attrs)
    (readlines (with_newline p +:+ Py.text (Csv.writerow row)))
  = Ok (read_back attrs row "date", read_back attrs row "time").
Proof.
  intros Hrow Hlen Hbare. unfold recover_last.
  destruct (last_line_fields p row Hrow Hbare) as (line & -> & Hfields).
  cbn [of_option]. change (mbind ?f (Ok ?x)) with (f x). cbv beta.
  rewrite Hfields, !recover_field by done. done.
Qed.

(** ** The values of the summary are written as they are *)

Lemma digit_bare c :
  is_Some (Py.digit c) → Csv.special c = false ∧ Py.is_space c = false.
Proof.
  intros Hc. split; [|by apply digit_solid].
  destruct Hc as [d Hd]. unfold Py.digit in Hd.
  destruct (_ && _)%nat eqn:Hr in Hd; [|done].
  apply andb_true_iff in Hr as [H1%Nat.leb_le H2%Nat.leb_le].
  unfold Csv.special, Py.ascii_eqb.
  rewrite !bool_decide_false; [done|intros ->; vm_compute in H1, H2; lia..].
Qed.

Lemma uint_bare d :
  Forall (λ c, Csv.special c = false ∧ Py.is_space c = false)
    (Py.chars (NilZero.string_of_uint d))
  ∧ Py.chars (NilZero.string_of_uint d) ≠ [].
Proof.
  assert (Hd : ∀ d, Forall (λ c, Csv.special c = false ∧ Py.is_space c = false)
                      (Py.chars (NilEmpty.string_of_uint d))).
  { intros d'. eapply Forall_impl; [apply digits_of_uint|].
    intros c Hc. by apply digit_bare. }
  unfold NilZero.string_of_uint. destruct d; (split; [try apply Hd|done]).
  by repeat constructor.
Qed.

Lemma bare_text s : bare (Py.chars s) ↔
  s ≠ "" ∧ Forall (λ c, Csv.special c = false ∧ Py.is_space c = false) (Py.chars s).
Proof.
  unfold bare. split; intros [Hne Hf]; (split; [|done]).
  - intros ->. done.
  - intros Hs. apply Hne. by rewrite <- (text_chars s), Hs.
Qed.

Lemma bare_app a b :
  Forall (λ c, Csv.special c = false ∧ Py.is_space c = false) (Py.chars a) →
  Forall (λ c, Csv.special c = false ∧ Py.is_space c = false) (Py.chars b) →
  Forall (λ c, Csv.special c = false ∧ Py.is_space c = false) (Py.chars (a +:+ b)).
Proof. intros Ha Hb. rewrite chars_app. by apply Forall_app. Qed.

Lemma decimal_bare n :
  Forall (λ c, Csv.special c = false ∧ Py.is_space c = false)
    (Py.chars (decimal n)).
Proof. apply uint_bare. Qed.

Lemma two_digits_bare n :
  Forall (λ c, Csv.special c = false ∧ Py.is_space c = false)
    (Py.chars (two_digits n)).
Proof.
  unfold two_digits. destruct (n <? 10)%nat; [|apply decimal_bare].
  apply bare_app; [by repeat constructor | apply decimal_bare].
Qed.

Lemma strftime_date_nonempty today : strftime_date today ≠ "".
Proof.
  destruct today as [y m d h mi se]. unfold strftime_date, decimal. simpl.
  unfold NilZero.string_of_uint. by destruct (Nat.to_uint y).
Qed.

Lemma strftime_time_nonempty today : strftime_time today ≠ "".
Proof.
  destruct today as [y m d h mi se]. unfold strftime_time, two_digits, decimal.
  simpl. destruct (h <? 10)%nat; [done|].
  unfold NilZero.string_of_uint. by destruct (Nat.to_uint h).
Qed.

Lemma strftime_bare today :
  bare (Py.chars (strftime_date today)) ∧ bare (Py.chars (strftime_time today)).
Proof.
  split; apply bare_text.
  - split; [apply strftime_date_nonempty|]. unfold strftime_date.
    repeat apply bare_app;
      auto using decimal_bare, two_digits_bare; by repeat constructor.
  - split; [apply strftime_time_nonempty|]. unfold strftime_time.
    repeat apply bare_app;
      auto using decimal_bare, two_digits_bare; by repeat constructor.
Qed.

Lemma str_of_int_bare z : bare (Py.chars (Py.str_of_int z)).
Proof.
  unfold Py.str_of_int, NilZero.string_of_int.
  destruct (Z.to_int z) as [d|d].
  - destruct (uint_bare d). by split.
  - split; [done|]. change (Py.chars (String ?c ?s)) with (c :: Py.chars s).
    constructor; [done|]. apply uint_bare.
Qed.

(** The keys of the summary. *)
Lemma summary_record_keys today c col :
  is_Some (summary_record today c !! col) ↔
  col ∈ ["date"; "time"; "num_iss_all"; "num_iss_open"; "num_iss_closed"].
Proof.
  unfold summary_record. rewrite !lookup_insert_is_Some, lookup_empty.
  rewrite !elem_of_cons, elem_of_nil. unfold is_Some.
  split.
  - intros H. repeat (destruct H as [<-|[_ H]]; [tauto|]). by destruct H.
  - intros H. destruct_or! H; try done; subst col;
      repeat first [left; reflexivity | right; split; [done|]].
Qed.

Lemma summary_record_bare today c col v :
  summary_record today c !! col = Some v → bare (Csv.field v).
Proof.
  intros Hv.
  assert (Hkey : is_Some (summary_record today c !! col)) by eauto.
  apply summary_record_keys in Hkey.
  rewrite !elem_of_cons, elem_of_nil in Hkey.
  destruct (strftime_bare today) as [Hd Ht].
  destruct_or! Hkey; try done; subst col;
    [rewrite summary_record_date in Hv | rewrite summary_record_time in Hv
    | unfold summary_record in Hv; rewrite !lookup_insert_ne in Hv by done;
      rewrite lookup_insert_eq in Hv..];
    injection Hv as <-; simpl; auto using str_of_int_bare.
Qed.

(** ** A run on the text that a run has left *)

Lemma summary_values_bare today c attrs :
  Forall (λ col, is_Some (summary_record today c !! col)) attrs →
  Forall bare (map Csv.field (summary_values today c attrs)).
Proof.
  unfold summary_values. induction 1 as [|col attrs [v Hv] _ IH]; [constructor|].
  cbn [map]. constructor; [|exact IH]. rewrite Hv. simpl.
  by eapply summary_record_bare.
Qed.

Lemma summary_record_complete today1 c1 today2 c2 attrs :
  Forall (λ col, is_Some (summary_record today1 c1 !! col)) attrs →
  Forall (λ col, is_Some (summary_record today2 c2 !! col)) attrs.
Proof.
  intros H. eapply Forall_impl; [exact H|].
  intros col. by rewrite !summary_record_keys.
Qed.

Lemma append_empty (s : string) : s +:+ "" = s.
Proof.
  rewrite <- (text_chars (s +:+ "")), chars_app.
  change (Py.chars "") with (@nil ascii). by rewrite app_nil_r, text_chars.
Qed.

Lemma writerow_ends row : ∃ x, Py.text (Csv.writerow row) = with_newline x.
Proof.
  unfold Csv.writerow.
  match goal with
  | |- ∃ x, Py.text (?body ++ _) = _ => exists (Py.text (body ++ [Csv.CR]))
  end.
  rewrite with_newline_text, <- app_assoc. done.
Qed.

Lemma export_fresh out_cols g :
  Forall (λ col, is_Some (g !! col)) (map out_col_attr out_cols) →
  export out_cols true None [g]
  = Ok ({| mode := ModeW; header_row := Some (map out_col_header out_cols);
           rows := [map (λ col, default VNone (g !! col))
                      (map out_col_attr out_cols)];
           raised := None |},
        Py.text (Csv.writerow (map VStr (map out_col_header out_cols)))
        +:+ Py.text (Csv.writerow (map (λ col, default VNone (g !! col))
                                     (map out_col_attr out_cols)))).
Proof.
  intros Hg. unfold export, write_to_csv. cbn [fmap option_fmap option_map].
  change (mbind ?f (Ok ?x)) with (f x). cbv beta iota zeta.
  rewrite (write_rows_complete _ _ "" "" [g]
             (positioned_empty _ _ _) (positioned_empty _ _ _))
    by (constructor; [by apply Forall_forall|constructor]).
  rewrite never_skipped_without_last.
  change (mbind ?f (Ok ?x)) with (f x). cbv beta. unfold file_after, text_written.
  cbn [mode header_row rows map concat]. by rewrite app_nil_r, text_app.
Qed.

Lemma export_append out_cols pre g d t :
  recover_last (build_idx (map out_col_attr out_cols)) (readlines pre)
  = Ok (d, t) →
  Forall (λ col, is_Some (g !! col)) (map out_col_attr out_cols) →
  export out_cols true (Some pre) [g]
  = Ok (if skipped_as_specified d t g then (nothing_appended, pre)
        else
          let row := map (λ col, default VNone (g !! col))
                       (map out_col_attr out_cols) in
          (appended [row], pre +:+ Py.text (Csv.writerow row))).
Proof.
  intros Hrec Hg. unfold export. cbn [fmap option_fmap option_map].
  rewrite (append_rows out_cols (readlines pre) [g] d t Hrec)
    by (by constructor).
  change (mbind ?f (Ok ?x)) with (f x). cbv beta.
  rewrite filter_cons, filter_nil.
  destruct (skipped_as_specified d t g);
    [rewrite decide_False by done | rewrite decide_True by done];
    unfold file_after, text_written; cbn [mode header_row rows map concat default].
  - by rewrite append_empty.
  - by rewrite app_nil_r.
Qed.

Lemma export_recovers out_cols pre gh_attrs out file :
  export out_cols true (Some pre) gh_attrs = Ok (out, file) →
  ∃ d t, recover_last (build_idx (map out_col_attr out_cols)) (readlines pre)
         = Ok (d, t).
Proof.
  unfold export, write_to_csv. cbn [fmap option_fmap option_map].
  destruct (recover_last _ _) as [[d t]|e]; [eauto|done].
Qed.

Lemma recover_without_time attrs lines d t :
  "time" ∉ attrs → recover_last (build_idx attrs) lines = Ok (d, t) → t = "".
Proof.
  intros Hno. unfold recover_last.
  destruct (last lines) as [l|]; [|done]. cbn [of_option].
  change (mbind ?f (Ok ?x)) with (f x). cbv beta.
  destruct (last_value _ _ "date") as [d'|]; [|done].
  change (mbind ?f (Ok ?x)) with (f x). cbv beta.
  rewrite last_value_field_at by done.
  apply last_index_None in Hno. rewrite Hno. simpl. congruence.
Qed.

(** *** What is read back of the row of a summary *)

Lemma read_back_absent attrs row key :
  key ∉ attrs → read_back attrs row key = "".
Proof. intros H%last_index_None. unfold read_back. by rewrite H. Qed.

Lemma summary_values_date today c attrs i :
  attrs !! i = Some "date" →
  Py.text (Csv.field (default VNone (summary_values today c attrs !! i)))
  = strftime_date today.
Proof.
  intros Hi. unfold summary_values.
  change (map ?f attrs) with (f <$> attrs).
  rewrite list_lookup_fmap, Hi. simpl. rewrite summary_record_date. simpl.
  apply text_chars.
Qed.

Lemma read_back_date_inside today c attrs :
  "date" ∈ attrs → last attrs ≠ Some "date" →
  read_back attrs (summary_values today c attrs) "date" = strftime_date today.
Proof.
  intros Hin Hlast. unfold read_back.
  destruct (last_index "date" attrs) as [i|] eqn:Hi;
    [|by apply last_index_None in Hi].
  apply last_index_Some in Hi as [Hi _].
  cbv zeta. rewrite (summary_values_date _ _ _ _ Hi).
  rewrite bool_decide_false; [done|]. intros Hlen. apply Hlast.
  rewrite last_lookup. by replace (pred (length attrs)) with i by lia.
Qed.

Lemma read_back_date_last today c attrs :
  last attrs = Some "date" →
  read_back attrs (summary_values today c attrs) "date"
  = with_newline (strftime_date today).
Proof.
  intros Hlast. unfold read_back. rewrite (last_index_last _ _ Hlast).
  assert (attrs !! (length attrs - 1)%nat = Some "date") as Hi.
  { rewrite last_lookup in Hlast.
    by replace (length attrs - 1)%nat with (pred (length attrs)) by lia. }
  cbv zeta. rewrite (summary_values_date _ _ _ _ Hi).
  rewrite bool_decide_true; [done|].
  apply lookup_lt_Some in Hi. lia.
Qed.

Lemma skipped_on_the_day today1 today2 c2 :
  strftime_date today2 = strftime_date today1 →
  skipped_as_specified (strftime_date today1) "" (summary_record today2 c2)
  = true.
Proof.
  intros Hsame. unfold skipped_as_specified, is_tracked, is_same.
  rewrite summary_record_date, summary_record_time, Hsame.
  cbn [truthy]. pose proof (strftime_date_nonempty today1) as Hne.
  rewrite (bool_decide_false _ Hne). simpl. by apply bool_decide_eq_true.
Qed.

Lemma skipped_by_date_only d g1 g2 :
  g1 !! "date" = g2 !! "date" →
  skipped_as_specified d "" g1 = skipped_as_specified d "" g2.
Proof.
  intros Hsame. unfold skipped_as_specified, is_tracked.
  rewrite Hsame. by destruct (negb (bool_decide (d = "")) && _).
Qed.

Lemma never_skipped_after_newline d today c :
  skipped_as_specified (with_newline d) "" (summary_record today c) = false.
Proof.
  unfold skipped_as_specified.
  assert (is_tracked "" (summary_record today c !! "time") = false) as ->
    by done.
  assert (is_same (with_newline d) (summary_record today c !! "date") = false)
    as ->; [|by destruct (is_tracked _ _)].
  unfold is_same. apply bool_decide_eq_false. rewrite summary_record_date.
  intros [= Hd]. destruct (no_newline_strftime today) as [Hno _].
  rewrite Hd in Hno. by apply with_newline_has_newline in Hno.
Qed.

Lemma summary_values_length today c attrs :
  length (summary_values today c attrs) = length attrs.
Proof. apply length_map. Qed.

(** A run on a text that ends in the row of a summary. *)
Lemma run_on_summary_row out_cols p today c g :
  let attrs := map out_col_attr out_cols in
  let file := with_newline p
              +:+ Py.text (Csv.writerow (summary_values today c attrs)) in
  attrs ≠ [] →
  Forall (λ col, is_Some (summary_record today c !! col)) attrs →
  Forall (λ col, is_Some (g !! col)) attrs →
  export out_cols true (Some file) [g]
  = Ok (if skipped_as_specified
             (read_back attrs (summary_values today c attrs) "date")
             (read_back attrs (summary_values today c attrs) "time") g
        then (nothing_appended, file)
        else
          let row := map (λ col, default VNone (g !! col)) attrs in
          (appended [row], file +:+ Py.text (Csv.writerow row))).
Proof.
  intros attrs file Hne Hkeys Hg. apply export_append; [|done].
  unfold recover_last, file.
  destruct (last_line_fields p (summary_values today c attrs))
    as (line & -> & Hfields).
  - unfold summary_values. by destruct attrs.
  - by apply summary_values_bare.
  - cbn [of_option]. change (mbind ?f (Ok ?x)) with (f x). cbv beta.
    rewrite Hfields, !recover_field by (try done; apply summary_values_length).
    done.
Qed.

(** X26: a second time series run on the day of the first changes
    nothing. With a column [date] that is not the last one and no column
    [time], all columns being keys of the summary: when a run on a
    destination that does not exist, or whose text ends in a newline, has
    gone through and left the text [file], a run on [file] with the same
    date writes no row and leaves the text as it is, whatever the counts
    have become. *)
Theorem second_run_on_the_day_writes_nothing
    (out_cols : list string) (content : option string) (p : string)
    (today1 today2 : datetime) (c1 c2 : counts)
    (out : written) (file : string) :
  let attrs := map out_col_attr out_cols in
  Forall (λ col, is_Some (summary_record today1 c1 !! col)) attrs →
  "date" ∈ attrs → last attrs ≠ Some "date" → "time" ∉ attrs →
  content = None ∨ content = Some (with_newline p) →
  strftime_date today2 = strftime_date today1 →
  export out_cols true content [summary_record today1 c1] = Ok (out, file) →
  export out_cols true (Some file) [summary_record today2 c2]
  = Ok (nothing_appended, file).
Proof.
  intros attrs Hkeys Hin Hlast Hnotime Hcontent Hday Hrun.
  assert (Hkeys2 : Forall (λ col, is_Some (summary_record today2 c2 !! col)) attrs)
    by (by eapply summary_record_complete).
  assert (Hne : attrs ≠ []) by (intros Hnil; rewrite Hnil in Hin;
                                 by apply elem_of_nil in Hin).
  assert (Hrow : ∀ q,
    export out_cols true
      (Some (with_newline q
             +:+ Py.text (Csv.writerow (summary_values today1 c1 attrs))))
      [summary_record today2 c2]
    = Ok (nothing_appended,
          with_newline q
          +:+ Py.text (Csv.writerow (summary_values today1 c1 attrs)))).
  { intros q. rewrite (run_on_summary_row out_cols q today1 c1) by done.
    fold attrs. rewrite read_back_date_inside, read_back_absent by done.
    by rewrite skipped_on_the_day. }
  destruct Hcontent as [->| ->].
  - rewrite export_fresh in Hrun by done. injection Hrun as _ <-.
    destruct (writerow_ends (map VStr (map out_col_header out_cols)))
      as [q ->].
    apply Hrow.
  - destruct (export_recovers _ _ _ _ _ Hrun) as (d & t & Hrec).
    assert (t = "") as -> by (by eapply recover_without_time).
    rewrite (export_append _ _ _ _ _ Hrec) in Hrun by done.
    destruct (skipped_as_specified d "" (summary_record today1 c1)) eqn:Hskip.
    + injection Hrun as _ <-.
      rewrite (export_append _ _ _ _ _ Hrec) by done.
      rewrite (skipped_by_date_only d _ (summary_record today1 c1)), Hskip;
        [done|].
      by rewrite !summary_record_date, Hday.
    + injection Hrun as _ <-. apply Hrow.
Qed.

(** X27: with the date as the last column, every run adds a row. With
    [date] as the last column and no column [time], all columns being
    keys of the summary: when a run on a destination that does not exist,
    or whose text ends in a newline, has written its row and left the
    text [file], a run on [file] appends the row of its summary, on the
    same day as on any other. *)
Theorem date_as_last_column_adds_a_row_every_run
    (out_cols : list string) (content : option string) (p : string)
    (today1 today2 : datetime) (c1 c2 : counts)
    (out : written) (file : string) :
  let attrs := map out_col_attr out_cols in
  Forall (λ col, is_Some (summary_record today1 c1 !! col)) attrs →
  last attrs = Some "date" → "time" ∉ attrs →
  content = None ∨ content = Some (with_newline p) →
  export out_cols true content [summary_record today1 c1] = Ok (out, file) →
  rows out ≠ [] →
  export out_cols true (Some file) [summary_record today2 c2]
  = Ok (appended [summary_values today2 c2 attrs],
        file +:+ Py.text (Csv.writerow (summary_values today2 c2 attrs))).
Proof.
  intros attrs Hkeys Hlast Hnotime Hcontent Hrun Hrows.
  assert (Hkeys2 : Forall (λ col, is_Some (summary_record today2 c2 !! col)) attrs)
    by (by eapply summary_record_complete).
  assert (Hne : attrs ≠ []) by (by intros Hnil; rewrite Hnil in Hlast).
  assert (Hrow : ∀ q,
    let file := with_newline q
                +:+ Py.text (Csv.writerow (summary_values today1 c1 attrs)) in
    export out_cols true (Some file) [summary_record today2 c2]
    = Ok (appended [summary_values today2 c2 attrs],
          file +:+ Py.text (Csv.writerow (summary_values today2 c2 attrs)))).
  { intros q. cbv zeta.
    rewrite (run_on_summary_row out_cols q today1 c1) by done.
    fold attrs. rewrite read_back_date_last, read_back_absent by done.
    by rewrite never_skipped_after_newline. }
  destruct Hcontent as [->| ->].
  - rewrite export_fresh in Hrun by done. injection Hrun as _ <-.
    destruct (writerow_ends (map VStr (map out_col_header out_cols)))
      as [q ->].
    apply Hrow.
  - destruct (export_recovers _ _ _ _ _ Hrun) as (d & t & Hrec).
    rewrite (export_append _ _ _ _ _ Hrec) in Hrun by done.
    destruct (skipped_as_specified d t (summary_record today1 c1)).
    + injection Hrun as <- _. done.
    + injection Hrun as _ <-. apply Hrow.
Qed.

Lemma summary_values_time today c attrs i :
  attrs !! i = Some "time" →
  Py.text (Csv.field (default VNone (summary_values today c attrs !! i)))
  = strftime_time today.
Proof.
  intros Hi. unfold summary_values.
  change (map ?f attrs) with (f <$> attrs).
  rewrite list_lookup_fmap, Hi. simpl. rewrite summary_record_time. simpl.
  apply text_chars.
Qed.

Lemma read_back_time_inside today c attrs :
  "time" ∈ attrs → last attrs ≠ Some "time" →
  read_back attrs (summary_values today c attrs) "time" = strftime_time today.
Proof.
  intros Hin Hlast. unfold read_back.
  destruct (last_index "time" attrs) as [i|] eqn:Hi;
    [|by apply last_index_None in Hi].
  apply last_index_Some in Hi as [Hi _].
  cbv zeta. rewrite (summary_values_time _ _ _ _ Hi).
  rewrite bool_decide_false; [done|]. intros Hlen. apply Hlast.
  rewrite last_lookup. by replace (pred (length attrs)) with i by lia.
Qed.

Lemma skipped_by_date_and_time today1 today2 c2 :
  skipped_as_specified (strftime_date today1) (strftime_time today1)
    (summary_record today2 c2)
  = bool_decide (strftime_date today2 = strftime_date today1
                 ∧ strftime_time today2 = strftime_time today1).
Proof.
  unfold skipped_as_specified, is_tracked, is_same.
  rewrite summary_record_date, summary_record_time. cbn [truthy].
  rewrite (bool_decide_false _ (strftime_date_nonempty today1)).
  rewrite (bool_decide_false _ (strftime_time_nonempty today1)).
  rewrite (bool_decide_false _ (strftime_date_nonempty today2)).
  rewrite (bool_decide_false _ (strftime_time_nonempty today2)).
  cbn [negb andb].
  destruct (decide (strftime_date today2 = strftime_date today1)) as [Hd|Hd];
    destruct (decide (strftime_time today2 = strftime_time today1)) as [Ht|Ht].
  - rewrite Hd, Ht, !bool_decide_true; done.
  - rewrite (bool_decide_false (_ ∧ _)) by tauto.
    rewrite (bool_decide_false (Some (VStr (strftime_time _)) = _)) by congruence.
    apply andb_false_r.
  - rewrite (bool_decide_false (_ ∧ _)) by tauto.
    by rewrite (bool_decide_false (Some (VStr (strftime_date _)) = _))
      by congruence.
  - rewrite (bool_decide_false (_ ∧ _)) by tauto.
    by rewrite (bool_decide_false (Some (VStr (strftime_date _)) = _))
      by congruence.
Qed.

(** X28: with the date and the time in columns that are not the last
    one, a run adds its row unless both are those of the last row. On a
    text that ends in a newline followed by the row of the summary of an
    earlier run, a run whose date and time are both those of that row
    writes nothing and leaves the text as it is; any other run appends
    the row of its summary. *)
Theorem row_added_unless_date_and_time_are_the_last
    (out_cols : list string) (p : string)
    (today1 today2 : datetime) (c1 c2 : counts) :
  let attrs := map out_col_attr out_cols in
  let file := with_newline p
              +:+ Py.text (Csv.writerow (summary_values today1 c1 attrs)) in
  Forall (λ col, is_Some (summary_record today1 c1 !! col)) attrs →
  "date" ∈ attrs → "time" ∈ attrs →
  last attrs ≠ Some "date" → last attrs ≠ Some "time" →
  export out_cols true (Some file) [summary_record today2 c2]
  = Ok (if bool_decide (strftime_date today2 = strftime_date today1
                        ∧ strftime_time today2 = strftime_time today1)
        then (nothing_appended, file)
        else (appended [summary_values today2 c2 attrs],
              file +:+ Py.text (Csv.writerow (summary_values today2 c2 attrs)))).
Proof.
  intros attrs file Hkeys Hdate Htime Hdlast Htlast.
  assert (Hkeys2 : Forall (λ col, is_Some (summary_record today2 c2 !! col)) attrs)
    by (by eapply summary_record_complete).
  assert (Hne : attrs ≠ []) by (intros Hnil; rewrite Hnil in Hdate;
                                 by apply elem_of_nil in Hdate).
  unfold file. rewrite (run_on_summary_row out_cols p today1 c1) by done.
  fold attrs. rewrite read_back_date_inside, read_back_time_inside by done.
  by rewrite skipped_by_date_and_time.
Qed.

Lemma row_added_unless_date_and_time_are_the_last_witness :
  let morning := {| year := 2024; month := 1; day := 1;
                    hour := 9; minute := 30; second := 0 |} in
  let evening := {| year := 2024; month := 1; day := 1;
                    hour := 18; minute := 0; second := 0 |} in
  let c := {| num_iss_all := 6; num_iss_open := 4; num_iss_closed := 2 |} in
  let file := with_newline "date,time,all"
              +:+ Py.text (Csv.writerow [VStr "2024/01/01"; VStr "09:30:00";
                                         VInt 6]) in
  export ["date"; "time"; "num_iss_all; all"] true (Some file)
    [summary_record evening c]
  = Ok (appended [[VStr "2024/01/01"; VStr "18:00:00"; VInt 6]],
        file +:+ Py.text (Csv.writerow [VStr "2024/01/01"; VStr "18:00:00";
                                        VInt 6])).
Proof.
  intros morning evening c file.
  apply (row_added_unless_date_and_time_are_the_last
           ["date"; "time"; "num_iss_all; all"] "date,time,all"
           morning evening c c); by_computation.
Defined.

Lemma last_row_read_back_witness :
  recover_last (build_idx ["num_iss_all"; "date"; "time"])
    (readlines (with_newline "all,date,time"
                +:+ Py.text (Csv.writerow [VInt 6; VStr "2024/01/01";
                                           VStr "09:30:00"])))
  = Ok ("2024/01/01", with_newline "09:30:00").
Proof.
  apply (last_row_read_back "all,date,time" ["num_iss_all"; "date"; "time"]
           [VInt 6; VStr "2024/01/01"; VStr "09:30:00"]);
    [done | reflexivity |].
  vm_compute.
  repeat (constructor; [split; [discriminate | repeat constructor]|]).
  constructor.
Defined.

Lemma second_run_on_the_day_writes_nothing_witness :
  let morning := {| year := 2024; month := 1; day := 1;
                    hour := 9; minute := 30; second := 0 |} in
  let evening := {| year := 2024; month := 1; day := 1;
                    hour := 18; minute := 0; second := 0 |} in
  let c1 := {| num_iss_all := 6; num_iss_open := 4; num_iss_closed := 2 |} in
  let c2 := {| num_iss_all := 7; num_iss_open := 4; num_iss_closed := 3 |} in
  let file := Py.text (Csv.writerow [VStr "date"; VStr "all"]
                       ++ Csv.writerow [VStr "2024/01/01"; VInt 6]) in
  export ["date"; "num_iss_all; all"] true None [summary_record morning c1]
  = Ok ({| mode := ModeW; header_row := Some ["date"; "all"];
           rows := [[VStr "2024/01/01"; VInt 6]]; raised := None |}, file)
  ∧ export ["date"; "num_iss_all; all"] true (Some file)
      [summary_record evening c2]
    = Ok (nothing_appended, file).
Proof.
  intros morning evening c1 c2 file.
  assert (Hrun : export ["date"; "num_iss_all; all"] true None
                   [summary_record morning c1]
                 = Ok ({| mode := ModeW; header_row := Some ["date"; "all"];
                          rows := [[VStr "2024/01/01"; VInt 6]];
                          raised := None |}, file))
    by (vm_compute; reflexivity).
  split; [exact Hrun|].
  apply (second_run_on_the_day_writes_nothing ["date"; "num_iss_all; all"]
           None "" morning evening c1 c2
           {| mode := ModeW; header_row := Some ["date"; "all"];
              rows := [[VStr "2024/01/01"; VInt 6]]; raised := None |} file);
    [by_computation | by_computation | by_computation | by_computation
    | by left | reflexivity | exact Hrun].
Defined.

Lemma date_as_last_column_adds_a_row_every_run_witness :
  let morning := {| year := 2024; month := 1; day := 1;
                    hour := 9; minute := 30; second := 0 |} in
  let evening := {| year := 2024; month := 1; day := 1;
                    hour := 18; minute := 0; second := 0 |} in
  let c := {| num_iss_all := 6; num_iss_open := 4; num_iss_closed := 2 |} in
  let file := Py.text (Csv.writerow [VStr "all"; VStr "date"]
                       ++ Csv.writerow [VInt 6; VStr "2024/01/01"]) in
  export ["num_iss_all; all"; "date"] true None [summary_record morning c]
  = Ok ({| mode := ModeW; header_row := Some ["all"; "date"];
           rows := [[VInt 6; VStr "2024/01/01"]]; raised := None |}, file)
  ∧ export ["num_iss_all; all"; "date"] true (Some file)
      [summary_record evening c]
    = Ok (appended [[VInt 6; VStr "2024/01/01"]],
          file +:+ Py.text (Csv.writerow [VInt 6; VStr "2024/01/01"])).
Proof.
  intros morning evening c file.
  assert (Hrun : export ["num_iss_all; all"; "date"] true None
                   [summary_record morning c]
                 = Ok ({| mode := ModeW; header_row := Some ["all"; "date"];
                          rows := [[VInt 6; VStr "2024/01/01"]];
                          raised := None |}, file))
    by (vm_compute; reflexivity).
  split; [exact Hrun|].
  apply (date_as_last_column_adds_a_row_every_run
           ["num_iss_all; all"; "date"] None "" morning evening c c
           {| mode := ModeW; header_row := Some ["all"; "date"];
              rows := [[VInt 6; VStr "2024/01/01"]]; raised := None |} file);
    [by_computation | reflexivity | by_computation | by left | exact Hrun
    | discriminate].
Defined.
